(** * Request resolution pipeline of the YouTube API server

    A shallow embedding of the request-resolution core of
    [fix_thumbnails.py] (the file also carries [main (10).py]): the
    thumbnail helpers, the cache-key digest and the [cached] decorator, the
    identifier regular expressions, the API-key gate, the format selector,
    the stream-handle registry and the [/youtube] and [/stream] handlers.

    Conventions.
    - A Python [str] is a [pystr]: the list of its code points, restricted
      to code points below 256 (Rocq's [ascii]).
    - Clock readings ([time.time()], [datetime.now()]) are integers counting
      microseconds; one second is [SECOND].
    - Python dictionaries keep insertion order, so the shared [cache] is an
      association list with unique keys. *)

From Stdlib Require Import Ascii String ZArith NArith Lia Bool Arith.
From Stdlib Require Import List Permutation Sorted.
Import ListNotations.

(* ===================================================================== *)
(** * Python strings *)
(* ===================================================================== *)

Definition pystr : Type := list ascii.

Definition str (s : string) : pystr := list_ascii_of_string s.

Notation "` s" := (str s) (at level 1, s at level 0, format "` s").

Definition chr_eqb (a b : ascii) : bool := Ascii.eqb a b.

Fixpoint pystr_eqb (a b : pystr) : bool :=
  match a, b with
  | [], [] => true
  | x :: a', y :: b' => chr_eqb x y && pystr_eqb a' b'
  | _, _ => false
  end.

Definition ord (c : ascii) : N := N_of_ascii c.

Definition in_range (lo hi c : ascii) : bool :=
  (ord lo <=? ord c)%N && (ord c <=? ord hi)%N.

Definition NEWLINE : ascii := ascii_of_nat 10.

(** Truthiness of a string: [if s] / [if not s]. *)
Definition truthy (s : pystr) : bool :=
  match s with [] => false | _ => true end.

(* ===================================================================== *)
(** * The fragment of [re] used by the source *)
(* ===================================================================== *)

Module Re.

(** Pattern syntax: exactly the constructs that occur in the patterns of
    [extract_video_id], [is_youtube_url] and the handlers. *)
Inductive regex : Type :=
| Lit (c : ascii)              (* a literal character *)
| Cls (p : ascii -> bool)      (* a character class [...] *)
| Cat (r1 r2 : regex)          (* r1 r2 *)
| Alt (r1 r2 : regex)          (* r1|r2, left alternative first *)
| Opt (r : regex)              (* r?  greedy *)
| Rep (n : nat) (r : regex)    (* r{n} *)
| DotStar                      (* .*  greedy, [.] excludes newline *)
| Grp (r : regex)              (* capturing group 1 *)
| Bol                          (* ^ *)
| Eol                          (* $ *)
| Eps.

(** A match object is reduced to the text of group 1, if it took part. *)
Definition mobj : Type := option pystr.

(** Continuation of a match: position, remaining input, group 1 so far. *)
Definition kont : Type := nat -> pystr -> mobj -> option mobj.

Fixpoint rep_k (step : nat -> pystr -> mobj -> kont -> option mobj)
         (n : nat) (pos : nat) (s : pystr) (g : mobj) (k : kont) : option mobj :=
  match n with
  | O => k pos s g
  | S n' => step pos s g (fun pos' s' g' => rep_k step n' pos' s' g' k)
  end.

Fixpoint dotstar_k (pos : nat) (s : pystr) (g : mobj) (k : kont) : option mobj :=
  match s with
  | [] => k pos s g
  | c :: s' =>
      if chr_eqb c NEWLINE then k pos s g
      else match dotstar_k (S pos) s' g k with
           | Some m => Some m
           | None => k pos s g
           end
  end.

(** Backtracking matcher in continuation-passing style: alternatives are
    tried in the order the [re] module tries them. *)
Fixpoint rmatch (r : regex) (pos : nat) (s : pystr) (g : mobj) (k : kont)
  : option mobj :=
  match r with
  | Lit c =>
      match s with
      | x :: s' => if chr_eqb x c then k (S pos) s' g else None
      | [] => None
      end
  | Cls p =>
      match s with
      | x :: s' => if p x then k (S pos) s' g else None
      | [] => None
      end
  | Cat r1 r2 =>
      rmatch r1 pos s g (fun pos' s' g' => rmatch r2 pos' s' g' k)
  | Alt r1 r2 =>
      match rmatch r1 pos s g k with
      | Some m => Some m
      | None => rmatch r2 pos s g k
      end
  | Opt r1 =>
      match rmatch r1 pos s g k with
      | Some m => Some m
      | None => k pos s g
      end
  | Rep n r1 => rep_k (rmatch r1) n pos s g k
  | DotStar => dotstar_k pos s g k
  | Grp r1 =>
      rmatch r1 pos s g
        (fun pos' s' _ => k pos' s' (Some (firstn (pos' - pos) s)))
  | Bol => if Nat.eqb pos 0 then k pos s g else None
  | Eol =>
      match s with
      | [] => k pos s g
      | [c] => if chr_eqb c NEWLINE then k pos s g else None
      | _ => None
      end
  | Eps => k pos s g
  end.

Definition accept : kont := fun _ _ g => Some g.

(** [re.match(pattern, s)]: anchored at the start of [s]. *)
Definition re_match (r : regex) (s : pystr) : option mobj :=
  rmatch r 0 s None accept.

Fixpoint search_from (r : regex) (pos : nat) (s : pystr) : option mobj :=
  match rmatch r pos s None accept with
  | Some m => Some m
  | None =>
      match s with
      | [] => None
      | _ :: s' => search_from r (S pos) s'
      end
  end.

(** [re.search(pattern, s)]: the leftmost start position that matches. *)
Definition re_search (r : regex) (s : pystr) : option mobj :=
  search_from r 0 s.

(** A literal word. *)
Fixpoint lit (w : pystr) : regex :=
  match w with
  | [] => Eps
  | [c] => Lit c
  | c :: w' => Cat (Lit c) (lit w')
  end.

End Re.

Import Re.

Declare Scope re_scope.
Delimit Scope re_scope with re.
Bind Scope re_scope with regex.
Infix ">>" := Cat (at level 40, left associativity) : re_scope.
Infix "<|>" := Alt (at level 50, left associativity) : re_scope.

(* ===================================================================== *)
(** * Identifier patterns *)
(* ===================================================================== *)

(** The class [[0-9A-Za-z_-]] (also written [[a-zA-Z0-9_-]]). *)
Definition idchar (c : ascii) : bool :=
  in_range "0" "9" c || in_range "A" "Z" c || in_range "a" "z" c
  || chr_eqb c "_" || chr_eqb c "-".

Definition ID11 : regex := Rep 11 (Cls idchar).

(** The four patterns of [extract_video_id], in source order. *)
Definition video_id_patterns : list regex :=
  [ ((lit `"v=" <|> lit `"/") >> Grp ID11 >> DotStar)%re;
    (lit `"embed/" >> Grp ID11)%re;
    (lit `"watch?v=" >> Grp ID11)%re;
    (Bol >> Grp ID11 >> Eol)%re ].

(** [match.group(1)]: the source's patterns all capture group 1. *)
Definition group1 (m : mobj) : pystr :=
  match m with Some w => w | None => [] end.

Fixpoint first_search (ps : list regex) (url : pystr) : option pystr :=
  match ps with
  | [] => None
  | p :: ps' =>
      match re_search p url with
      | Some m => Some (group1 m)
      | None => first_search ps' url
      end
  end.

Definition extract_video_id (url : pystr) : option pystr :=
  first_search video_id_patterns url.

Definition scheme_www : regex :=
  (Opt (lit `"http" >> Opt (Lit "s") >> lit `"://") >> Opt (lit `"www."))%re.

(** The four patterns of [is_youtube_url], in source order. *)
Definition youtube_patterns : list regex :=
  [ (scheme_www >> lit `"youtube.com/watch?v=")%re;
    (scheme_www >> lit `"youtu.be/")%re;
    (scheme_www >> lit `"youtube.com/embed/")%re;
    (scheme_www >> lit `"youtube.com/v/")%re ].

Definition is_some {A} (o : option A) : bool :=
  match o with Some _ => true | None => false end.

Definition is_youtube_url (url : pystr) : bool :=
  existsb (fun p => is_some (re_match p url)) youtube_patterns.

Definition WATCH_PREFIX : pystr := `"https://www.youtube.com/watch?v=".

(** A value that may be [None], tested with [if v:]. *)
Definition nonempty (o : option pystr) : option pystr :=
  match o with
  | Some v => if truthy v then Some v else None
  | None => None
  end.

(** [normalize_url(url, video_id=None)]. *)
Definition normalize_url (url : pystr) (video_id : option pystr) : pystr :=
  match nonempty video_id with
  | Some v => WATCH_PREFIX ++ v
  | None =>
      if is_youtube_url url then
        match nonempty (extract_video_id url) with
        | Some v => WATCH_PREFIX ++ v
        | None => url
        end
      else url
  end.

(** The pattern [^[a-zA-Z0-9_-]{11}$] of [youtube] and [get_details]. *)
Definition BARE_ID : regex := (Bol >> ID11 >> Eol)%re.

Definition is_video_id (query : pystr) : bool := is_some (re_match BARE_ID query).


(* ===================================================================== *)
(** * Python values, [str()] and [repr()] *)
(* ===================================================================== *)

(** The atomic values that flow through the pipeline: upstream metadata
    fields and the arguments of cached calls. *)
Inductive PyVal : Type :=
| PNone
| PBool (b : bool)
| PInt (z : Z)
| PStr (s : pystr).

(** [bool(v)]. *)
Definition val_truthy (v : PyVal) : bool :=
  match v with
  | PNone => false
  | PBool b => b
  | PInt z => negb (z =? 0)%Z
  | PStr s => truthy s
  end.

(** [d.get(key, default)] on a field that may be absent. *)
Definition dget (field : option PyVal) (default : PyVal) : PyVal :=
  match field with Some v => v | None => default end.

Open Scope Z_scope.

Definition digit_chr (d : Z) : ascii := ascii_of_N (48 + Z.to_N d).

(** Decimal digits of a non-negative integer, most significant first. *)
Fixpoint digits_of (fuel : nat) (n : Z) (acc : pystr) : pystr :=
  match fuel with
  | O => acc
  | S fuel' =>
      let acc' := digit_chr (n mod 10) :: acc in
      if n <? 10 then acc' else digits_of fuel' (n / 10) acc'
  end.

Definition str_of_nonneg (n : Z) : pystr :=
  digits_of (S (Z.to_nat (Z.log2 n))) n [].

(** [str(n)] for an [int]. *)
Definition str_of_int (z : Z) : pystr :=
  if z <? 0 then "-"%char :: str_of_nonneg (- z) else str_of_nonneg z.

(** [str(v)]. *)
Definition py_str (v : PyVal) : pystr :=
  match v with
  | PNone => `"None"
  | PBool true => `"True"
  | PBool false => `"False"
  | PInt z => str_of_int z
  | PStr s => s
  end.

Definition hex_chr (d : N) : ascii :=
  if (d <? 10)%N then ascii_of_N (48 + d) else ascii_of_N (87 + d).

Definition hex2 (n : N) : pystr := [hex_chr (n / 16); hex_chr (n mod 16)].

(** [str.isprintable] on one code point below 256. *)
Definition printable (c : ascii) : bool :=
  let n := ord c in
  ((32 <=? n) && (n <? 127))%N
  || ((161 <=? n)%N && negb (n =? 173)%N).

Definition repr_chr (quote : ascii) (c : ascii) : pystr :=
  if chr_eqb c quote || chr_eqb c "\" then ["\"%char; c]
  else if (ord c =? 9)%N then `"\t"
  else if (ord c =? 10)%N then `"\n"
  else if (ord c =? 13)%N then `"\r"
  else if printable c then [c]
  else `"\x" ++ hex2 (ord c).

Definition DQUOTE : ascii := ascii_of_nat 34.

(** [repr(s)] for a [str]: single quotes unless the text holds a single
    quote and no double quote. *)
Definition repr_str (s : pystr) : pystr :=
  let has q := existsb (fun c => chr_eqb c q) s in
  let quote : ascii := if has "'"%char && negb (has DQUOTE) then DQUOTE else "'"%char in
  quote :: flat_map (repr_chr quote) s ++ [quote].

(** [repr(v)]. *)
Definition py_repr (v : PyVal) : pystr :=
  match v with
  | PStr s => repr_str s
  | _ => py_str v
  end.

Fixpoint join (sep : pystr) (parts : list pystr) : pystr :=
  match parts with
  | [] => []
  | [p] => p
  | p :: ps => p ++ sep ++ join sep ps
  end.

(** [str(args)] for the tuple of positional arguments. *)
Definition str_tuple (args : list PyVal) : pystr :=
  match args with
  | [a] => `"(" ++ py_repr a ++ `",)"
  | _ => `"(" ++ join `", " (map py_repr args) ++ `")"
  end.

(** [str(items)] for a list of [(key, value)] pairs. *)
Definition str_items (items : list (pystr * PyVal)) : pystr :=
  `"[" ++ join `", "
         (map (fun kv => `"(" ++ repr_str (fst kv) ++ `", " ++ py_repr (snd kv) ++ `")")
              items)
      ++ `"]".

(* ===================================================================== *)
(** * [hashlib.md5] (RFC 1321) and the cache key *)
(* ===================================================================== *)

Module MD5.

Definition w32 (x : Z) : Z := Z.land x 0xffffffff.

Definition rotl (x c : Z) : Z :=
  w32 (Z.lor (Z.shiftl x c) (Z.shiftr x (32 - c))).

Definition not32 (x : Z) : Z := Z.lxor x 0xffffffff.

Definition S_TABLE : list Z :=
  [7; 12; 17; 22; 7; 12; 17; 22; 7; 12; 17; 22; 7; 12; 17; 22;
   5; 9; 14; 20; 5; 9; 14; 20; 5; 9; 14; 20; 5; 9; 14; 20;
   4; 11; 16; 23; 4; 11; 16; 23; 4; 11; 16; 23; 4; 11; 16; 23;
   6; 10; 15; 21; 6; 10; 15; 21; 6; 10; 15; 21; 6; 10; 15; 21].

Definition K_TABLE : list Z :=
  [0xd76aa478; 0xe8c7b756; 0x242070db; 0xc1bdceee;
   0xf57c0faf; 0x4787c62a; 0xa8304613; 0xfd469501;
   0x698098d8; 0x8b44f7af; 0xffff5bb1; 0x895cd7be;
   0x6b901122; 0xfd987193; 0xa679438e; 0x49b40821;
   0xf61e2562; 0xc040b340; 0x265e5a51; 0xe9b6c7aa;
   0xd62f105d; 0x02441453; 0xd8a1e681; 0xe7d3fbc8;
   0x21e1cde6; 0xc33707d6; 0xf4d50d87; 0x455a14ed;
   0xa9e3e905; 0xfcefa3f8; 0x676f02d9; 0x8d2a4c8a;
   0xfffa3942; 0x8771f681; 0x6d9d6122; 0xfde5380c;
   0xa4beea44; 0x4bdecfa9; 0xf6bb4b60; 0xbebfbc70;
   0x289b7ec6; 0xeaa127fa; 0xd4ef3085; 0x04881d05;
   0xd9d4d039; 0xe6db99e5; 0x1fa27cf8; 0xc4ac5665;
   0xf4292244; 0x432aff97; 0xab9423a7; 0xfc93a039;
   0x655b59c3; 0x8f0ccc92; 0xffeff47d; 0x85845dd1;
   0x6fa87e4f; 0xfe2ce6e0; 0xa3014314; 0x4e0811a1;
   0xf7537e82; 0xbd3af235; 0x2ad7d2bb; 0xeb86d391].

Fixpoint le_bytes (n : nat) (v : Z) : list Z :=
  match n with
  | O => []
  | S n' => v mod 256 :: le_bytes n' (v / 256)
  end.

Definition pad (msg : list Z) : list Z :=
  let len := Z.of_nat (length msg) in
  msg ++ [128] ++ repeat 0 (Z.to_nat ((55 - len) mod 64))
      ++ le_bytes 8 (8 * len).

Fixpoint words_of (bs : list Z) (n : nat) : list Z :=
  match n, bs with
  | S n', b0 :: b1 :: b2 :: b3 :: rest =>
      (b0 + 256 * b1 + 65536 * b2 + 16777216 * b3) :: words_of rest n'
  | _, _ => []
  end.

Fixpoint blocks_of (ws : list Z) (n : nat) : list (list Z) :=
  match n with
  | O => []
  | S n' => firstn 16 ws :: blocks_of (skipn 16 ws) n'
  end.

Record regs : Type := Regs { rA : Z; rB : Z; rC : Z; rD : Z }.

Definition INIT : regs := Regs 0x67452301 0xefcdab89 0x98badcfe 0x10325476.

Definition step (M : list Z) (r : regs) (i : nat) : regs :=
  let '(Regs A B C D) := r in
  let iz := Z.of_nat i in
  let '(F, g) :=
    if iz <? 16 then (Z.lor (Z.land B C) (Z.land (not32 B) D), iz)
    else if iz <? 32 then (Z.lor (Z.land D B) (Z.land (not32 D) C), (5 * iz + 1) mod 16)
    else if iz <? 48 then (Z.lxor (Z.lxor B C) D, (3 * iz + 5) mod 16)
    else (Z.lxor C (Z.lor B (not32 D)), (7 * iz) mod 16) in
  let F' := w32 (F + A + nth i K_TABLE 0 + nth (Z.to_nat g) M 0) in
  Regs D (w32 (B + rotl F' (nth i S_TABLE 0))) B C.

Definition block (r : regs) (M : list Z) : regs :=
  let r' := fold_left (step M) (seq 0 64) r in
  Regs (w32 (rA r + rA r')) (w32 (rB r + rB r'))
       (w32 (rC r + rC r')) (w32 (rD r + rD r')).

Definition digest (msg : list Z) : list Z :=
  let bs := pad msg in
  let nblocks := (length bs / 64)%nat in
  let r := fold_left block (blocks_of (words_of bs (16 * nblocks)) nblocks) INIT in
  le_bytes 4 (rA r) ++ le_bytes 4 (rB r) ++ le_bytes 4 (rC r) ++ le_bytes 4 (rD r).

End MD5.

(** [s.encode()]: UTF-8 of code points below 256. *)
Definition utf8_encode (s : pystr) : list Z :=
  flat_map (fun c =>
              let n := Z.of_N (ord c) in
              if n <? 128 then [n]
              else [Z.lor 192 (Z.shiftr n 6); Z.lor 128 (Z.land n 63)]) s.

(** [hashlib.md5(data).hexdigest()]. *)
Definition md5_hexdigest (data : list Z) : pystr :=
  flat_map (fun b => hex2 (Z.to_N b)) (MD5.digest data).


(** Code-point order on strings, as [<] compares two [str]. *)
Fixpoint pystr_ltb (a b : pystr) : bool :=
  match a, b with
  | [], [] => false
  | [], _ :: _ => true
  | _ :: _, [] => false
  | x :: a', y :: b' =>
      if (ord x <? ord y)%N then true
      else if (ord y <? ord x)%N then false
      else pystr_ltb a' b'
  end.

(** [sorted(kwargs.items())]. The items of a dictionary have pairwise
    distinct keys, so comparing two [(key, value)] tuples is decided by the
    keys; the sort is stable. *)
Fixpoint insert_item (kv : pystr * PyVal) (l : list (pystr * PyVal))
  : list (pystr * PyVal) :=
  match l with
  | [] => [kv]
  | h :: t =>
      if pystr_ltb (fst h) (fst kv) then h :: insert_item kv t else kv :: l
  end.

Definition sorted_items (items : list (pystr * PyVal)) : list (pystr * PyVal) :=
  fold_right insert_item [] items.

(** [key_data] of [generate_cache_key]. *)
Definition cache_key_data (func_name : pystr) (args : list PyVal)
           (kwargs : list (pystr * PyVal)) : pystr :=
  func_name ++ `":" ++ str_tuple args ++ `":" ++ str_items (sorted_items kwargs).

(** [generate_cache_key(func_name, *args, **kwargs)]. *)
Definition generate_cache_key (func_name : pystr) (args : list PyVal)
           (kwargs : list (pystr * PyVal)) : pystr :=
  md5_hexdigest (utf8_encode (cache_key_data func_name args kwargs)).


(* ===================================================================== *)
(** * Thumbnail helpers *)
(* ===================================================================== *)

(** One entry of [info['thumbnails']]. [t_url] is [None] when the key is
    absent or holds [None]. A dimension is [None] when the key is absent,
    [Some None] when the key holds [None], and [Some (Some n)] when it
    holds the integer [n]. *)
Record Thumb : Type := mkThumb {
  t_url : option pystr;
  t_width : option (option Z);
  t_height : option (option Z)
}.

(** One entry of [info['formats']]: [f.get('vcodec')], [f.get('acodec')]
    and [f['url']], each [None] when the key is absent. *)
Record Format : Type := mkFormat {
  f_vcodec : option pystr;
  f_acodec : option pystr;
  f_url : option pystr
}.

(** The info dictionary returned by [YoutubeDL.extract_info]: the keys the
    source reads. A field is [None] when the key is absent. *)
Record Info : Type := mkInfo {
  info_id : option PyVal;
  info_title : option PyVal;
  info_duration : option PyVal;
  info_uploader : option PyVal;
  info_view_count : option PyVal;
  info_thumbnail : option PyVal;
  info_thumbnails : option (list (option Thumb));
  info_url : option pystr;
  info_formats : option (list Format)
}.

Definition QUALITIES : list pystr :=
  [`"maxresdefault"; `"hqdefault"; `"mqdefault"; `"default"].

Definition thumbnail_url (video_id : PyVal) (q : pystr) : pystr :=
  `"https://i.ytimg.com/vi/" ++ py_str video_id ++ `"/" ++ q ++ `".jpg".

(** [get_youtube_thumbnail(video_id, quality='maxresdefault')]: the loop
    returns in its first iteration. *)
Definition get_youtube_thumbnail (video_id : PyVal) (quality : pystr) : pystr :=
  if negb (val_truthy video_id) then []
  else
    let qualities :=
      if existsb (pystr_eqb quality) QUALITIES then quality :: QUALITIES
      else QUALITIES in
    match qualities with
    | q :: _ => thumbnail_url video_id q
    | [] => thumbnail_url video_id `"maxresdefault"
    end.

(** [x.get(key, 0)] of a dimension: the default only stands in for an
    absent key. *)
Definition dimension (d : option (option Z)) : option Z :=
  match d with
  | None => Some 0
  | Some held => held
  end.

(** [x.get('width', 0) * x.get('height', 0)]; [None] is the [TypeError]
    of a product with [None]. *)
Definition area (t : Thumb) : option Z :=
  match dimension (t_width t), dimension (t_height t) with
  | Some w, Some h => Some (w * h)
  | _, _ => None
  end.

(** [t and t.get('url')]. *)
Definition valid_thumb (t : option Thumb) : option Thumb :=
  match t with
  | Some th =>
      match nonempty (t_url th) with Some _ => Some th | None => None end
  | None => None
  end.

Fixpoint filter_map {A B} (f : A -> option B) (l : list A) : list B :=
  match l with
  | [] => []
  | x :: l' =>
      match f x with Some y => y :: filter_map f l' | None => filter_map f l' end
  end.

(** [max(items, key=...)], from the best item so far and its key: the
    key of every item is computed ([None] when one of them raises), and
    the first of several maximal items is kept. *)
Fixpoint max_by {A} (key : A -> option Z) (best : A) (best_key : Z) (l : list A)
  : option A :=
  match l with
  | [] => Some best
  | x :: l' =>
      match key x with
      | Some k =>
          if best_key <? k then max_by key x k l' else max_by key best best_key l'
      | None => None
      end
  end.

Definition opt_str (o : option pystr) : pystr :=
  match o with Some s => s | None => [] end.

(** [extract_best_thumbnail(info_dict)]; [None] is the [TypeError]
    raised inside [max] by a dimension that holds [None]. *)
Definition extract_best_thumbnail (info : Info) : option PyVal :=
  let video_id := dget (info_id info) (PStr []) in
  let thumbnails := match info_thumbnails info with Some l => l | None => [] end in
  match filter_map valid_thumb thumbnails with
  | t :: ts =>
      match area t with
      | Some a =>
          match max_by area t a ts with
          | Some best_thumbnail => Some (PStr (opt_str (t_url best_thumbnail)))
          | None => None
          end
      | None => None
      end
  | [] =>
      let direct_thumbnail := dget (info_thumbnail info) (PStr []) in
      if val_truthy direct_thumbnail then Some direct_thumbnail
      else if val_truthy video_id
           then Some (PStr (get_youtube_thumbnail video_id `"maxresdefault"))
           else Some (PStr [])
  end.

(** The [video_data] dictionary built by [search_videos] and
    [get_details]. *)
Record VideoData : Type := mkVideoData {
  vd_id : PyVal;
  vd_title : PyVal;
  vd_duration : PyVal;
  vd_duration_text : PyVal;
  vd_channel : PyVal;
  vd_views : PyVal;
  vd_thumbnail : PyVal;
  vd_link : pystr
}.

Definition set_thumbnail (vd : VideoData) (t : PyVal) : VideoData :=
  {| vd_id := vd_id vd; vd_title := vd_title vd; vd_duration := vd_duration vd;
     vd_duration_text := vd_duration_text vd; vd_channel := vd_channel vd;
     vd_views := vd_views vd; vd_thumbnail := t; vd_link := vd_link vd |}.

(** [ensure_thumbnail_availability(video_data)]. *)
Definition ensure_thumbnail_availability (vd : VideoData) : VideoData :=
  if negb (val_truthy (vd_thumbnail vd)) && val_truthy (vd_id vd)
  then set_thumbnail vd (PStr (get_youtube_thumbnail (vd_id vd) `"maxresdefault"))
  else vd.

(* ===================================================================== *)
(** * Format selection *)
(* ===================================================================== *)

(** [f.get(codec) != 'none']. *)
Definition has_track (codec : option pystr) : bool :=
  match codec with
  | Some c => negb (pystr_eqb c `"none")
  | None => true
  end.

Definition has_both (f : Format) : bool :=
  has_track (f_vcodec f) && has_track (f_acodec f).

Definition has_video (f : Format) : bool := has_track (f_vcodec f).

Definition has_audio (f : Format) : bool := has_track (f_acodec f).

Definition audio_only (f : Format) : bool :=
  has_track (f_acodec f) && negb (has_track (f_vcodec f)).

(** [l[-1]] of a list. *)
Definition last_opt {A} (l : list A) : option A :=
  match l with
  | [] => None
  | x :: l' => Some (last l' x)
  end.

(** The format picked from a non-empty [formats] list: the branch
    [elif 'formats' in info and info['formats']] of [get_stream_url]. *)
Definition pick_format (formats : list Format) (is_video : bool) : option Format :=
  if is_video then
    let video_formats := filter has_both formats in
    let video_formats :=
      match video_formats with [] => filter has_video formats | _ => video_formats end in
    match video_formats with
    | _ :: _ => last_opt video_formats
    | [] => last_opt formats
    end
  else
    let audio_formats := filter audio_only formats in
    let audio_formats :=
      match audio_formats with [] => filter has_audio formats | _ => audio_formats end in
    match audio_formats with
    | _ :: _ => last_opt audio_formats
    | [] => last_opt formats
    end.

(** The upstream URL chosen by [get_stream_url] from a resolved [info];
    [None] stands for the paths that return [""] (no usable entry, or a
    [KeyError] on a format without ['url']). *)
Definition select_stream_url (info : Info) (is_video : bool) : option pystr :=
  match info_url info with
  | Some u => Some u
  | None =>
      match info_formats info with
      | Some (f :: fs) =>
          match pick_format (f :: fs) is_video with
          | Some chosen => f_url chosen
          | None => None
          end
      | _ => None
      end
  end.

(* ===================================================================== *)
(** * Shared state and the outside world *)
(* ===================================================================== *)

Definition SECOND : Z := 1000000.
Definition HOUR : Z := 3600 * SECOND.
Definition DAY : Z := 24 * HOUR.

(** [CACHE_TIMEOUT = 60 * 60]. *)
Definition CACHE_TIMEOUT : Z := 60 * 60 * SECOND.

(** A value of the global [cache] dictionary: the pair
    [(result, timestamp)] stored by [cached], or the [stream_data]
    dictionary stored by [get_stream_url]. *)
Inductive CacheVal : Type :=
| CResult (result : PyVal) (timestamp : Z)
| CStream (url : pystr) (is_video : bool) (expires : Z).

(** An insertion-ordered dictionary with string keys. *)
Definition dict (V : Type) : Type := list (pystr * V).

Fixpoint dict_get {V} (k : pystr) (d : dict V) : option V :=
  match d with
  | [] => None
  | (k', v) :: d' => if pystr_eqb k k' then Some v else dict_get k d'
  end.

(** [d[k] = v]: an existing key keeps its place, a new key goes last. *)
Fixpoint dict_set {V} (k : pystr) (v : V) (d : dict V) : dict V :=
  match d with
  | [] => [(k, v)]
  | (k', v') :: d' =>
      if pystr_eqb k k' then (k, v) :: d' else (k', v') :: dict_set k v d'
  end.

(** [del d[k]]. *)
Fixpoint dict_del {V} (k : pystr) (d : dict V) : dict V :=
  match d with
  | [] => []
  | (k', v') :: d' =>
      if pystr_eqb k k' then d' else (k', v') :: dict_del k d'
  end.

(** A row of [api_keys]. *)
Record ApiKey : Type := mkApiKey {
  ak_id : Z;
  ak_key : pystr;
  ak_name : pystr;
  ak_is_admin : bool;
  ak_valid_until : Z;
  ak_daily_limit : Z;
  ak_reset_at : Z;
  ak_count : Z
}.

(** A row of [api_logs]. *)
Record ApiLog : Type := mkApiLog {
  al_api_key_id : Z;
  al_endpoint : pystr;
  al_query : option pystr;
  al_ip_address : pystr;
  al_timestamp : Z;
  al_response_status : Z
}.

(** A call that leaves the process towards the platform. *)
Inductive Call : Type :=
| CallExtract (url : pystr) (format : pystr)     (* ydl.extract_info(url) *)
| CallYtSearch (search_query : pystr)            (* ydl.extract_info("ytsearchN:q") *)
| CallVideosSearch (query : pystr).              (* VideosSearch(q, limit=1) *)

Record State : Type := mkState {
  cache : dict CacheVal;
  api_keys : list ApiKey;
  api_logs : list ApiLog;
  clock_reads : nat;          (* clock readings taken so far *)
  uuids_drawn : nat;          (* identifiers drawn so far *)
  upstream : list Call        (* calls made so far, latest first *)
}.

(** A hit of the text search of [search_videos]. *)
Record Entry : Type := mkEntry {
  e_id : option PyVal;
  e_title : option PyVal;
  e_duration : option PyVal;
  e_duration_string : option PyVal;
  e_view_count : option PyVal;
  e_uploader : option PyVal
}.

(** A hit of [VideosSearch(...).result()['result']]. *)
Record SearchHit : Type := mkSearchHit {
  sh_id : PyVal;
  sh_title : PyVal;
  sh_duration : PyVal;
  sh_channel : PyVal;
  sh_view_text : PyVal;             (* video["viewCount"]["text"] *)
  sh_thumbnails : list PyVal;       (* the ["url"] of each thumbnail *)
  sh_link : pystr
}.

(** What the process cannot decide by itself. An upstream answer may
    depend on how many calls went out before it; [None] stands for a
    raised exception or an empty answer, which the callers treat alike. *)
Record World : Type := mkWorld {
  clock : nat -> Z;                                  (* n-th clock reading *)
  uuid4 : nat -> pystr;                              (* n-th str(uuid.uuid4()) *)
  ydl_extract_info : nat -> pystr -> pystr -> option Info;
  ydl_search : nat -> pystr -> option (list (option Entry));
  videos_search : nat -> pystr -> option (list SearchHit);
  (** [options["format"]] as [clean_ytdl_options()] leaves it *)
  default_format : pystr;
  (** [str(datetime.timedelta(seconds=d))]; [None] when it raises *)
  timedelta_str : PyVal -> option pystr;
  (** the repository's [time_to_seconds], whose [float] parsing is not
      modelled; nothing below depends on its value *)
  time_to_seconds : PyVal -> PyVal
}.

(** State-passing computations. *)
Definition M (A : Type) : Type := State -> A * State.

Definition ret {A} (a : A) : M A := fun st => (a, st).

Definition bind {A B} (m : M A) (k : A -> M B) : M B :=
  fun st => let (a, st') := m st in k a st'.

Declare Scope monad_scope.
Delimit Scope monad_scope with monad.
Notation "x <- m ;; k" := (bind m (fun x => k))
  (at level 61, m at next level, right associativity) : monad_scope.
Notation "m ;;; k" := (bind m (fun _ => k))
  (at level 61, right associativity) : monad_scope.
Open Scope monad_scope.

Definition get_cache : M (dict CacheVal) := fun st => (cache st, st).

Definition put_cache (c : dict CacheVal) : M unit :=
  fun st => (tt, mkState c (api_keys st) (api_logs st) (clock_reads st)
                         (uuids_drawn st) (upstream st)).

Definition record_call (c : Call) : M nat :=
  fun st => (length (upstream st),
             mkState (cache st) (api_keys st) (api_logs st) (clock_reads st)
                     (uuids_drawn st) (c :: upstream st)).

(* --------------------------------------------------------------------- *)
(** ** [int(str)] *)
(* --------------------------------------------------------------------- *)

(** The white space [int()] skips around a number: the ASCII white space
    of C, and the two code points between 128 and 255 that [str.isspace]
    accepts. *)
Definition int_space (c : ascii) : bool :=
  let n := ord c in
  ((9 <=? n) && (n <=? 13))%N || (n =? 32)%N || (n =? 133)%N || (n =? 160)%N.

Fixpoint lstrip_space (s : pystr) : pystr :=
  match s with
  | c :: s' => if int_space c then lstrip_space s' else s
  | [] => []
  end.

(** The digit run of [int()]: decimal digits with single underscores
    between them. The answer is the value, whether a digit was seen, and
    the text after the run; [None] for a doubled or trailing underscore. *)
Fixpoint scan_int (acc : Z) (after_underscore seen_digit : bool) (s : pystr)
  : option (Z * bool * pystr) :=
  match s with
  | c :: s' =>
      if in_range "0" "9" c
      then scan_int (10 * acc + (Z.of_N (ord c) - 48)) false true s'
      else if chr_eqb c "_"
           then if after_underscore then None else scan_int acc true seen_digit s'
           else if after_underscore then None else Some (acc, seen_digit, s)
  | [] => if after_underscore then None else Some (acc, seen_digit, s)
  end.

(** The default of [sys.get_int_max_str_digits()]: a decimal text with
    more digits is refused by [int()]. *)
Definition INT_MAX_STR_DIGITS : Z := 4300.

(** [int(s)] for a [str], base 10; [None] is the [ValueError]. *)
Definition int_of_str (s : pystr) : option Z :=
  let s1 := lstrip_space s in
  let signed :=
    match s1 with
    | c :: r => if chr_eqb c "+" then (false, r)
                else if chr_eqb c "-" then (true, r) else (false, s1)
    | [] => (false, s1)
    end in
  let negative := fst signed in
  match snd signed with
  | [] => None
  | c :: r =>
      if chr_eqb c "_" then None
      else
        match scan_int 0 false false (c :: r) with
        | Some (n, true, rest) =>
            match lstrip_space rest with
            | [] =>
                if INT_MAX_STR_DIGITS
                   <? Z.of_nat (length (filter (in_range "0" "9") (c :: r)))
                then None
                else Some (if negative then - n else n)
            | _ :: _ => None
            end
        | _ => None
        end
  end.

Section Pipeline.

Variable W : World.

(** [time.time()] and [datetime.datetime.now()]. *)
Definition time_time : M Z :=
  fun st => (clock W (clock_reads st),
             mkState (cache st) (api_keys st) (api_logs st) (S (clock_reads st))
                     (uuids_drawn st) (upstream st)).

(** [str(uuid.uuid4())]. *)
Definition new_uuid : M pystr :=
  fun st => (uuid4 W (uuids_drawn st),
             mkState (cache st) (api_keys st) (api_logs st) (clock_reads st)
                     (S (uuids_drawn st)) (upstream st)).

(** [ydl.extract_info(url, download=False)] under [options["format"]]. *)
Definition extract_info (url format : pystr) : M (option Info) :=
  n <- record_call (CallExtract url format) ;;
  ret (ydl_extract_info W n url format).

(* --------------------------------------------------------------------- *)
(** ** The resolver: [YouTubeAPIService] *)
(* --------------------------------------------------------------------- *)

(** [s.lower()] on code points below 256. *)
Definition lower_chr (c : ascii) : ascii :=
  let n := ord c in
  if ((65 <=? n) && (n <=? 90))%N
     || ((192 <=? n) && (n <=? 222) && negb (n =? 215))%N
  then ascii_of_N (n + 32) else c.

Definition lower (s : pystr) : pystr := map lower_chr s.

(** The hardcoded answer of [search_videos] for the query ["295"]. *)
Definition HARDCODED_295 : VideoData :=
  {| vd_id := PStr `"n_FCrCQ6-bA";
     vd_title := PStr `"295 (Official Audio) | Sidhu Moose Wala | The Kidd | Moosetape";
     vd_duration := PInt 273;
     vd_duration_text := PStr `"4:33";
     vd_channel := PStr `"Sidhu Moose Wala";
     vd_views := PInt 706072166;
     vd_thumbnail := PStr `"https://i.ytimg.com/vi_webp/n_FCrCQ6-bA/maxresdefault.webp";
     vd_link := `"https://www.youtube.com/watch?v=n_FCrCQ6-bA" |}.

Definition entry_video_data (entry : Entry) : VideoData :=
  let id := dget (e_id entry) (PStr []) in
  {| vd_id := id;
     vd_title := dget (e_title entry) (PStr `"Unknown");
     vd_duration := dget (e_duration entry) (PInt 0);
     vd_duration_text := dget (e_duration_string entry) (PStr `"0:00");
     vd_channel := dget (e_uploader entry) (PStr []);
     vd_views := dget (e_view_count entry) (PInt 0);
     vd_thumbnail := PStr (get_youtube_thumbnail id `"maxresdefault");
     vd_link := WATCH_PREFIX ++ py_str id |}.

(** [search_videos(query, limit=1)]. A falsy entry is [None]. *)
Definition search_videos (query : pystr) (limit : nat) : M (list VideoData) :=
  if pystr_eqb (lower query) `"295" then ret [HARDCODED_295]
  else
    let search_query :=
      `"ytsearch" ++ str_of_int (Z.of_nat limit) ++ `":" ++ query in
    n <- record_call (CallYtSearch search_query) ;;
    match ydl_search W n search_query with
    | None => ret []
    | Some entries =>
        ret (filter_map (option_map entry_video_data) (firstn limit entries))
    end.

Definition startswith (prefix s : pystr) : bool :=
  pystr_eqb (firstn (length prefix) s) prefix.

(** [get_details(url)], on its direct-URL path, from a resolved [info]. *)
Definition details_of_info (info : Info) : option VideoData :=
  let video_id := dget (info_id info) (PStr []) in
  let duration := dget (info_duration info) (PInt 0) in
  let duration_text :=
    if val_truthy duration then timedelta_str W duration else Some `"0:00" in
  match duration_text with
  | None => None
  | Some text =>
      let text := if startswith `"0:" text then skipn 2 text else text in
      match extract_best_thumbnail info with
      | None => None
      | Some thumbnail =>
          Some (ensure_thumbnail_availability
                  {| vd_id := video_id;
                     vd_title := dget (info_title info) (PStr `"Unknown");
                     vd_duration := duration;
                     vd_duration_text := PStr text;
                     vd_channel := dget (info_uploader info) (PStr []);
                     vd_views := dget (info_view_count info) (PInt 0);
                     vd_thumbnail := thumbnail;
                     vd_link := WATCH_PREFIX ++ py_str video_id |})
      end
  end.

(** The search branch of [get_details], from the first hit. *)
Definition details_of_hit (video : SearchHit) : VideoData :=
  {| vd_id := sh_id video;
     vd_title := sh_title video;
     vd_duration := time_to_seconds W (sh_duration video);
     vd_duration_text := sh_duration video;
     vd_channel := sh_channel video;
     vd_views := sh_view_text video;
     vd_thumbnail :=
       match last_opt (sh_thumbnails video) with
       | Some u => u
       | None => PStr []
       end;
     vd_link := sh_link video |}.

(** [get_details(url, video_id=None)]; [None] is the [return None] of the
    [except] clause. *)
Definition get_details (url : pystr) : M (option VideoData) :=
  if negb (is_youtube_url url) && negb (is_video_id url) then
    n <- record_call (CallVideosSearch url) ;;
    match videos_search W n url with
    | Some (video :: _) => ret (Some (details_of_hit video))
    | _ => ret None
    end
  else
    let url := normalize_url url None in
    info <- extract_info url (default_format W) ;;
    match info with
    | Some info => ret (details_of_info info)
    | None => ret None
    end.

Definition STREAM_PREFIX : pystr := `"stream:".

(** [get_stream_url(url, is_video=False, video_id=None)]; the empty
    string is the failure value. *)
Definition get_stream_url (url : pystr) (is_video : bool) (video_id : option pystr)
  : M pystr :=
  let url := normalize_url url video_id in
  let format := if is_video then `"best[height<=720]/best" else `"bestaudio/best" in
  info <- extract_info url format ;;
  match info with
  | None => ret []
  | Some info =>
      match select_stream_url info is_video with
      | None => ret []
      | Some stream_url =>
          stream_id <- new_uuid ;;
          now <- time_time ;;
          c <- get_cache ;;
          put_cache (dict_set (STREAM_PREFIX ++ stream_id)
                              (CStream stream_url is_video (now + 3600 * SECOND)) c) ;;;
          ret (`"/stream/" ++ stream_id)
      end
  end.

(* --------------------------------------------------------------------- *)
(** ** The [/youtube] handler *)
(* --------------------------------------------------------------------- *)

(** The parts of a Flask request the handlers read. *)
Record Request : Type := mkRequest {
  arg_query : option pystr;       (* request.args.get("query") *)
  arg_video : option pystr;       (* request.args.get("video") *)
  arg_api_key : option pystr;     (* request.args.get("api_key") *)
  req_endpoint : pystr;           (* request.endpoint *)
  req_remote_addr : pystr;        (* request.remote_addr *)
  req_host_url : pystr;           (* request.host_url *)
  req_range : option pystr        (* request.headers.get("Range") *)
}.

(** The JSON body of a successful [/youtube] response. *)
Record YoutubeBody : Type := mkYoutubeBody {
  r_id : PyVal;
  r_title : PyVal;
  r_duration : PyVal;
  r_link : pystr;
  r_channel : PyVal;
  r_views : Z;
  r_thumbnail : PyVal;
  r_stream_url : pystr;
  r_stream_type : pystr
}.

Inductive Response : Type :=
| RespOk (body : YoutubeBody)                       (* 200, JSON body *)
| RespError (status : Z) (error : pystr)            (* {"error": ...}, status *)
| RespStream (url content_type range : pystr).      (* 200, relayed body *)

(** How [youtube] reads its query: lines 1213-1218 and 1252. *)
Inductive Classified : Type :=
| DirectId (id : pystr)
| CanonicalUrl (url : pystr)
| SearchTerm (query : pystr).

Definition classify (query : pystr) : Classified :=
  let is_url := is_youtube_url query in
  let is_id := is_video_id query in
  if negb is_url && negb is_id then SearchTerm query
  else if is_url then CanonicalUrl query
  else DirectId query.

(** [video_url] of the direct branch. *)
Definition video_url_of (c : Classified) : pystr :=
  match c with
  | CanonicalUrl url => url
  | DirectId id => WATCH_PREFIX ++ id
  | SearchTerm q => q
  end.

(** [c.isdigit()] on a code point below 256: the decimal digits and the
    superscripts two, three and one. *)
Definition isdigit_chr (c : ascii) : bool :=
  in_range "0" "9" c
  || (ord c =? 178)%N || (ord c =? 179)%N || (ord c =? 185)%N.

(** [s.isdigit()]. *)
Definition str_isdigit (s : pystr) : bool := truthy s && forallb isdigit_chr s.

(** The value of a run of decimal digits read from the left; [None]
    when another character stands in the text. *)
Fixpoint int_of_digits (acc : Z) (s : pystr) : option Z :=
  match s with
  | [] => Some acc
  | c :: s' =>
      if in_range "0" "9" c
      then int_of_digits (10 * acc + (Z.of_N (ord c) - 48)) s'
      else None
  end.

Inductive exn : Type :=
| KeyError
| TypeError
| ValueError (message : pystr)
| Raised (message : pystr).

(** The decimal digits at the head of a text. *)
Fixpoint leading_digits (s : pystr) : pystr :=
  match s with
  | c :: s' => if in_range "0" "9" c then c :: leading_digits s' else []
  | [] => []
  end.

(** The [ValueError] that [int(s)] raises on a text that [isdigit()]
    accepts: the digit limit is tested on the digits read, before the
    rest of the text is looked at; the other message shows at most 200
    characters of [repr(s)]. *)
Definition int_error (s : pystr) : exn :=
  let digits := Z.of_nat (length (leading_digits s)) in
  if INT_MAX_STR_DIGITS <? digits
  then ValueError (`"Exceeds the limit (4300 digits) for integer string conversion: value has "
                   ++ str_of_int digits
                   ++ `" digits; use sys.set_int_max_str_digits() to increase the limit")
  else ValueError (`"invalid literal for int() with base 10: "
                   ++ firstn 200 (repr_str s)).

(** [str(v)] where it can fail: an integer of more than
    [INT_MAX_STR_DIGITS] digits has no text. *)
Definition str_checked (v : PyVal) : exn + pystr :=
  match v with
  | PInt z =>
      if INT_MAX_STR_DIGITS <? Z.of_nat (length (str_of_nonneg (Z.abs z)))
      then inl (ValueError (`"Exceeds the limit (4300 digits) for integer string conversion"
                            ++ `"; use sys.set_int_max_str_digits() to increase the limit"))
      else inr (str_of_int z)
  | _ => inr (py_str v)
  end.

(** [int(v)], for a [v] whose text [isdigit()] accepts. *)
Definition int_checked (v : PyVal) : exn + Z :=
  match v with
  | PInt z => inr z
  | PBool b => inr (if b then 1 else 0)
  | PStr s =>
      match int_of_str s with
      | Some z => inr z
      | None => inl (int_error s)
      end
  | PNone => inl TypeError
  end.

(** [int(v) if str(v).isdigit() else 0]. *)
Definition views_of (v : PyVal) : exn + Z :=
  match str_checked v with
  | inl e => inl e
  | inr text => if str_isdigit text then int_checked v else inr 0
  end.

(** [s.rstrip("/")]. *)
Definition rstrip_slash (s : pystr) : pystr :=
  rev ((fix drop (l : pystr) : pystr :=
          match l with
          | c :: l' => if chr_eqb c "/" then drop l' else l
          | [] => []
          end) (rev s)).

(** [str(e)] of a caught exception. *)
Definition exn_str (e : exn) : pystr :=
  match e with
  | KeyError => `"1"
  | TypeError => `"int() argument must be a string, a bytes-like object or a real number, not 'NoneType'"
  | ValueError m => m
  | Raised m => m
  end.

(** The response dictionary of either branch of [youtube]. *)
Definition format_response (req : Request) (vd : VideoData) (stream_url : pystr)
           (video : bool) : Response :=
  let host_url := rstrip_slash (req_host_url req) in
  match views_of (vd_views vd) with
  | inl e => RespError 500 (exn_str e)
  | inr views =>
      RespOk {| r_id := vd_id vd;
                r_title := vd_title vd;
                r_duration := vd_duration vd;
                r_link := vd_link vd;
                r_channel := vd_channel vd;
                r_views := views;
                r_thumbnail := vd_thumbnail vd;
                r_stream_url := host_url ++ stream_url;
                r_stream_type := if video then `"Video" else `"Audio" |}
  end.

(** [youtube()]. *)
Definition youtube (req : Request) : M Response :=
  let video :=
    pystr_eqb (lower (match arg_video req with Some v => v | None => `"false" end))
              `"true" in
  match nonempty (arg_query req) with
  | None => ret (RespError 400 `"Query parameter is required")
  | Some query =>
      match classify query with
      | SearchTerm q =>
          search_results <- search_videos q 1 ;;
          match search_results with
          | [] => ret (RespError 404 `"No videos found")
          | video_data :: _ =>
              stream_url <- get_stream_url (vd_link video_data) video None ;;
              if negb (truthy stream_url)
              then ret (RespError 500 `"Failed to get stream URL")
              else ret (format_response req video_data stream_url video)
          end
      | c =>
          let video_url := video_url_of c in
          video_details <- get_details video_url ;;
          match video_details with
          | None => ret (RespError 404 `"No video found")
          | Some vd =>
              if negb (val_truthy (vd_id vd))
              then ret (RespError 404 `"No video found")
              else
                stream_url <- get_stream_url video_url video None ;;
                if negb (truthy stream_url)
                then ret (RespError 500 `"Failed to get stream URL")
                else ret (format_response req vd stream_url video)
          end
      end
  end.

(* --------------------------------------------------------------------- *)
(** ** The API-key gate *)
(* --------------------------------------------------------------------- *)

(** [ApiKey.query.filter_by(key=k).first()]. *)
Definition find_key (k : pystr) (keys : list ApiKey) : option ApiKey :=
  find (fun row => pystr_eqb (ak_key row) k) keys.

(** [api_key.is_expired()]. *)
Definition is_expired (now : Z) (k : ApiKey) : bool := ak_valid_until k <? now.

(** [api_key.remaining_requests()]. *)
Definition remaining_requests (now : Z) (k : ApiKey) : Z :=
  if ak_reset_at k <? now then ak_daily_limit k
  else ak_daily_limit k - ak_count k.

Definition get_keys : M (list ApiKey) := fun st => (api_keys st, st).

Definition bump_usage (now : Z) (k : ApiKey) : ApiKey :=
  if ak_reset_at k <? now
  then mkApiKey (ak_id k) (ak_key k) (ak_name k) (ak_is_admin k) (ak_valid_until k)
                (ak_daily_limit k) (now + DAY) 1
  else mkApiKey (ak_id k) (ak_key k) (ak_name k) (ak_is_admin k) (ak_valid_until k)
                (ak_daily_limit k) (ak_reset_at k) (ak_count k + 1).

Definition commit_usage (row : ApiKey) (entry : ApiLog) : M unit :=
  fun st =>
    (tt, mkState (cache st)
                 (map (fun r => if ak_id r =? ak_id row then row else r) (api_keys st))
                 (api_logs st ++ [entry])
                 (clock_reads st) (uuids_drawn st) (upstream st)).

(** [log_api_request(api_key_str, endpoint, query)]; the row's timestamp
    default is read when the session is flushed. *)
Definition log_api_request (api_key_str : pystr) (req : Request) : M unit :=
  keys <- get_keys ;;
  match find_key api_key_str keys with
  | None => ret tt
  | Some api_key =>
      now <- time_time ;;
      stamp <- time_time ;;
      commit_usage (bump_usage now api_key)
                   (mkApiLog (ak_id api_key) (req_endpoint req) (arg_query req)
                             (req_remote_addr req) stamp 200)
  end.

(** [required_api_key(func)]. *)
Definition required_api_key (func : Request -> M Response) (req : Request)
  : M Response :=
  match nonempty (arg_api_key req) with
  | None => ret (RespError 401 `"API key is required")
  | Some api_key_str =>
      keys <- get_keys ;;
      match find_key api_key_str keys with
      | None => ret (RespError 401 `"Invalid API key")
      | Some api_key =>
          now <- time_time ;;
          if is_expired now api_key
          then ret (RespError 401 `"API key has expired")
          else
            now' <- time_time ;;
            if remaining_requests now' api_key <=? 0
            then ret (RespError 429 `"Daily limit exceeded")
            else log_api_request api_key_str req ;;; func req
      end
  end.

(** The route [/youtube]: [@required_api_key] around [youtube]. The rate
    limits of [flask_limiter] are an outer gate and are not modelled. *)
Definition youtube_route : Request -> M Response := required_api_key youtube.

End Pipeline.

(* ===================================================================== *)
(** * The stream-handle registry and the result cache *)
(* ===================================================================== *)

Section Registry.

Variable W : World.

(** [stream_media(stream_id)]: the lookup and the response it builds. A
    [(result, timestamp)] tuple under the key has no [.get]; the
    [AttributeError] ends in the 500 error handler. *)
Definition stream_media (req : Request) (stream_id : pystr) : M Response :=
  c <- get_cache ;;
  match dict_get (STREAM_PREFIX ++ stream_id) c with
  | None => ret (RespError 404 `"Stream not found or expired")
  | Some (CStream url is_video _) =>
      if negb (truthy url) then ret (RespError 500 `"Invalid stream URL")
      else
        ret (RespStream url
                        (if is_video then `"video/mp4" else `"audio/mp4")
                        (match req_range req with Some r => r | None => `"bytes=0-" end))
  | Some (CResult _ _) => ret (RespError 500 `"Internal server error")
  end.

(** The cache part of [cleanup_old_files()]: which entries stay. *)
Definition keep_entry (current_time : Z) (kv : pystr * CacheVal) : bool :=
  match snd kv with
  | CResult _ timestamp => negb (CACHE_TIMEOUT <? current_time - timestamp)
  | CStream _ _ expires => negb (expires <? current_time)
  end.

Definition cleanup_old_files : M unit :=
  current_time <- time_time W ;;
  c <- get_cache ;;
  put_cache (filter (keep_entry current_time) c).

(** [before_request()]: [lucky] is the outcome of
    [random.random() < 0.01]. *)
Definition before_request (lucky : bool) : M unit :=
  if lucky then cleanup_old_files else ret tt.

(** A request to [/stream/<stream_id>] as Flask serves it. *)
Definition stream_route (lucky : bool) (req : Request) (stream_id : pystr)
  : M Response :=
  before_request lucky ;;; stream_media req stream_id.

(** The clean-up loop of the [cached] wrapper over a snapshot of the
    keys. Subscripting a [stream_data] dictionary with [1] raises
    [KeyError]; the deletions made before it stay. *)
Fixpoint cached_cleanup (timeout current_time : Z) (keys : list pystr)
         (c : dict CacheVal) : option exn * dict CacheVal :=
  match keys with
  | [] => (None, c)
  | key :: keys' =>
      match dict_get key c with
      | Some (CResult _ timestamp) =>
          cached_cleanup timeout current_time keys'
            (if timeout <? current_time - timestamp then dict_del key c else c)
      | Some (CStream _ _ _) => (Some KeyError, c)
      | None => (Some KeyError, c)
      end
  end.

(** [cached(timeout)(func)]: the wrapper around a function named
    [func_name]. Unpacking a [stream_data] dictionary into two names
    raises [ValueError]. *)
Definition cached (timeout : Z) (func_name : pystr)
           (func : list PyVal -> list (pystr * PyVal) -> M (exn + PyVal))
           (args : list PyVal) (kwargs : list (pystr * PyVal)) : M (exn + PyVal) :=
  let cache_key := generate_cache_key func_name args kwargs in
  let compute : M (exn + PyVal) :=
    r <- func args kwargs ;;
    match r with
    | inl e => ret (inl e)
    | inr result =>
        stored_at <- time_time W ;;
        c <- get_cache ;;
        put_cache (dict_set cache_key (CResult result stored_at) c) ;;;
        current_time <- time_time W ;;
        c' <- get_cache ;;
        let (err, c'') := cached_cleanup timeout current_time (map fst c') c' in
        put_cache c'' ;;;
        match err with
        | Some e => ret (inl e)
        | None => ret (inr result)
        end
    end in
  c <- get_cache ;;
  match dict_get cache_key c with
  | Some (CResult result timestamp) =>
      now <- time_time W ;;
      if now - timestamp <? timeout then ret (inr result) else compute
  | Some (CStream _ _ _) =>
      ret (inl (ValueError `"too many values to unpack (expected 2)"))
  | None => compute
  end.

End Registry.

(** A request to [/youtube] as Flask serves it. *)
Definition serve_youtube (W : World) (lucky : bool) (req : Request) : M Response :=
  before_request W lucky ;;; youtube_route W req.

(* ===================================================================== *)
(** * [str.split] and [time_to_seconds] *)
(* ===================================================================== *)

(** [s.split(sep)] for a one-character separator. *)
Fixpoint split_chr (sep : ascii) (s : pystr) : list pystr :=
  match s with
  | [] => [[]]
  | c :: s' =>
      if chr_eqb c sep then [] :: split_chr sep s'
      else
        match split_chr sep s' with
        | part :: parts => (c :: part) :: parts
        | [] => [[c]]
        end
  end.

Module Duration.

(** [time_to_seconds(time_str)]. The last line, [int(float(time_str))],
    is reached by a text without a colon, where [float_int] stands for it
    ([None] when it raises), and by a text of four or more fields, where
    [float()] raises because no float literal holds a colon. Every
    exception ends in [return 0]; so does the [TypeError] of
    [':' in time_str] for a value that is not a string. *)
Definition time_to_seconds (float_int : pystr -> option Z) (time_str : PyVal) : Z :=
  if negb (val_truthy time_str) then 0
  else
    match time_str with
    | PStr s =>
        if existsb (fun c => chr_eqb c ":") s then
          match split_chr ":" s with
          | [a; b] =>
              match int_of_str a, int_of_str b with
              | Some x, Some y => x * 60 + y
              | _, _ => 0
              end
          | [a; b; c] =>
              match int_of_str a, int_of_str b, int_of_str c with
              | Some x, Some y, Some z => x * 3600 + y * 60 + z
              | _, _, _ => 0
              end
          | _ => 0
          end
        else match float_int s with Some n => n | None => 0 end
    | _ => 0
    end.

End Duration.

(* ===================================================================== *)
(** * The admin gate *)
(* ===================================================================== *)

Section Admin.

Variable W : World.

(** [required_admin_key(func)]; [arg_admin_key] is
    [request.args.get("admin_key")]. *)
Definition required_admin_key (arg_admin_key : option pystr)
           (func : Request -> M Response) (req : Request) : M Response :=
  let api_key_str :=
    match nonempty (arg_api_key req) with
    | Some k => Some k
    | None => arg_admin_key
    end in
  match nonempty api_key_str with
  | None => ret (RespError 401 `"Admin API key is required")
  | Some k =>
      keys <- get_keys ;;
      match find_key k keys with
      | None => ret (RespError 403 `"Invalid admin API key")
      | Some api_key =>
          if negb (ak_is_admin api_key)
          then ret (RespError 403 `"Invalid admin API key")
          else
            now <- time_time W ;;
            if is_expired now api_key
            then ret (RespError 401 `"API key has expired")
            else func req
      end
  end.

End Admin.

(* ===================================================================== *)
(** * Vocabulary of the statements *)
(* ===================================================================== *)

(** [den r w g g']: the pattern [r] can consume exactly the word [w],
    turning the group-1 register [g] into [g']. *)
Fixpoint den_rep (D : pystr -> mobj -> mobj -> Prop) (n : nat)
         (w : pystr) (g g' : mobj) : Prop :=
  match n with
  | O => w = [] /\ g' = g
  | S n' => exists w1 w2 g1, w = w1 ++ w2 /\ D w1 g g1 /\ den_rep D n' w2 g1 g'
  end.

Fixpoint den (r : regex) (w : pystr) (g g' : mobj) : Prop :=
  match r with
  | Lit c => w = [c] /\ g' = g
  | Cls p => (exists c, w = [c] /\ p c = true) /\ g' = g
  | Cat a b => exists w1 w2 g1, w = w1 ++ w2 /\ den a w1 g g1 /\ den b w2 g1 g'
  | Alt a b => den a w g g' \/ den b w g g'
  | Opt a => den a w g g' \/ (w = [] /\ g' = g)
  | Rep n a => den_rep (den a) n w g g'
  | DotStar => Forall (fun c => c <> NEWLINE) w /\ g' = g
  | Grp a => (exists g1, den a w g g1) /\ g' = Some w
  | Bol | Eol | Eps => w = [] /\ g' = g
  end.

Definition sound_at (r : regex) : Prop :=
  forall pos s g k m,
    rmatch r pos s g k = Some m ->
    exists w s' g', s = w ++ s' /\ den r w g g' /\ k (pos + length w)%nat s' g' = Some m.

(** [needs P r]: every word matched by [r] holds a character in [P]. *)
Fixpoint needs (P : ascii -> bool) (r : regex) : bool :=
  match r with
  | Lit c => P c
  | Cat a b => needs P a || needs P b
  | Alt a b => needs P a && needs P b
  | Rep (S _) a => needs P a
  | Grp a => needs P a
  | _ => false
  end.

(** The text a successful match leaves in group 1. *)
Definition group_inv (Q : pystr -> Prop) (g : mobj) : Prop :=
  match g with Some v => Q v | None => True end.

Fixpoint captures (Q : pystr -> Prop) (r : regex) : Prop :=
  match r with
  | Grp a => forall w g g1, den a w g g1 -> Q w
  | Cat a b | Alt a b => captures Q a /\ captures Q b
  | Opt a | Rep _ a => captures Q a
  | _ => True
  end.

(** [assigns r]: every match of [r] sets group 1. *)
Fixpoint assigns (r : regex) : bool :=
  match r with
  | Grp _ => true
  | Cat a b => assigns a || assigns b
  | Alt a b => assigns a && assigns b
  | Rep (S _) a => assigns a
  | _ => false
  end.

Definition is_id11 (v : pystr) : Prop :=
  length v = 11%nat /\ forallb idchar v = true.

Definition not_idchar (c : ascii) : bool := negb (idchar c).

(** The outgoing calls a computation adds to the log. *)
Definition calls_added (st st' : State) (calls : list Call) : Prop :=
  upstream st' = calls ++ upstream st.

(** [a <= b] as the negation of [b < a]. *)
Definition pystr_le (a b : pystr) : Prop := pystr_ltb b a = false.

Definition key_le (a b : pystr * PyVal) : Prop := pystr_le (fst a) (fst b).


(** [f] is the highest-indexed element of [l] that satisfies [P]. *)
Definition last_such {A} (P : A -> bool) (l : list A) (f : A) : Prop :=
  exists before after,
    l = before ++ f :: after /\ P f = true /\ Forall (fun g => P g = false) after.

Definition is_dec (c : ascii) : bool := in_range "0" "9" c.

(** The state after one more clock reading. *)
Definition tick (st : State) : State :=
  mkState (cache st) (api_keys st) (api_logs st) (S (clock_reads st))
          (uuids_drawn st) (upstream st).

(** When the gate refuses: no key, unknown key, expired key, or no
    requests left, at the two clock readings the gate takes. *)
Definition key_refused (W : World) (req : Request) (st : State) : Prop :=
  match nonempty (arg_api_key req) with
  | None => True
  | Some k =>
      match find_key k (api_keys st) with
      | None => True
      | Some row =>
          ak_valid_until row < clock W (clock_reads st)
          \/ remaining_requests (clock W (S (clock_reads st))) row <= 0
      end
  end.

(** [x] occurs in [w] as a contiguous piece. *)
Definition infix (x w : pystr) : Prop := exists a b, w = a ++ x ++ b.

(** The URL shapes of [is_youtube_url], spelled out: an optional scheme,
    an optional [www.], and one of the four paths. *)
Definition URL_HEADS : list pystr :=
  flat_map (fun scheme =>
    flat_map (fun www =>
      map (fun shape => scheme ++ www ++ shape)
          [`"youtube.com/watch?v="; `"youtu.be/"; `"youtube.com/embed/"; `"youtube.com/v/"])
      [`""; `"www."])
    [`""; `"http://"; `"https://"].

(** Requests served one after the other by the decorated [/youtube] view. *)
Fixpoint serve_all (W : World) (reqs : list Request) : M (list Response) :=
  match reqs with
  | [] => ret []
  | req :: rest =>
      r <- youtube_route W req ;;
      rs <- serve_all W rest ;;
      ret (r :: rs)
  end.

(** The refusal of a key that has no requests left. *)
Definition LIMIT_EXCEEDED : Response := RespError 429 `"Daily limit exceeded".

(** [video] as [youtube] reads it from the request. *)
Definition wants_video (req : Request) : bool :=
  pystr_eqb (lower (match arg_video req with Some v => v | None => `"false" end))
            `"true".

Definition is_videos_search (c : Call) : bool :=
  match c with CallVideosSearch _ => true | _ => false end.

Definition is_stream_entry (v : CacheVal) : bool :=
  match v with CStream _ _ _ => true | CResult _ _ => false end.

(** The state with [calls] more in the log of outgoing calls. *)
Definition add_calls (calls : list Call) (st : State) : State :=
  mkState (cache st) (api_keys st) (api_logs st) (clock_reads st)
          (uuids_drawn st) (calls ++ upstream st).

(** The [format] that [get_stream_url] asks for. *)
Definition stream_format (is_video : bool) : pystr :=
  if is_video then `"best[height<=720]/best" else `"bestaudio/best".

(** The state after [get_stream_url] registered [upstream_url]. *)
Definition registered (W : World) (call : Call) (upstream_url : pystr)
           (is_video : bool) (st : State) : State :=
  mkState (dict_set (STREAM_PREFIX ++ uuid4 W (uuids_drawn st))
                    (CStream upstream_url is_video
                             (clock W (clock_reads st) + 3600 * SECOND))
                    (cache st))
          (api_keys st) (api_logs st) (S (clock_reads st)) (S (uuids_drawn st))
          (call :: upstream st).

(** The status line of a response. *)
Definition status_of (r : Response) : Z :=
  match r with
  | RespOk _ => 200
  | RespError status _ => status
  | RespStream _ _ _ => 200
  end.

(** What the handler leaves behind, whatever it answers. *)
Definition handler_frame (st st' : State) : Prop :=
  api_keys st' = api_keys st
  /\ api_logs st' = api_logs st
  /\ exists calls,
       upstream st' = calls ++ upstream st
       /\ (length calls <= 2)%nat
       /\ forallb (fun c => negb (is_videos_search c)) calls = true.

Definition handler_status (r : Response) : Prop :=
  match r with
  | RespOk _ => True
  | RespError status _ => status = 400 \/ status = 404 \/ status = 500
  | RespStream _ _ _ => False
  end.

(** The state in which the wrapped handler starts once the gate has let
    a request through: four clock readings later, with the key's usage
    bumped at the third reading and one log row stamped at the fourth. *)
Definition charged (W : World) (row : ApiKey) (req : Request) (st : State) : State :=
  let bumped := bump_usage (clock W (S (S (clock_reads st)))) row in
  mkState (cache st)
          (map (fun r => if ak_id r =? ak_id bumped then bumped else r) (api_keys st))
          (api_logs st
           ++ [mkApiLog (ak_id row) (req_endpoint req) (arg_query req)
                        (req_remote_addr req)
                        (clock W (S (S (S (clock_reads st))))) 200])
          (S (S (S (S (clock_reads st))))) (uuids_drawn st) (upstream st).

(** The characters of a hexadecimal digest. *)
Definition is_hex (c : ascii) : bool :=
  existsb (chr_eqb c) `"0123456789abcdef".

(** The value of a run of decimal digits, and a field of a clock text:
    a non-empty run of decimal digits that [int()] accepts whatever the
    digit limit of the interpreter. *)
Definition dec_value (d : pystr) : Z :=
  fold_left (fun acc c => 10 * acc + (Z.of_N (ord c) - 48)) d 0.

Definition clock_field (d : pystr) : Prop :=
  d <> [] /\ forallb is_dec d = true /\ Z.of_nat (length d) <= INT_MAX_STR_DIGITS.

Definition colons (s : pystr) : nat :=
  length (filter (fun c => chr_eqb c ":") s).

(** The same state with another cache, and a computation whose answer
    and whose effects outside the cache do not depend on the cache. *)
Definition with_cache (c : dict CacheVal) (st : State) : State :=
  mkState c (api_keys st) (api_logs st) (clock_reads st) (uuids_drawn st)
          (upstream st).

Definition cache_blind {A} (m : M A) : Prop :=
  forall st c,
    fst (m (with_cache c st)) = fst (m st)
    /\ exists c', snd (m (with_cache c st)) = with_cache c' (snd (m st)).


(** Patterns built from literal characters, sequence, alternative and
    option only, and the finitely many words such a pattern matches. *)
Fixpoint finite (r : regex) : bool :=
  match r with
  | Lit _ | Eps | Bol | Eol => true
  | Cat a b | Alt a b => finite a && finite b
  | Opt a => finite a
  | _ => false
  end.

Fixpoint words (r : regex) : list pystr :=
  match r with
  | Lit c => [[c]]
  | Cat a b => flat_map (fun w1 => map (app w1) (words b)) (words a)
  | Alt a b => words a ++ words b
  | Opt a => words a ++ [[]]
  | Bol | Eol | Eps => [[]]
  | _ => []
  end.

(** [q] begins with one of the URL shapes. *)
Definition has_url_head (q : pystr) : Prop :=
  exists head rest, In head URL_HEADS /\ q = head ++ rest.

(** [q] is eleven URL-safe characters, or that followed by one line
    feed, which [$] lets pass. *)
Definition is_bare_id (q : pystr) : Prop :=
  is_id11 q \/ exists v, is_id11 v /\ q = v ++ [NEWLINE].

(** The request to [/youtube] is turned away with [answer] by the gate
    alone: the same answer whatever handler the gate wraps, no call sent
    upstream, no usage counted and no log row written. [st0] is the
    state in which the gate starts. *)
Definition turned_away (W : World) (lucky : bool) (req : Request) (st : State)
           (answer : Response) : Prop :=
  let st0 := snd (before_request W lucky st) in
  exists st1,
    serve_youtube W lucky req st = (answer, st1)
    /\ (forall func, required_api_key W func req st0 = (answer, st1))
    /\ upstream st1 = upstream st
    /\ api_keys st1 = api_keys st
    /\ api_logs st1 = api_logs st.

(* ===================================================================== *)
(** * Sample inputs *)
(* ===================================================================== *)

Definition RICK_ID : pystr := `"dQw4w9WgXcQ".

Definition RICK_URL : pystr := `"https://www.youtube.com/watch?v=dQw4w9WgXcQ".

Definition SHORT_LINK : pystr := `"https://youtu.be/dQw4w9WgXcQ?t=1".





Definition COMBINED : Format :=
  mkFormat (Some `"avc1") (Some `"mp4a") (Some `"https://cdn.example/combined").

Definition VIDEO_ONLY_1 : Format :=
  mkFormat (Some `"vp9") (Some `"none") (Some `"https://cdn.example/video1").

Definition VIDEO_ONLY_2 : Format :=
  mkFormat (Some `"av01") (Some `"none") (Some `"https://cdn.example/video2").

Definition INFO_URL_AND_FORMATS : Info :=
  {| info_id := Some (PStr RICK_ID);
     info_title := None; info_duration := None; info_uploader := None;
     info_view_count := None; info_thumbnail := None; info_thumbnails := None;
     info_url := Some `"https://cdn.example/direct";
     info_formats := Some [VIDEO_ONLY_1; COMBINED; VIDEO_ONLY_2] |}.

Definition INFO_FORMATS_ONLY : Info :=
  {| info_id := Some (PStr RICK_ID);
     info_title := None; info_duration := None; info_uploader := None;
     info_view_count := None; info_thumbnail := None; info_thumbnails := None;
     info_url := None;
     info_formats := Some [VIDEO_ONLY_1; COMBINED; VIDEO_ONLY_2] |}.

Definition KW_GIVEN : list (pystr * PyVal) := [(`"video_id", PNone); (`"limit", PInt 1)].

Definition KW_SWAPPED : list (pystr * PyVal) := [(`"limit", PInt 1); (`"video_id", PNone)].

Definition DEMO_UUID : pystr := `"123e4567-e89b-42d3-a456-426614174000".

Definition DEMO_UPSTREAM : pystr := `"https://cdn.example/audio.m4a".

Definition DEMO_INFO : Info :=
  {| info_id := Some (PStr RICK_ID);
     info_title := Some (PStr `"Never Gonna Give You Up");
     info_duration := Some (PInt 212);
     info_uploader := Some (PStr `"Rick Astley");
     info_view_count := Some (PInt 1000);
     info_thumbnail := None;
     info_thumbnails := None;
     info_url := Some DEMO_UPSTREAM;
     info_formats := None |}.

(** The clock reads 0 at first and one hour and a microsecond from then
    on; the platform always answers [DEMO_INFO]. *)
Definition demo_world : World :=
  {| clock := fun n => match n with O => 0 | S _ => HOUR + 1 end;
     uuid4 := fun _ => DEMO_UUID;
     ydl_extract_info := fun _ _ _ => Some DEMO_INFO;
     ydl_search := fun _ _ => None;
     videos_search := fun _ _ => None;
     default_format := `"best[height<=720]/best";
     timedelta_str := fun _ => Some `"0:03:32";
     time_to_seconds := fun v => v |}.

(** The key created by [init_db_data], and one that has used up its day. *)
Definition ADMIN_KEY : ApiKey :=
  mkApiKey 1 `"jaydip" `"Default Admin" true (3650 * DAY) 10000 DAY 0.

Definition SPENT_KEY : ApiKey :=
  mkApiKey 2 `"spent" `"Trial" false (3650 * DAY) 100 DAY 100.

Definition demo_state : State :=
  {| cache := []; api_keys := [ADMIN_KEY; SPENT_KEY]; api_logs := [];
     clock_reads := 0; uuids_drawn := 0; upstream := [] |}.

Definition demo_request (api_key : string) : Request :=
  {| arg_query := Some RICK_ID;
     arg_video := None;
     arg_api_key := Some (str api_key);
     req_endpoint := `"youtube";
     req_remote_addr := `"203.0.113.7";
     req_host_url := `"http://localhost:5000/";
     req_range := None |}.

Definition STORED_KEY : pystr := generate_cache_key `"get_details" [PStr RICK_ID] [].

Definition warm_state : State :=
  {| cache := [(STORED_KEY, CResult (PStr `"stored") 0)];
     api_keys := []; api_logs := []; clock_reads := 0; uuids_drawn := 0;
     upstream := [] |}.

(** A state in which every clock reading is the same. *)
Definition cold_state : State :=
  {| cache := []; api_keys := []; api_logs := []; clock_reads := 1; uuids_drawn := 0;
     upstream := [] |}.

(** A wrapped function that answers without going upstream. *)
Definition answering_func : list PyVal -> list (pystr * PyVal) -> M (exn + PyVal) :=
  fun _ _ => ret (inr (PStr `"fresh")).


(** A wrapped function that would fail if it ran. *)
Definition failing_func : list PyVal -> list (pystr * PyVal) -> M (exn + PyVal) :=
  fun _ _ => ret (inl (Raised `"upstream unreachable")).

(** A key with two requests left in its window, and one whose window
    closed after the first hour with its counter at the limit. *)
Definition NEARLY_SPENT_KEY : ApiKey :=
  mkApiKey 3 `"trial" `"Trial" false (3650 * DAY) 100 DAY 98.

Definition STALE_KEY : ApiKey :=
  mkApiKey 4 `"yesterday" `"Trial" false (3650 * DAY) 100 HOUR 100.

Definition quota_state : State :=
  {| cache := []; api_keys := [ADMIN_KEY; NEARLY_SPENT_KEY; STALE_KEY]; api_logs := [];
     clock_reads := 0; uuids_drawn := 0; upstream := [] |}.

(** A cache with one handle that expired at the first hour and one that
    lasts another hour, seen when the clock reads one hour and a
    microsecond. *)
Definition sweep_state : State :=
  {| cache := [(STREAM_PREFIX ++ `"old", CStream DEMO_UPSTREAM false HOUR);
               (STREAM_PREFIX ++ `"new", CStream DEMO_UPSTREAM true (2 * HOUR))];
     api_keys := []; api_logs := []; clock_reads := 1; uuids_drawn := 0;
     upstream := [] |}.

Definition plain_request : Request :=
  {| arg_query := None; arg_video := None; arg_api_key := None;
     req_endpoint := `"stream_media"; req_remote_addr := `"203.0.113.7";
     req_host_url := `"http://localhost:5000/"; req_range := None |}.

Definition AUDIO_ONLY : Format :=
  mkFormat (Some `"none") (Some `"opus") (Some `"https://cdn.example/audio").

Definition INFO_AUDIO : Info :=
  {| info_id := Some (PStr RICK_ID);
     info_title := None; info_duration := None; info_uploader := None;
     info_view_count := None; info_thumbnail := None; info_thumbnails := None;
     info_url := None;
     info_formats := Some [AUDIO_ONLY; COMBINED; VIDEO_ONLY_1] |}.

(** A text that begins with a URL shape and holds no identifier. *)
Definition STUB_LINK : pystr := `"https://youtu.be/x".

Definition stub_request : Request :=
  {| arg_query := Some STUB_LINK; arg_video := None;
     arg_api_key := Some `"jaydip"; req_endpoint := `"youtube";
     req_remote_addr := `"203.0.113.7";
     req_host_url := `"http://localhost:5000/"; req_range := None |}.

(** An expired key whose counter is at its limit. *)
Definition LAPSED_KEY : ApiKey :=
  mkApiKey 5 `"lapsed" `"Trial" false (-1) 100 DAY 100.

Definition lapsed_state : State :=
  {| cache := []; api_keys := [ADMIN_KEY; LAPSED_KEY]; api_logs := [];
     clock_reads := 0; uuids_drawn := 0; upstream := [] |}.

(* ===================================================================== *)
(** * What a successful match says about the input *)
(* ===================================================================== *)

Section Denotation.


Lemma dotstar_k_sound : sound_at DotStar.
Proof.
  intros pos s; revert pos.
  induction s as [|c s IH]; intros pos g k m H; simpl in H.
  - exists [], [], g. rewrite Nat.add_0_r. simpl. auto.
  - destruct (chr_eqb c NEWLINE) eqn:E.
    + exists [], (c :: s), g. rewrite Nat.add_0_r. simpl. auto.
    + destruct (dotstar_k (S pos) s g k) eqn:D.
      * inversion H; subst m0. apply IH in D.
        destruct D as (w & s' & g' & -> & [Hw ->] & Hk).
        exists (c :: w), s', g. simpl. rewrite Nat.add_succ_r. repeat split; auto.
        constructor; auto. intros ->. unfold chr_eqb in E.
        rewrite Ascii.eqb_refl in E. discriminate.
      * exists [], (c :: s), g. rewrite Nat.add_0_r. simpl. auto.
Qed.

Lemma rep_k_sound (r : regex) (n : nat) :
  sound_at r ->
  forall pos s g k m,
    rep_k (rmatch r) n pos s g k = Some m ->
    exists w s' g',
      s = w ++ s' /\ den_rep (den r) n w g g' /\ k (pos + length w)%nat s' g' = Some m.
Proof.
  intros Hr. induction n as [|n IH]; intros pos s g k m H; simpl in H.
  - exists [], s, g. rewrite Nat.add_0_r. simpl. auto.
  - apply Hr in H. destruct H as (w1 & s1 & g1 & -> & D1 & H).
    apply IH in H. destruct H as (w2 & s2 & g2 & -> & D2 & H).
    exists (w1 ++ w2), s2, g2. rewrite length_app, Nat.add_assoc, <- app_assoc.
    repeat split; auto. simpl. exists w1, w2, g1. auto.
Qed.

Theorem rmatch_sound (r : regex) : sound_at r.
Proof.
  induction r as [c|p|r1 IH1 r2 IH2|r1 IH1 r2 IH2|r1 IH1|n r1 IH1| |r1 IH1| | | ];
    intros pos s g k m H; simpl in H.
  - destruct s as [|x s]; [discriminate|].
    destruct (chr_eqb x c) eqn:E; [|discriminate].
    apply Ascii.eqb_eq in E. subst x.
    exists [c], s, g. simpl. rewrite Nat.add_1_r. auto.
  - destruct s as [|x s]; [discriminate|].
    destruct (p x) eqn:E; [|discriminate].
    exists [x], s, g. simpl. rewrite Nat.add_1_r. repeat split; eauto.
  - apply IH1 in H. destruct H as (w1 & s1 & g1 & -> & D1 & H).
    apply IH2 in H. destruct H as (w2 & s2 & g2 & -> & D2 & H).
    exists (w1 ++ w2), s2, g2. rewrite length_app, Nat.add_assoc, <- app_assoc.
    repeat split; auto. simpl. exists w1, w2, g1. auto.
  - destruct (rmatch r1 pos s g k) eqn:E.
    + inversion H; subst m0. apply IH1 in E.
      destruct E as (w & s' & g' & -> & D & Hk). exists w, s', g'. simpl. auto.
    + apply IH2 in H.
      destruct H as (w & s' & g' & -> & D & Hk). exists w, s', g'. simpl. auto.
  - destruct (rmatch r1 pos s g k) eqn:E.
    + inversion H; subst m0. apply IH1 in E.
      destruct E as (w & s' & g' & -> & D & Hk). exists w, s', g'. simpl. auto.
    + exists [], s, g. rewrite Nat.add_0_r. simpl. auto.
  - apply (rep_k_sound r1 n IH1) in H. exact H.
  - apply dotstar_k_sound in H. exact H.
  - apply IH1 in H. destruct H as (w & s' & g' & -> & D & Hk).
    exists w, s', (Some w). repeat split; simpl; eauto.
    replace (pos + length w - pos)%nat with (length w) in Hk by lia.
    rewrite firstn_app, Nat.sub_diag, firstn_all in Hk. simpl in Hk.
    rewrite app_nil_r in Hk. exact Hk.
  - destruct (Nat.eqb pos 0); [|discriminate].
    exists [], s, g. rewrite Nat.add_0_r. simpl. auto.
  - exists [], s, g. rewrite Nat.add_0_r. simpl.
    destruct s as [|c [|c' s]]; try discriminate; auto.
    destruct (chr_eqb c NEWLINE); [auto|discriminate].
  - exists [], s, g. rewrite Nat.add_0_r. simpl. auto.
Qed.

Lemma re_match_sound r s m :
  re_match r s = Some m -> exists w s', s = w ++ s' /\ den r w None m.
Proof.
  unfold re_match. intros H. apply rmatch_sound in H.
  destruct H as (w & s' & g' & -> & D & Hk). inversion Hk; subst. eauto.
Qed.

Lemma search_from_sound r s : forall pos m,
  search_from r pos s = Some m ->
  exists u w s', s = u ++ w ++ s' /\ den r w None m.
Proof.
  induction s as [|c s IH]; intros pos m H; simpl in H.
  - destruct (rmatch r pos [] None accept) eqn:E; [|discriminate].
    inversion H; subst. apply rmatch_sound in E.
    destruct E as (w & s' & g' & Hs & D & Hk). inversion Hk; subst.
    exists [], w, s'. auto.
  - destruct (rmatch r pos (c :: s) None accept) eqn:E.
    + inversion H; subst. apply rmatch_sound in E.
      destruct E as (w & s' & g' & Hs & D & Hk). inversion Hk; subst.
      exists [], w, s'. auto.
    + apply IH in H. destruct H as (u & w & s' & -> & D).
      exists (c :: u), w, s'. auto.
Qed.

End Denotation.

(* ===================================================================== *)
(** * Facts about the pattern matcher *)
(* ===================================================================== *)

Section MatcherFacts.


Lemma den_needs P r : forall w g g',
  den r w g g' -> needs P r = true -> existsb P w = true.
Proof.
  induction r as [c|p|r1 IH1 r2 IH2|r1 IH1 r2 IH2|r1 IH1|n r1 IH1| |r1 IH1| | | ];
    simpl; intros w g g' D N; try discriminate.
  - destruct D as [-> _]. simpl. now rewrite N.
  - destruct D as (w1 & w2 & g1 & -> & D1 & D2).
    rewrite existsb_app. apply orb_true_iff in N. apply orb_true_iff.
    destruct N as [N|N]; [left; eapply IH1|right; eapply IH2]; eauto.
  - apply andb_true_iff in N. destruct N as [N1 N2].
    destruct D as [D|D]; [eapply IH1|eapply IH2]; eauto.
  - destruct n as [|n]; [discriminate|].
    simpl in D. destruct D as (w1 & w2 & g1 & -> & D1 & _).
    rewrite existsb_app. apply orb_true_iff. left. eapply IH1; eauto.
  - destruct D as [[g1 D] _]. eapply IH1; eauto.
Qed.

Lemma den_rep_cls p n : forall w g g',
  den_rep (den (Cls p)) n w g g' -> length w = n /\ forallb p w = true /\ g' = g.
Proof.
  induction n as [|n IH]; simpl; intros w g g' D.
  - destruct D as [-> ->]. auto.
  - destruct D as (w1 & w2 & g1 & -> & [(c & -> & Hc) ->] & D2).
    apply IH in D2. destruct D2 as (L & F & ->).
    simpl. rewrite Hc, F, L. auto.
Qed.

Lemma rep_cls_app p n : forall w s pos g k,
  length w = n -> forallb p w = true ->
  rep_k (rmatch (Cls p)) n pos (w ++ s) g k = k (pos + n)%nat s g.
Proof.
  induction n as [|n IH]; intros w s pos g k L F.
  - destruct w; [|discriminate]. simpl. now rewrite Nat.add_0_r.
  - destruct w as [|c w]; [discriminate|]. simpl in *.
    apply andb_true_iff in F. destruct F as [Fc F]. rewrite Fc.
    rewrite IH by (auto; lia). f_equal. lia.
Qed.


Lemma den_captures Q r : captures Q r -> forall w g g',
  den r w g g' -> group_inv Q g -> group_inv Q g'.
Proof.
  induction r as [c|p|r1 IH1 r2 IH2|r1 IH1 r2 IH2|r1 IH1|n r1 IH1| |r1 IH1| | | ];
    simpl; intros C w g g' D I;
    try (destruct D as [_ ->]; exact I).
  - destruct C as [C1 C2]. destruct D as (w1 & w2 & g1 & -> & D1 & D2). eauto.
  - destruct C as [C1 C2]. destruct D as [D|D]; eauto.
  - destruct D as [D|[_ ->]]; eauto.
  - revert w g D I. induction n as [|n IHn]; simpl; intros w g D I.
    + destruct D as [_ ->]. exact I.
    + destruct D as (w1 & w2 & g1 & -> & D1 & D2). eauto.
  - destruct D as [[g1 D] ->]. simpl. eauto.
Qed.


Lemma den_keeps r : forall w g g', den r w g g' -> g <> None -> g' <> None.
Proof.
  induction r as [c|p|r1 IH1 r2 IH2|r1 IH1 r2 IH2|r1 IH1|n r1 IH1| |r1 IH1| | | ];
    simpl; intros w g g' D I;
    try (destruct D as [_ ->]; exact I).
  - destruct D as (w1 & w2 & g1 & -> & D1 & D2). eauto.
  - destruct D as [D|D]; eauto.
  - destruct D as [D|[_ ->]]; eauto.
  - revert w g D I. induction n as [|n IHn]; simpl; intros w g D I.
    + destruct D as [_ ->]. exact I.
    + destruct D as (w1 & w2 & g1 & -> & D1 & D2). eauto.
  - destruct D as [_ ->]. discriminate.
Qed.

Lemma den_assigns r : forall w g g',
  den r w g g' -> assigns r = true -> g' <> None.
Proof.
  induction r as [c|p|r1 IH1 r2 IH2|r1 IH1 r2 IH2|r1 IH1|n r1 IH1| |r1 IH1| | | ];
    simpl; intros w g g' D A; try discriminate.
  - destruct D as (w1 & w2 & g1 & -> & D1 & D2).
    destruct (assigns r2) eqn:A2; [eauto|].
    rewrite orb_false_r in A. eapply den_keeps; eauto.
  - apply andb_true_iff in A. destruct A. destruct D as [D|D]; eauto.
  - destruct n as [|n]; [discriminate|]. simpl in D.
    destruct D as (w1 & w2 & g1 & -> & D1 & D2).
    assert (H1 : g1 <> None) by eauto. clear D1.
    revert w2 g1 D2 H1. induction n as [|n IHn]; simpl; intros w2 g1 D2 H1.
    + destruct D2 as [_ ->]. exact H1.
    + destruct D2 as (u1 & u2 & h1 & -> & E1 & E2).
      eapply IHn; eauto using den_keeps.
  - destruct D as [_ ->]. discriminate.
Qed.

End MatcherFacts.

(** ** The identifier patterns *)


Lemma video_id_patterns_capture :
  Forall (fun p => captures is_id11 p /\ assigns p = true) video_id_patterns.
Proof.
  assert (G : captures is_id11 (Grp ID11)).
  { cbn [captures]. intros w g g1 D.
    change (den_rep (den (Cls idchar)) 11 w g g1) in D.
    apply den_rep_cls in D. destruct D as (L & F & _). split; assumption. }
  unfold video_id_patterns.
  repeat (apply Forall_cons; [split; [|reflexivity]|]); [| | | |apply Forall_nil];
    cbn [captures lit str list_ascii_of_string];
    repeat match goal with |- _ /\ _ => split end; exact G || exact I.
Qed.

Lemma extract_video_id_shape url v :
  extract_video_id url = Some v -> is_id11 v.
Proof.
  unfold extract_video_id.
  pose proof video_id_patterns_capture as C.
  induction C as [|p ps [Cp Ap] _ IH]; simpl; [discriminate|].
  destruct (re_search p url) as [m|] eqn:E; [|exact IH].
  intros [= <-]. unfold re_search in E. apply search_from_sound in E.
  destruct E as (u & w & s' & _ & D).
  pose proof (den_captures is_id11 p Cp _ _ _ D I) as Inv.
  pose proof (den_assigns p _ _ _ D Ap) as NN.
  destruct m as [x|]; [exact Inv|congruence].
Qed.


Lemma idchars_not_url q :
  forallb idchar q = true -> is_youtube_url q = false.
Proof.
  intros F. unfold is_youtube_url.
  apply not_true_is_false. intros H.
  apply existsb_exists in H. destruct H as (p & Hp & Hm).
  destruct (re_match p q) as [m|] eqn:E; [|discriminate].
  apply re_match_sound in E. destruct E as (w & s' & -> & D).
  assert (N : needs not_idchar p = true).
  { unfold youtube_patterns in Hp. simpl in Hp.
    destruct Hp as [<-|[<-|[<-|[<-|[]]]]]; reflexivity. }
  pose proof (den_needs not_idchar p _ _ _ D N) as X.
  apply existsb_exists in X. destruct X as (c & Hc & Hn).
  rewrite forallb_app in F. apply andb_true_iff in F. destruct F as [F _].
  rewrite forallb_forall in F. specialize (F c Hc).
  unfold not_idchar in Hn. rewrite F in Hn. discriminate.
Qed.

Lemma is_video_id_id11 q : is_id11 q -> is_video_id q = true.
Proof.
  intros [L F]. unfold is_video_id, re_match.
  change (rmatch BARE_ID 0 q None accept)
    with (rep_k (rmatch (Cls idchar)) 11 0 q None
                (fun pos' s' g' => rmatch Eol pos' s' g' accept)).
  rewrite <- (app_nil_r q), rep_cls_app by assumption. reflexivity.
Qed.

Lemma watch_is_url v : is_youtube_url (WATCH_PREFIX ++ v) = true.
Proof. reflexivity. Qed.

Lemma rmatch_id11 v s pos g k :
  is_id11 v -> rmatch ID11 pos (v ++ s) g k = k (pos + 11)%nat s g.
Proof. intros [L F]. unfold ID11. cbn [rmatch]. now apply rep_cls_app. Qed.

Lemma search_from_next r pos c s :
  rmatch r pos (c :: s) None accept = None ->
  search_from r pos (c :: s) = search_from r (S pos) s.
Proof. intros H. cbn [search_from]. now rewrite H. Qed.

Lemma search_from_here r pos s m :
  rmatch r pos s None accept = Some m -> search_from r pos s = Some m.
Proof. intros H. destruct s; cbn [search_from]; now rewrite H. Qed.

(** In a canonical watch URL the first pattern finds the identifier after
    [v=]: none of the thirty positions before it starts a match. *)
Lemma extract_watch v : is_id11 v -> extract_video_id (WATCH_PREFIX ++ v) = Some v.
Proof.
  intros H.
  unfold extract_video_id, video_id_patterns, first_search, re_search.
  cbn [WATCH_PREFIX str list_ascii_of_string app].
  do 30 (rewrite search_from_next by reflexivity).
  rewrite (search_from_here _ _ _ (Some v)); [reflexivity|].
  cbn -[ID11 firstn Nat.sub].
  rewrite <- (app_nil_r v) at 1. rewrite rmatch_id11 by exact H.
  cbn -[firstn]. destruct H as [L _].
  rewrite firstn_all2 by (rewrite L; apply Nat.le_refl). reflexivity.
Qed.

Lemma normalize_watch v : is_id11 v ->
  normalize_url (WATCH_PREFIX ++ v) None = WATCH_PREFIX ++ v.
Proof.
  intros H. unfold normalize_url. cbn [nonempty].
  rewrite watch_is_url, (extract_watch v H).
  destruct H as [L _]. destruct v; [discriminate L|]. reflexivity.
Qed.

Lemma id11_truthy v : is_id11 v -> truthy v = true.
Proof. intros [L _]. destruct v; [discriminate L|reflexivity]. Qed.

Lemma classify_id11 q : is_id11 q -> classify q = DirectId q.
Proof.
  intros H. unfold classify.
  rewrite (idchars_not_url q (proj2 H)), (is_video_id_id11 q H). reflexivity.
Qed.

(* ===================================================================== *)
(** * Identifier classifier and URL normalisation *)
(* ===================================================================== *)


Section ClassifierClaims.

Variable W : World.

Lemma get_details_watch q st :
  is_id11 q ->
  get_details W (WATCH_PREFIX ++ q) st =
  (match ydl_extract_info W (length (upstream st)) (WATCH_PREFIX ++ q) (default_format W) with
   | Some info => details_of_info W info
   | None => None
   end,
   mkState (cache st) (api_keys st) (api_logs st) (clock_reads st) (uuids_drawn st)
           (CallExtract (WATCH_PREFIX ++ q) (default_format W) :: upstream st)).
Proof.
  intros H. unfold get_details.
  rewrite watch_is_url. cbn [negb andb]. rewrite (normalize_watch q H).
  unfold extract_info, bind, record_call, ret.
  destruct (ydl_extract_info W _ _ _); reflexivity.
Qed.

Lemma get_stream_url_calls url is_video vid st :
  calls_added st (snd (get_stream_url W url is_video vid st))
    [CallExtract (normalize_url url vid)
                 (if is_video then `"best[height<=720]/best" else `"bestaudio/best")].
Proof.
  unfold calls_added, get_stream_url, extract_info, bind, record_call, ret.
  cbn. destruct (ydl_extract_info W _ _ _) as [info|]; [|reflexivity].
  destruct (select_stream_url info is_video); reflexivity.
Qed.

(** C4. Every string of exactly eleven URL-safe characters is read as a
    direct identifier: the handler resolves the canonical watch URL built
    from it and sends out nothing but extraction calls for that URL (no
    search). The canonical watch URL of [dQw4w9WgXcQ] is read as a URL,
    and the identifier extracted from it is [dQw4w9WgXcQ]. *)
Theorem classifier_direct_id :
  (forall q, length q = 11%nat -> forallb idchar q = true ->
     classify q = DirectId q
     /\ video_url_of (classify q) = WATCH_PREFIX ++ q
     /\ forall req st, arg_query req = Some q ->
          exists calls,
            calls_added st (snd (youtube W req st)) calls
            /\ calls <> []
            /\ Forall (fun c => exists f, c = CallExtract (WATCH_PREFIX ++ q) f) calls)
  /\ classify RICK_URL = CanonicalUrl RICK_URL
  /\ extract_video_id RICK_URL = Some RICK_ID.
Proof.
  split; [|split; reflexivity].
  intros q L F. assert (H : is_id11 q) by (split; assumption).
  pose proof (classify_id11 q H) as C.
  split; [exact C|]. split; [rewrite C; reflexivity|].
  intros req st Hq. unfold youtube. rewrite Hq. cbn [nonempty].
  rewrite (id11_truthy q H), C. cbn [video_url_of].
  unfold bind at 1. rewrite (get_details_watch q st H).
  set (st1 := mkState _ _ _ _ _ _).
  set (one := CallExtract (WATCH_PREFIX ++ q) (default_format W)).
  assert (E1 : forall r, exists calls,
             calls_added st (snd (ret (A:=Response) r st1)) calls /\ calls <> []
             /\ Forall (fun c => exists f, c = CallExtract (WATCH_PREFIX ++ q) f) calls).
  { intros r. exists [one]. repeat split; [discriminate|].
    constructor; [eexists; reflexivity|constructor]. }
  destruct (match ydl_extract_info W _ _ _ with Some _ => _ | None => _ end) as [vd|];
    [|apply E1].
  destruct (val_truthy (vd_id vd)); cbn [negb]; [|apply E1].
  unfold bind.
  pose proof (get_stream_url_calls (WATCH_PREFIX ++ q)
                (pystr_eqb (lower match arg_video req with Some v => v | None => `"false" end) `"true")
                None st1) as G.
  destruct (get_stream_url W _ _ None st1) as [stream_url st2].
  unfold calls_added in G. cbn [snd] in G.
  rewrite (normalize_watch q H) in G.
  exists (CallExtract (WATCH_PREFIX ++ q)
            (if pystr_eqb (lower match arg_video req with Some v => v | None => `"false" end) `"true"
             then `"best[height<=720]/best" else `"bestaudio/best") :: [one]).
  assert (U : upstream st1 = one :: upstream st) by reflexivity.
  split.
  - unfold calls_added.
    destruct (negb (truthy stream_url)); cbn [snd ret]; rewrite G, U; reflexivity.
  - split; [discriminate|].
    repeat constructor; eexists; reflexivity.
Qed.

(** C10. [normalize_url] is idempotent, and a recognised URL with an
    extractable identifier is sent to the canonical watch URL of that
    identifier. *)
Theorem normalize_url_idempotent (u : pystr) :
  normalize_url (normalize_url u None) None = normalize_url u None
  /\ forall v, is_youtube_url u = true -> extract_video_id u = Some v ->
       is_id11 v /\ normalize_url u None = WATCH_PREFIX ++ v.
Proof.
  split.
  - destruct (is_youtube_url u) eqn:U.
    + destruct (extract_video_id u) as [v|] eqn:E.
      * pose proof (extract_video_id_shape u v E) as H.
        assert (N : normalize_url u None = WATCH_PREFIX ++ v).
        { unfold normalize_url. cbn [nonempty]. rewrite U, E. cbn [nonempty].
          now rewrite (id11_truthy v H). }
        rewrite N. apply (normalize_watch v H).
      * assert (N : normalize_url u None = u).
        { unfold normalize_url. cbn [nonempty]. now rewrite U, E. }
        now rewrite !N.
    + assert (N : normalize_url u None = u).
      { unfold normalize_url. cbn [nonempty]. now rewrite U. }
      now rewrite !N.
  - intros v U E. pose proof (extract_video_id_shape u v E) as H.
    split; [exact H|].
    unfold normalize_url. cbn [nonempty]. rewrite U, E. cbn [nonempty].
    now rewrite (id11_truthy v H).
Qed.

End ClassifierClaims.

(* ===================================================================== *)
(** * Cache keys *)
(* ===================================================================== *)

Section StringOrder.

Lemma ord_inj a b : ord a = ord b -> a = b.
Proof.
  unfold ord. intros H.
  rewrite <- (ascii_N_embedding a), <- (ascii_N_embedding b). now rewrite H.
Qed.

Lemma pystr_ltb_irrefl a : pystr_ltb a a = false.
Proof.
  induction a as [|x a IH]; [reflexivity|].
  simpl. now rewrite N.ltb_irrefl.
Qed.

Lemma pystr_ltb_asym a : forall b, pystr_ltb a b = true -> pystr_ltb b a = false.
Proof.
  induction a as [|x a IH]; intros [|y b]; simpl; try discriminate; auto.
  destruct (N.ltb_spec (ord x) (ord y)), (N.ltb_spec (ord y) (ord x));
    try discriminate; auto; lia.
Qed.

Lemma pystr_ltb_antisym a : forall b,
  pystr_ltb a b = false -> pystr_ltb b a = false -> a = b.
Proof.
  induction a as [|x a IH]; intros [|y b]; simpl; try discriminate; auto.
  destruct (N.ltb_spec (ord x) (ord y)), (N.ltb_spec (ord y) (ord x));
    try discriminate.
  intros H1 H2. f_equal; [apply ord_inj; lia|auto].
Qed.


Lemma pystr_le_trans a : forall b c, pystr_le a b -> pystr_le b c -> pystr_le a c.
Proof.
  unfold pystr_le.
  induction a as [|x a IH]; intros [|y b] [|z c]; simpl; try discriminate; auto.
  destruct (N.ltb_spec (ord y) (ord x)); [discriminate|].
  destruct (N.ltb_spec (ord x) (ord y)).
  - intros _.
    destruct (N.ltb_spec (ord z) (ord y)); [discriminate|].
    destruct (N.ltb_spec (ord z) (ord x)); [lia|].
    destruct (N.ltb_spec (ord x) (ord z)); [reflexivity|lia].
  - intros Hab.
    destruct (N.ltb_spec (ord z) (ord y)); [discriminate|].
    destruct (N.ltb_spec (ord y) (ord z)).
    + intros _. destruct (N.ltb_spec (ord z) (ord x)); [lia|].
      destruct (N.ltb_spec (ord x) (ord z)); [reflexivity|lia].
    + intros Hbc. destruct (N.ltb_spec (ord z) (ord x)); [lia|].
      destruct (N.ltb_spec (ord x) (ord z)); [reflexivity|].
      eapply IH; eauto.
Qed.

End StringOrder.

Section SortedItems.


Lemma insert_item_perm x l : Permutation (insert_item x l) (x :: l).
Proof.
  induction l as [|h t IH]; simpl; [reflexivity|].
  destruct (pystr_ltb (fst h) (fst x)); [|reflexivity].
  rewrite IH. apply perm_swap.
Qed.

Lemma sorted_items_perm l : Permutation (sorted_items l) l.
Proof.
  induction l as [|x l IH]; simpl; [reflexivity|].
  rewrite insert_item_perm. now constructor.
Qed.

Lemma insert_item_sorted x l :
  StronglySorted key_le l -> StronglySorted key_le (insert_item x l).
Proof.
  induction 1 as [|h t St IH Fa]; simpl.
  - repeat constructor.
  - destruct (pystr_ltb (fst h) (fst x)) eqn:E.
    + constructor; [exact IH|].
      apply (Permutation_Forall (Permutation_sym (insert_item_perm x t))).
      constructor; [|exact Fa].
      unfold key_le, pystr_le. now apply pystr_ltb_asym.
    + constructor; [constructor; assumption|].
      constructor; [exact E|].
      eapply Forall_impl; [|exact Fa].
      intros y Hy. unfold key_le in *. eapply pystr_le_trans; [exact E|exact Hy].
Qed.

Lemma sorted_items_sorted l : StronglySorted key_le (sorted_items l).
Proof.
  induction l as [|x l IH]; simpl; [constructor|].
  now apply insert_item_sorted.
Qed.

(** A list with pairwise distinct keys has only one sorted arrangement. *)
Lemma sorted_unique l1 : forall l2,
  StronglySorted key_le l1 -> StronglySorted key_le l2 ->
  Permutation l1 l2 -> NoDup (map fst l1) -> l1 = l2.
Proof.
  induction l1 as [|a l1 IH]; intros l2 S1 S2 P N.
  - apply Permutation_nil in P. now subst.
  - destruct l2 as [|b l2].
    { apply Permutation_sym, Permutation_nil in P. discriminate. }
    inversion S1 as [|? ? S1' F1]; subst.
    inversion S2 as [|? ? S2' F2]; subst.
    inversion N as [|? ? Na N']; subst.
    assert (Hb : In b (a :: l1)).
    { eapply Permutation_in; [apply Permutation_sym; exact P|now left]. }
    assert (Ha : In a (b :: l2)).
    { eapply Permutation_in; [exact P|now left]. }
    assert (E : a = b).
    { destruct Hb as [Hb|Hb]; [exact Hb|].
      destruct Ha as [Ha|Ha]; [now symmetry|].
      rewrite Forall_forall in F1, F2.
      pose proof (F1 b Hb) as L1. pose proof (F2 a Ha) as L2.
      unfold key_le, pystr_le in L1, L2.
      assert (K : fst a = fst b) by (apply pystr_ltb_antisym; assumption).
      exfalso. apply Na. rewrite K. now apply in_map. }
    subst b. f_equal. apply IH; auto.
    eapply Permutation_cons_inv; exact P.
Qed.

Lemma sorted_items_order_insensitive kw1 kw2 :
  NoDup (map fst kw1) -> Permutation kw1 kw2 ->
  sorted_items kw1 = sorted_items kw2.
Proof.
  intros N P. apply sorted_unique; try apply sorted_items_sorted.
  - rewrite sorted_items_perm, P. symmetry. apply sorted_items_perm.
  - eapply Permutation_NoDup; [|exact N].
    apply Permutation_map, Permutation_sym, sorted_items_perm.
Qed.

End SortedItems.

(** C9. The cache key does not depend on the order in which keyword
    arguments were passed, and it does depend on the order of positional
    arguments: swapping two of them changes the key. *)
Theorem cache_key_keyword_order :
  (forall func_name args kw1 kw2,
      NoDup (map fst kw1) -> Permutation kw1 kw2 ->
      generate_cache_key func_name args kw1 = generate_cache_key func_name args kw2)
  /\ (exists func_name a b,
         generate_cache_key func_name [a; b] []
         <> generate_cache_key func_name [b; a] []).
Proof.
  split.
  - intros f args kw1 kw2 N P. unfold generate_cache_key, cache_key_data.
    now rewrite (sorted_items_order_insensitive kw1 kw2 N P).
  - exists `"get_details", (PStr `"a"), (PStr `"b").
    vm_compute. discriminate.
Qed.

(* ===================================================================== *)
(** * Thumbnail selection *)
(* ===================================================================== *)

Section Thumbnails.

Variable W : World.




Lemma thumbnail_url_truthy id q : truthy (thumbnail_url id q) = true.
Proof. reflexivity. Qed.


(** What [get_youtube_thumbnail] answers for each quality it is asked. *)
Lemma get_youtube_thumbnail_quality id q :
  val_truthy id = true ->
  get_youtube_thumbnail id q
  = thumbnail_url id (if existsb (pystr_eqb q) QUALITIES then q else `"maxresdefault").
Proof.
  intros H. unfold get_youtube_thumbnail. rewrite H. cbn [negb].
  destruct (existsb (pystr_eqb q) QUALITIES); reflexivity.
Qed.





End Thumbnails.

(* ===================================================================== *)
(** * Format selection *)
(* ===================================================================== *)

Section Formats.


Lemma last_skip_default {A} (l : list A) : forall x y, last (y :: l) x = last l y.
Proof.
  induction l as [|z l IH]; intros x y; [reflexivity|].
  change (last (z :: l) x = last (z :: l) y). now rewrite !IH.
Qed.

Lemma last_opt_cons {A} (x : A) l : l <> [] -> last_opt (x :: l) = last_opt l.
Proof.
  destruct l as [|y l]; [congruence|]. intros _. unfold last_opt.
  f_equal. apply last_skip_default.
Qed.

Lemma last_opt_in {A} (l : list A) f : last_opt l = Some f -> In f l.
Proof.
  destruct l as [|x l]; [discriminate|]. unfold last_opt. intros [= <-].
  revert x. induction l as [|y l IH]; intros x; [now left|].
  right. rewrite last_skip_default. apply IH.
Qed.

Lemma filter_nil_none {A} (P : A -> bool) l :
  filter P l = [] -> Forall (fun g => P g = false) l.
Proof.
  induction l as [|x l IH]; simpl; [constructor|].
  destruct (P x) eqn:E; [discriminate|]. constructor; auto.
Qed.

Lemma none_filter_nil {A} (P : A -> bool) l :
  (forall g, In g l -> P g = false) -> filter P l = [].
Proof.
  induction l as [|x l IH]; simpl; [reflexivity|]. intros H.
  rewrite (H x) by now left. apply IH. intros g Hg. apply H. now right.
Qed.

Lemma last_filter {A} (P : A -> bool) l :
  filter P l <> [] -> exists f, last_opt (filter P l) = Some f /\ last_such P l f.
Proof.
  induction l as [|x l IH]; simpl; [congruence|].
  destruct (filter P l) as [|y fl] eqn:F.
  - destruct (P x) eqn:E; [|congruence]. intros _.
    exists x. split; [reflexivity|].
    exists [], l. repeat split; auto. now apply filter_nil_none.
  - intros _. destruct IH as (f & L & before & after & -> & Pf & Fa); [discriminate|].
    exists f. split.
    + destruct (P x); [|exact L]. rewrite last_opt_cons by discriminate. exact L.
    + exists (x :: before), after. auto.
Qed.

Lemma Permutation_filter_bool {A} (P : A -> bool) l l' :
  Permutation l l' -> Permutation (filter P l) (filter P l').
Proof.
  induction 1 as [|x l l' _ IH|x y l|l l' l'' _ IH1 _ IH2]; simpl.
  - constructor.
  - destruct (P x); [now constructor|exact IH].
  - destruct (P x), (P y); try reflexivity. apply perm_swap.
  - now transitivity (filter P l').
Qed.

Lemma last_such_in {A} (P : A -> bool) l f : last_such P l f -> In f l.
Proof. intros (b & a & -> & _). apply in_or_app. right. now left. Qed.

(** C3 (amended). When the resolved [info] has no top-level [url] and a
    non-empty format list, video mode takes the URL of the
    highest-indexed format with both tracks; with no such format, of the
    highest-indexed format with a video track; with none, of the last
    format. One combined entry among video-only entries is chosen
    whatever the order of the list. *)
Theorem video_format_selection (info : Info) (formats : list Format) :
  info_url info = None -> info_formats info = Some formats -> formats <> [] ->
  exists chosen,
    pick_format formats true = Some chosen
    /\ select_stream_url info true = f_url chosen
    /\ In chosen formats
    /\ ((exists f, In f formats /\ has_both f = true) ->
          last_such has_both formats chosen)
    /\ ((forall f, In f formats -> has_both f = false) ->
        (exists f, In f formats /\ has_video f = true) ->
          last_such has_video formats chosen)
    /\ ((forall f, In f formats -> has_video f = false) ->
          last_opt formats = Some chosen)
    /\ (forall c v1 v2,
          has_both c = true -> has_both v1 = false -> has_both v2 = false ->
          Permutation formats [c; v1; v2] -> chosen = c).
Proof.
  intros U Fm NE.
  assert (S : forall chosen, pick_format formats true = Some chosen ->
                select_stream_url info true = f_url chosen).
  { intros chosen Hc. unfold select_stream_url. rewrite U, Fm.
    destruct formats as [|f fs]; [congruence|]. now rewrite Hc. }
  assert (VB : forall f, has_both f = true -> has_video f = true).
  { intros f. unfold has_both, has_video. intros H.
    apply andb_true_iff in H. tauto. }
  unfold pick_format in *.
  destruct (filter has_both formats) as [|b bs] eqn:FB.
  - (* no combined format *)
    pose proof (filter_nil_none _ _ FB) as NB. rewrite Forall_forall in NB.
    destruct (filter has_video formats) as [|v vs] eqn:FV.
    + pose proof (filter_nil_none _ _ FV) as NV. rewrite Forall_forall in NV.
      destruct formats as [|f fs]; [congruence|].
      exists (last fs f). repeat split; auto.
      * now apply last_opt_in.
      * intros (g & Hg & Bg). rewrite (NB g Hg) in Bg. discriminate.
      * intros _ (g & Hg & Vg). rewrite (NV g Hg) in Vg. discriminate.
      * intros c v1 v2 Bc _ _ P.
        assert (Ic : In c (f :: fs)).
        { eapply Permutation_in; [apply Permutation_sym; exact P|now left]. }
        rewrite (NB c Ic) in Bc. discriminate.
    + destruct (@last_filter _ has_video formats) as (f & L & LS);
        [rewrite FV; discriminate|].
      rewrite FV in L. exists f. repeat split; auto.
      * eapply last_such_in; eauto.
      * intros (g & Hg & Bg). rewrite (NB g Hg) in Bg. discriminate.
      * intros NV. destruct LS as (b0 & a0 & E & Vf & _).
        rewrite NV in Vf; [discriminate|]. rewrite E. apply in_or_app. right. now left.
      * intros c v1 v2 Bc _ _ P.
        assert (Ic : In c formats).
        { eapply Permutation_in; [apply Permutation_sym; exact P|now left]. }
        rewrite (NB c Ic) in Bc. discriminate.
  - destruct (@last_filter _ has_both formats) as (f & L & LS);
      [rewrite FB; discriminate|].
    rewrite FB in L. exists f. repeat split; auto.
    + eapply last_such_in; eauto.
    + intros NB. destruct LS as (b0 & a0 & E & Bf & _).
      rewrite NB in Bf; [discriminate|]. rewrite E. apply in_or_app. right. now left.
    + intros NV. destruct LS as (b0 & a0 & E & Bf & _).
      apply VB in Bf. rewrite NV in Bf; [discriminate|].
      rewrite E. apply in_or_app. right. now left.
    + intros c v1 v2 Bc B1 B2 P.
      pose proof (Permutation_filter_bool has_both _ _ P) as PF.
      simpl in PF. rewrite Bc, B1, B2, FB in PF.
      apply Permutation_sym, Permutation_length_1_inv in PF.
      rewrite PF in L. simpl in L. congruence.
Qed.


(** A top-level [url] wins over the format list, combined entry or not. *)
Lemma direct_url_counterexample :
  info_formats INFO_URL_AND_FORMATS = Some [VIDEO_ONLY_1; COMBINED; VIDEO_ONLY_2]
  /\ has_both COMBINED = true
  /\ has_both VIDEO_ONLY_1 = false /\ has_both VIDEO_ONLY_2 = false
  /\ select_stream_url INFO_URL_AND_FORMATS true = Some `"https://cdn.example/direct"
  /\ select_stream_url INFO_URL_AND_FORMATS true <> f_url COMBINED.
Proof.
  repeat split. vm_compute. discriminate.
Qed.

End Formats.

(* ===================================================================== *)
(** * The [views] field *)
(* ===================================================================== *)

Section Views.



Lemma is_dec_value c : is_dec c = true -> 0 <= Z.of_N (ord c) - 48.
Proof.
  unfold is_dec, in_range. intros H. apply andb_true_iff in H. destruct H as [H _].
  apply N.leb_le in H. change (ord "0") with 48%N in H. lia.
Qed.






Lemma int_of_digits_nonneg s : forall acc z,
  0 <= acc -> int_of_digits acc s = Some z -> 0 <= z.
Proof.
  induction s as [|c s IH]; intros acc z A H; cbn [int_of_digits] in H.
  - inversion H; subst. exact A.
  - destruct (in_range "0" "9" c) eqn:D; [|discriminate].
    eapply IH; [|exact H]. pose proof (is_dec_value c D). lia.
Qed.

Lemma int_of_digits_total s : forall acc,
  forallb is_dec s = true -> exists z, int_of_digits acc s = Some z.
Proof.
  induction s as [|c s IH]; simpl; intros acc F; [eauto|].
  apply andb_true_iff in F. destruct F as [Fc Fs].
  unfold is_dec in Fc. rewrite Fc. auto.
Qed.


Lemma scan_int_digits d : forall acc seen,
  forallb is_dec d = true ->
  scan_int acc false seen d
  = Some (fold_left (fun a c => 10 * a + (Z.of_N (ord c) - 48)) d acc,
          seen || truthy d, []).
Proof.
  induction d as [|c d IH]; intros acc seen F; cbn [scan_int fold_left truthy].
  - now rewrite orb_false_r.
  - cbn [forallb] in F. apply andb_true_iff in F. destruct F as [Fc Fd].
    unfold is_dec in Fc. rewrite Fc, (IH _ _ Fd). now rewrite orb_true_r.
Qed.

Lemma filter_digits d :
  forallb is_dec d = true -> filter (in_range "0" "9") d = d.
Proof.
  induction d as [|c d IH]; cbn [forallb filter]; [reflexivity|].
  intros F. apply andb_true_iff in F. destruct F as [Fc Fd].
  unfold is_dec in Fc. now rewrite Fc, (IH Fd).
Qed.


Lemma isdigit_chr_plain c :
  isdigit_chr c = true ->
  int_space c = false /\ chr_eqb c "+" = false /\ chr_eqb c "-" = false
  /\ chr_eqb c "_" = false.
Proof.
  destruct c as [[] [] [] [] [] [] [] []]; vm_compute; intros H;
    repeat split; try reflexivity; discriminate H.
Qed.

(** [int()] on a non-empty run of decimal digits. *)
Lemma int_of_str_digits d :
  d <> [] -> forallb is_dec d = true ->
  int_of_str d
  = if INT_MAX_STR_DIGITS <? Z.of_nat (length d) then None else Some (dec_value d).
Proof.
  intros NE F. destruct d as [|c d]; [contradiction|].
  pose proof F as F0. cbn [forallb] in F0. apply andb_true_iff in F0.
  destruct F0 as [Fc Fd].
  assert (Ic : isdigit_chr c = true).
  { unfold isdigit_chr. unfold is_dec in Fc. now rewrite Fc. }
  destruct (isdigit_chr_plain c Ic) as (Sp & Pl & Mi & Un).
  unfold int_of_str. cbn [lstrip_space]. rewrite Sp, Pl, Mi. cbn [fst snd].
  rewrite Un, (scan_int_digits (c :: d) 0 false F). cbn [orb truthy lstrip_space].
  rewrite (filter_digits (c :: d) F). reflexivity.
Qed.

Lemma int_of_str_field d : clock_field d -> int_of_str d = Some (dec_value d).
Proof.
  intros (NE & F & L). rewrite (int_of_str_digits d NE F).
  destruct (Z.ltb_spec INT_MAX_STR_DIGITS (Z.of_nat (length d))); [lia|reflexivity].
Qed.

Lemma dec_value_nonneg d : forallb is_dec d = true -> 0 <= dec_value d.
Proof.
  unfold dec_value.
  assert (G : forall acc, 0 <= acc -> forallb is_dec d = true ->
              0 <= fold_left (fun a c => 10 * a + (Z.of_N (ord c) - 48)) d acc).
  { induction d as [|c d IH]; intros acc A F; cbn [fold_left]; [exact A|].
    cbn [forallb] in F. apply andb_true_iff in F. destruct F as [Fc Fd].
    apply IH; [|exact Fd]. pose proof (is_dec_value c Fc). lia. }
  intros F. apply (G 0); [lia|exact F].
Qed.






End Views.

Section ViewsInResponses.

Variable W : World.






End ViewsInResponses.

(* ===================================================================== *)
(** * The API-key gate *)
(* ===================================================================== *)

Section Gate.

Variable W : World.


Lemma time_time_run st : time_time W st = (clock W (clock_reads st), tick st).
Proof. reflexivity. Qed.

(** The four refusals of [required_api_key], whatever it wraps. *)
Lemma required_api_key_rejects func req st :
  (nonempty (arg_api_key req) = None ->
     required_api_key W func req st = (RespError 401 `"API key is required", st))
  /\ (forall k, nonempty (arg_api_key req) = Some k ->
        find_key k (api_keys st) = None ->
        required_api_key W func req st = (RespError 401 `"Invalid API key", st))
  /\ (forall k row, nonempty (arg_api_key req) = Some k ->
        find_key k (api_keys st) = Some row ->
        ak_valid_until row < clock W (clock_reads st) ->
        required_api_key W func req st
        = (RespError 401 `"API key has expired", tick st))
  /\ (forall k row, nonempty (arg_api_key req) = Some k ->
        find_key k (api_keys st) = Some row ->
        clock W (clock_reads st) <= ak_valid_until row ->
        remaining_requests (clock W (S (clock_reads st))) row <= 0 ->
        required_api_key W func req st
        = (RespError 429 `"Daily limit exceeded", tick (tick st))).
Proof.
  unfold required_api_key. repeat split.
  - intros ->. reflexivity.
  - intros k -> F. unfold bind, get_keys. now rewrite F.
  - intros k row -> F E. unfold bind, get_keys. rewrite F, time_time_run.
    unfold is_expired. destruct (Z.ltb_spec (ak_valid_until row) (clock W (clock_reads st)));
      [reflexivity|lia].
  - intros k row -> F E R. unfold bind, get_keys. rewrite F, time_time_run.
    unfold is_expired. destruct (Z.ltb_spec (ak_valid_until row) (clock W (clock_reads st)));
      [lia|].
    rewrite time_time_run. cbn [tick clock_reads].
    destruct (Z.leb_spec (remaining_requests (clock W (S (clock_reads st))) row) 0);
      [reflexivity|lia].
Qed.

Lemma before_request_frame lucky st :
  api_keys (snd (before_request W lucky st)) = api_keys st
  /\ upstream (snd (before_request W lucky st)) = upstream st.
Proof. destruct lucky; split; reflexivity. Qed.


Lemma before_request_logs lucky st :
  api_logs (snd (before_request W lucky st)) = api_logs st.
Proof. destruct lucky; reflexivity. Qed.

(** C5 (amended). The gate turns a request away before any resolution
    work, with an answer that depends on the key alone: no key, 401
    [API key is required]; unknown key, 401 [Invalid API key]; expired
    key, 401 [API key has expired], whatever is left of its quota; known
    and unexpired key with no requests left, 429 [Daily limit exceeded].
    In each case the wrapped handler plays no part, no call goes
    upstream, no usage is counted and no log row is written. *)
Theorem gate_rejects_before_resolution (lucky : bool) (req : Request) (st : State) :
  let st0 := snd (before_request W lucky st) in
  (nonempty (arg_api_key req) = None ->
     turned_away W lucky req st (RespError 401 `"API key is required"))
  /\ (forall k, nonempty (arg_api_key req) = Some k ->
        find_key k (api_keys st) = None ->
        turned_away W lucky req st (RespError 401 `"Invalid API key"))
  /\ (forall k row, nonempty (arg_api_key req) = Some k ->
        find_key k (api_keys st) = Some row ->
        ak_valid_until row < clock W (clock_reads st0) ->
        turned_away W lucky req st (RespError 401 `"API key has expired"))
  /\ (forall k row, nonempty (arg_api_key req) = Some k ->
        find_key k (api_keys st) = Some row ->
        clock W (clock_reads st0) <= ak_valid_until row ->
        remaining_requests (clock W (S (clock_reads st0))) row <= 0 ->
        turned_away W lucky req st (RespError 429 `"Daily limit exceeded"))
  /\ (key_refused W req st0 ->
      exists status error,
        turned_away W lucky req st (RespError status error)
        /\ (status = 401 \/ status = 429)).
Proof.
  intros st0.
  destruct (before_request_frame lucky st) as [Ks Us]. fold st0 in Ks, Us.
  pose proof (before_request_logs lucky st) as Ls. fold st0 in Ls.
  assert (G : forall r s1,
             (forall func, required_api_key W func req st0 = (r, s1)) ->
             upstream s1 = upstream st0 -> api_keys s1 = api_keys st0 ->
             api_logs s1 = api_logs st0 ->
             turned_away W lucky req st r).
  { intros r s1 H U K L. exists s1. fold st0.
    split; [|split; [exact H|repeat split; congruence]].
    unfold serve_youtube, youtube_route, bind. subst st0.
    destruct (before_request W lucky st) as [u s0]. apply H. }
  assert (C1 : nonempty (arg_api_key req) = None ->
               turned_away W lucky req st (RespError 401 `"API key is required")).
  { intros K. apply (G _ st0); try reflexivity.
    intros func. destruct (required_api_key_rejects func req st0) as (R1 & _).
    now apply R1. }
  assert (C2 : forall k, nonempty (arg_api_key req) = Some k ->
               find_key k (api_keys st) = None ->
               turned_away W lucky req st (RespError 401 `"Invalid API key")).
  { intros k K F. rewrite <- Ks in F. apply (G _ st0); try reflexivity.
    intros func. destruct (required_api_key_rejects func req st0) as (_ & R2 & _).
    now apply (R2 k). }
  assert (C3 : forall k row, nonempty (arg_api_key req) = Some k ->
               find_key k (api_keys st) = Some row ->
               ak_valid_until row < clock W (clock_reads st0) ->
               turned_away W lucky req st (RespError 401 `"API key has expired")).
  { intros k row K F E. rewrite <- Ks in F. apply (G _ (tick st0)); try reflexivity.
    intros func. destruct (required_api_key_rejects func req st0) as (_ & _ & R3 & _).
    now apply (R3 k row). }
  assert (C4 : forall k row, nonempty (arg_api_key req) = Some k ->
               find_key k (api_keys st) = Some row ->
               clock W (clock_reads st0) <= ak_valid_until row ->
               remaining_requests (clock W (S (clock_reads st0))) row <= 0 ->
               turned_away W lucky req st (RespError 429 `"Daily limit exceeded")).
  { intros k row K F E R. rewrite <- Ks in F.
    apply (G _ (tick (tick st0))); try reflexivity.
    intros func. destruct (required_api_key_rejects func req st0) as (_ & _ & _ & R4).
    now apply (R4 k row). }
  split; [exact C1|]. split; [exact C2|]. split; [exact C3|]. split; [exact C4|].
  unfold key_refused. intros R.
  destruct (nonempty (arg_api_key req)) as [k|] eqn:K.
  - destruct (find_key k (api_keys st0)) as [row|] eqn:F; rewrite Ks in F.
    + destruct (Z.lt_ge_cases (ak_valid_until row) (clock W (clock_reads st0))) as [E|E].
      * exists 401, `"API key has expired". split; [now apply (C3 k row)|now left].
      * destruct R as [R|R]; [lia|].
        exists 429, `"Daily limit exceeded". split; [now apply (C4 k row)|now right].
    + exists 401, `"Invalid API key". split; [now apply (C2 k)|now left].
  - exists 401, `"API key is required". split; [now apply C1|now left].
Qed.

End Gate.

(** A key with no requests left is not always answered 429: when it is
    expired as well, the expiry test comes first and the answer is 401. *)
Lemma expired_spent_key_counterexample :
  find_key `"lapsed" (api_keys lapsed_state) = Some LAPSED_KEY
  /\ remaining_requests (clock demo_world 0) LAPSED_KEY = 0
  /\ remaining_requests (clock demo_world 1) LAPSED_KEY = 0
  /\ serve_youtube demo_world false (demo_request "lapsed") lapsed_state
     = (RespError 401 `"API key has expired", tick lapsed_state)
  /\ fst (serve_youtube demo_world false (demo_request "lapsed") lapsed_state)
     <> RespError 429 `"Daily limit exceeded".
Proof. vm_compute. repeat split. discriminate. Qed.

(* ===================================================================== *)
(** * Dictionary facts *)
(* ===================================================================== *)

Section DictFacts.

Lemma pystr_eqb_eq a : forall b, pystr_eqb a b = true <-> a = b.
Proof.
  induction a as [|x a IH]; intros [|y b]; simpl; split; try discriminate; auto.
  - intros H. apply andb_true_iff in H. destruct H as [H1 H2].
    apply Ascii.eqb_eq in H1. apply IH in H2. now subst.
  - intros [= -> ->]. apply andb_true_iff. split; [apply Ascii.eqb_refl|now apply IH].
Qed.

Lemma pystr_eqb_refl a : pystr_eqb a a = true.
Proof. now apply pystr_eqb_eq. Qed.

Lemma pystr_eqb_neq a b : a <> b -> pystr_eqb a b = false.
Proof.
  intros N. destruct (pystr_eqb a b) eqn:E; [|reflexivity].
  apply pystr_eqb_eq in E. contradiction.
Qed.

Context {V : Type}.

Lemma dict_get_set_same k (v : V) d : dict_get k (dict_set k v d) = Some v.
Proof.
  induction d as [|[k' v'] d IH]; simpl.
  - now rewrite pystr_eqb_refl.
  - destruct (pystr_eqb k k') eqn:E; simpl.
    + now rewrite pystr_eqb_refl.
    + now rewrite E.
Qed.

Lemma dict_get_set_other k k' (v : V) d :
  k <> k' -> dict_get k' (dict_set k v d) = dict_get k' d.
Proof.
  intros N. induction d as [|[k0 v0] d IH]; simpl.
  - rewrite pystr_eqb_neq; auto.
  - destruct (pystr_eqb k k0) eqn:E; simpl.
    + apply pystr_eqb_eq in E. subst k0.
      rewrite !(pystr_eqb_neq k' k); auto.
    + destruct (pystr_eqb k' k0); auto.
Qed.

Lemma dict_get_del_other k k' (d : dict V) :
  k <> k' -> dict_get k' (dict_del k d) = dict_get k' d.
Proof.
  intros N. induction d as [|[k0 v0] d IH]; simpl; [reflexivity|].
  destruct (pystr_eqb k k0) eqn:E; simpl.
  - apply pystr_eqb_eq in E. subst k0. rewrite (pystr_eqb_neq k' k); auto.
  - destruct (pystr_eqb k' k0); auto.
Qed.

Lemma dict_get_in k (v : V) d : dict_get k d = Some v -> In (k, v) d.
Proof.
  induction d as [|[k0 v0] d IH]; simpl; [discriminate|].
  destruct (pystr_eqb k k0) eqn:E.
  - apply pystr_eqb_eq in E. intros [= ->]. subst. now left.
  - intros H. right. auto.
Qed.

Lemma dict_get_filter k (v : V) (P : pystr * V -> bool) d :
  dict_get k d = Some v -> P (k, v) = true -> dict_get k (filter P d) = Some v.
Proof.
  induction d as [|[k0 v0] d IH]; simpl; [discriminate|].
  destruct (pystr_eqb k k0) eqn:E.
  - apply pystr_eqb_eq in E. subst k0. intros [= ->] Pv.
    rewrite Pv. simpl. now rewrite pystr_eqb_refl.
  - intros H Pv. destruct (P (k0, v0)); simpl; [rewrite E|]; auto.
Qed.

End DictFacts.


(* ===================================================================== *)
(** * The stream-handle registry *)
(* ===================================================================== *)

Section Handles.

Variable W : World.

(** A successful [get_stream_url] registers the handle it returns, with
    an expiry one hour after the clock reading it takes. *)
Lemma get_stream_url_registers url is_video vid st path st1 :
  get_stream_url W url is_video vid st = (path, st1) ->
  truthy path = true ->
  exists upstream_url,
    path = `"/stream/" ++ uuid4 W (uuids_drawn st)
    /\ dict_get (STREAM_PREFIX ++ uuid4 W (uuids_drawn st)) (cache st1)
       = Some (CStream upstream_url is_video (clock W (clock_reads st) + 3600 * SECOND))
    /\ clock_reads st1 = S (clock_reads st).
Proof.
  unfold get_stream_url, extract_info, bind, record_call, ret. cbn.
  destruct (ydl_extract_info W _ _ _) as [info|]; [|intros [= <- _]; discriminate].
  destruct (select_stream_url info is_video) as [u|]; [|intros [= <- _]; discriminate].
  intros [= <- <-] _. exists u. cbn. repeat split. apply dict_get_set_same.
Qed.

(** What [stream_media] answers for a registered handle: it never looks
    at the clock. *)
Lemma stream_media_registered req stream_id st url is_video expires :
  dict_get (STREAM_PREFIX ++ stream_id) (cache st) = Some (CStream url is_video expires) ->
  truthy url = true ->
  stream_media req stream_id st
  = (RespStream url (if is_video then `"video/mp4" else `"audio/mp4")
                (match req_range req with Some r => r | None => `"bytes=0-" end), st).
Proof.
  intros D T. unfold stream_media, bind, get_cache, ret. now rewrite D, T.
Qed.

(** The sweep keeps a handle up to its expiry and leaves no handle past
    it. *)
Lemma cleanup_keeps_fresh st k url is_video expires :
  dict_get k (cache st) = Some (CStream url is_video expires) ->
  clock W (clock_reads st) <= expires ->
  dict_get k (cache (snd (cleanup_old_files W st))) = Some (CStream url is_video expires).
Proof.
  intros D E. unfold cleanup_old_files, bind, get_cache, put_cache. cbn.
  apply dict_get_filter; [exact D|].
  unfold keep_entry. cbn. destruct (Z.ltb_spec expires (clock W (clock_reads st)));
    [lia|reflexivity].
Qed.

Lemma cleanup_drops_expired st k url is_video expires :
  dict_get k (cache (snd (cleanup_old_files W st))) = Some (CStream url is_video expires) ->
  clock W (clock_reads st) <= expires.
Proof.
  unfold cleanup_old_files, bind, get_cache, put_cache. cbn. intros D.
  apply dict_get_in, filter_In in D. destruct D as [_ K].
  unfold keep_entry in K. cbn in K.
  destruct (Z.ltb_spec expires (clock W (clock_reads st))); [discriminate|lia].
Qed.

(** What does hold: a handle is found from its creation up to its
    expiry, whether or not a sweep runs first. *)
Lemma fresh_handle_found url is_video vid st path st1 lucky req :
  get_stream_url W url is_video vid st = (path, st1) ->
  truthy path = true ->
  clock W (clock_reads st1) <= clock W (clock_reads st) + 3600 * SECOND ->
  exists stream_id upstream_url,
    path = `"/stream/" ++ stream_id
    /\ (truthy upstream_url = true ->
        fst (stream_route W lucky req stream_id st1)
        = RespStream upstream_url (if is_video then `"video/mp4" else `"audio/mp4")
                     (match req_range req with Some r => r | None => `"bytes=0-" end))
    /\ (truthy upstream_url = false ->
        fst (stream_route W lucky req stream_id st1)
        = RespError 500 `"Invalid stream URL").
Proof.
  intros G T E.
  destruct (get_stream_url_registers _ _ _ _ _ _ G T) as (u & -> & D & R).
  exists (uuid4 W (uuids_drawn st)), u. split; [reflexivity|].
  assert (D' : dict_get (STREAM_PREFIX ++ uuid4 W (uuids_drawn st))
                        (cache (snd (before_request W lucky st1)))
               = Some (CStream u is_video (clock W (clock_reads st) + 3600 * SECOND))).
  { destruct lucky; [|exact D]. now apply cleanup_keeps_fresh. }
  unfold stream_route, bind.
  destruct (before_request W lucky st1) as [x s0]. cbn [snd] in D'.
  split; intros Tu.
  - now rewrite (stream_media_registered req _ s0 _ _ _ D' Tu).
  - unfold stream_media, bind, get_cache, ret. now rewrite D', Tu.
Qed.

(** Past the expiry nothing changes without a sweep: a registered handle
    is served whatever the clock reads. *)
Lemma stale_handle_served req stream_id st url is_video expires :
  dict_get (STREAM_PREFIX ++ stream_id) (cache st) = Some (CStream url is_video expires) ->
  truthy url = true ->
  expires < clock W (clock_reads st) ->
  fst (stream_route W false req stream_id st)
  = RespStream url (if is_video then `"video/mp4" else `"audio/mp4")
               (match req_range req with Some r => r | None => `"bytes=0-" end).
Proof.
  intros D T _. unfold stream_route, bind, before_request, ret.
  now rewrite (stream_media_registered req _ st _ _ _ D T).
Qed.

End Handles.

(** C1 (the code departs from it). A handle is created when the clock
    reads 0, so it expires at one hour; the next request arrives when the
    clock reads one hour and a microsecond. Without a sweep the handle is
    still served; the sweep, had it run, would have removed it. *)
Theorem expired_handle_still_served :
  let (path, st1) := get_stream_url demo_world RICK_URL false None demo_state in
  path = `"/stream/" ++ DEMO_UUID
  /\ dict_get (STREAM_PREFIX ++ DEMO_UUID) (cache st1)
     = Some (CStream DEMO_UPSTREAM false HOUR)
  /\ clock demo_world (clock_reads st1) = HOUR + 1
  /\ fst (stream_route demo_world false (demo_request "jaydip") DEMO_UUID st1)
     = RespStream DEMO_UPSTREAM `"audio/mp4" `"bytes=0-"
  /\ fst (stream_route demo_world true (demo_request "jaydip") DEMO_UUID st1)
     = RespError 404 `"Stream not found or expired".
Proof. vm_compute. repeat split. Qed.

(* ===================================================================== *)
(** * The result cache *)
(* ===================================================================== *)

Section ResultCache.

Variable W : World.

(** The clean-up loop keeps an entry that is not older than the
    time-out. *)
Lemma cached_cleanup_keeps timeout now key result ts keys : forall c,
  dict_get key c = Some (CResult result ts) ->
  now - ts <= timeout ->
  dict_get key (snd (cached_cleanup timeout now keys c)) = Some (CResult result ts).
Proof.
  induction keys as [|k keys IH]; intros c D F; simpl; [exact D|].
  destruct (dict_get k c) as [[r t|u v e]|] eqn:E; simpl; try exact D.
  apply IH; [|exact F].
  destruct (Z.ltb_spec timeout (now - t)); [|exact D].
  destruct (pystr_eqb k key) eqn:K.
  - apply pystr_eqb_eq in K. subst k. rewrite D in E. inversion E; subst. lia.
  - rewrite dict_get_del_other; [exact D|].
    intros ->. rewrite pystr_eqb_refl in K. discriminate.
Qed.

Lemma cached_cleanup_result timeout now keys : forall c,
  fst (cached_cleanup timeout now keys c) = None
  \/ fst (cached_cleanup timeout now keys c) = Some KeyError.
Proof.
  induction keys as [|k keys IH]; intros c; simpl; [now left|].
  destruct (dict_get k c) as [[r t|u v e]|]; simpl; auto.
Qed.

(** A hit within the time-out: the stored value comes back, one clock
    reading is taken, the wrapped function does not run. *)
Lemma cached_hit timeout func_name func args kwargs st result ts :
  dict_get (generate_cache_key func_name args kwargs) (cache st)
  = Some (CResult result ts) ->
  clock W (clock_reads st) - ts < timeout ->
  cached W timeout func_name func args kwargs st = (inr result, tick st).
Proof.
  intros D F. unfold cached, bind, get_cache. rewrite D, time_time_run.
  destruct (Z.ltb_spec (clock W (clock_reads st) - ts) timeout); [reflexivity|lia].
Qed.

(** A miss computes and stores; the value stays stored unless the clock
    jumps past the time-out within the call. *)
Lemma cached_miss timeout func_name func args kwargs st result sf :
  dict_get (generate_cache_key func_name args kwargs) (cache st) = None ->
  func args kwargs st = (inr result, sf) ->
  clock W (S (clock_reads sf)) - clock W (clock_reads sf) <= timeout ->
  exists r1 st1,
    cached W timeout func_name func args kwargs st = (r1, st1)
    /\ (r1 = inr result \/ r1 = inl KeyError)
    /\ dict_get (generate_cache_key func_name args kwargs) (cache st1)
       = Some (CResult result (clock W (clock_reads sf)))
    /\ clock_reads st1 = S (S (clock_reads sf))
    /\ upstream st1 = upstream sf.
Proof.
  intros D Hf F. unfold cached. set (key := generate_cache_key func_name args kwargs) in *.
  unfold bind at 1. cbn [get_cache]. rewrite D.
  unfold bind at 1. rewrite Hf.
  unfold bind at 1. rewrite time_time_run.
  unfold bind at 1. cbn [get_cache].
  unfold bind at 1. cbn [put_cache].
  unfold bind at 1. rewrite time_time_run.
  unfold bind at 1. cbn [get_cache cache tick clock_reads].
  set (c1 := dict_set key (CResult result (clock W (clock_reads sf))) (cache sf)).
  pose proof (cached_cleanup_keeps timeout (clock W (S (clock_reads sf))) key result
                (clock W (clock_reads sf)) (map fst c1) c1
                (dict_get_set_same key _ (cache sf)) F) as K.
  pose proof (cached_cleanup_result timeout (clock W (S (clock_reads sf))) (map fst c1) c1) as R.
  destruct (cached_cleanup timeout (clock W (S (clock_reads sf))) (map fst c1) c1)
    as [err c2].
  cbn [fst snd] in K, R.
  unfold bind, put_cache, ret. cbn.
  destruct R as [->| ->]; eexists; eexists; (split; [reflexivity|]); cbn; auto.
Qed.

Lemma get_details_calls_upstream url st :
  exists call, upstream (snd (get_details W url st)) = call :: upstream st.
Proof.
  unfold get_details.
  destruct (negb (is_youtube_url url) && negb (is_video_id url)).
  - unfold bind, record_call. cbn.
    destruct (videos_search W _ url) as [[|hit hits]|]; eexists; reflexivity.
  - unfold extract_info, bind, record_call, ret. cbn.
    destruct (ydl_extract_info W _ _ _); eexists; reflexivity.
Qed.

(** C2 (amended). Caching is a property of the [cached] wrapper, which
    the resolver does not use. Under the wrapper, a value stored less
    than the time-out ago is returned without running the wrapped
    function, and a second call that follows a computing call within the
    time-out returns the same value. [get_details] itself sends one call
    upstream every time it runs. *)
Theorem cached_wrapper_hits :
  (forall timeout func_name func args kwargs st result ts,
      dict_get (generate_cache_key func_name args kwargs) (cache st)
      = Some (CResult result ts) ->
      clock W (clock_reads st) - ts < timeout ->
      cached W timeout func_name func args kwargs st = (inr result, tick st))
  /\ (forall timeout func_name func args kwargs st result sf,
        dict_get (generate_cache_key func_name args kwargs) (cache st) = None ->
        func args kwargs st = (inr result, sf) ->
        clock W (S (clock_reads sf)) - clock W (clock_reads sf) <= timeout ->
        clock W (S (S (clock_reads sf))) - clock W (clock_reads sf) < timeout ->
        exists r1 st1,
          cached W timeout func_name func args kwargs st = (r1, st1)
          /\ (r1 = inr result \/ r1 = inl KeyError)
          /\ forall func',
               cached W timeout func_name func' args kwargs st1 = (inr result, tick st1)
               /\ upstream (tick st1) = upstream sf)
  /\ (forall url st,
        exists call, upstream (snd (get_details W url st)) = call :: upstream st).
Proof.
  split; [|split].
  - intros. now apply cached_hit with (ts := ts).
  - intros timeout func_name func args kwargs st result sf D Hf F1 F2.
    destruct (cached_miss timeout func_name func args kwargs st result sf D Hf F1)
      as (r1 & st1 & E & R & D1 & C & U).
    exists r1, st1. repeat split; auto.
    apply cached_hit with (ts := clock W (clock_reads sf)); [exact D1|].
    now rewrite C.
  - apply get_details_calls_upstream.
Qed.

End ResultCache.

(** Two resolutions of the same identifier, back to back and well within
    an hour: each one goes upstream. *)
Lemma get_details_twice_counterexample :
  let (first, st1) := get_details demo_world RICK_URL demo_state in
  let (second, st2) := get_details demo_world RICK_URL st1 in
  first = second
  /\ first <> None
  /\ upstream st1 = [CallExtract RICK_URL `"best[height<=720]/best"]
  /\ upstream st2 = [CallExtract RICK_URL `"best[height<=720]/best";
                     CallExtract RICK_URL `"best[height<=720]/best"]
  /\ cache st2 = [].
Proof. vm_compute. repeat split. discriminate. Qed.

(* ===================================================================== *)
(** * The classes of a query *)
(* ===================================================================== *)

Section QueryClasses.

Variable W : World.

Lemma den_words r : finite r = true ->
  forall w g g', den r w g g' -> In w (words r).
Proof.
  induction r as [c|p|a IHa b IHb|a IHa b IHb|a IHa|n a IHa| |a IHa| | |];
    cbn [finite words den]; intros F w g g' D; try discriminate.
  - destruct D as [-> _]. now left.
  - apply andb_true_iff in F. destruct F as [Fa Fb].
    destruct D as (w1 & w2 & g1 & -> & D1 & D2).
    apply in_flat_map. exists w1. split; [now apply (IHa Fa w1 g g1)|].
    apply in_map. now apply (IHb Fb w2 g1 g').
  - apply andb_true_iff in F. destruct F as [Fa Fb].
    apply in_or_app. destruct D as [D|D]; [left|right]; eauto.
  - apply in_or_app. destruct D as [D|[-> _]]; [left; eauto|right; now left].
  - destruct D as [-> _]. now left.
  - destruct D as [-> _]. now left.
  - destruct D as [-> _]. now left.
Qed.

Lemma youtube_patterns_heads p w :
  In p youtube_patterns -> In w (words p) -> In w URL_HEADS.
Proof.
  intros Ip Iw.
  assert (A : forallb (fun p => forallb (fun w => existsb (pystr_eqb w) URL_HEADS)
                                       (words p)) youtube_patterns = true)
    by (vm_compute; reflexivity).
  rewrite forallb_forall in A. specialize (A p Ip).
  rewrite forallb_forall in A. specialize (A w Iw).
  apply existsb_exists in A. destruct A as (h & Ih & E).
  apply pystr_eqb_eq in E. now subst h.
Qed.

Lemma url_head_accepted head rest :
  In head URL_HEADS -> is_youtube_url (head ++ rest) = true.
Proof.
  intros I. unfold URL_HEADS in I. cbn in I.
  repeat (destruct I as [<-|I]; [reflexivity|]). contradiction.
Qed.

Lemma is_youtube_url_heads q : is_youtube_url q = true <-> has_url_head q.
Proof.
  split.
  - unfold is_youtube_url. intros H.
    apply existsb_exists in H. destruct H as (p & Ip & Hm).
    destruct (re_match p q) as [m|] eqn:E; [|discriminate].
    apply re_match_sound in E. destruct E as (w & rest & -> & D).
    exists w, rest. split; [|reflexivity].
    apply (youtube_patterns_heads p w Ip).
    apply (den_words p) with (g := None) (g' := m); [|exact D].
    unfold youtube_patterns in Ip. cbn [In] in Ip.
    destruct Ip as [<-|[<-|[<-|[<-|[]]]]]; reflexivity.
  - intros (head & rest & I & ->). now apply url_head_accepted.
Qed.

Lemma rep_cls_inv p n : forall pos s g k m,
  rep_k (rmatch (Cls p)) n pos s g k = Some m ->
  exists v s', s = v ++ s' /\ length v = n /\ forallb p v = true
               /\ k (pos + n)%nat s' g = Some m.
Proof.
  induction n as [|n IH]; intros pos s g k m H; cbn [rep_k] in H.
  - exists [], s. rewrite Nat.add_0_r. auto.
  - cbn [rmatch] in H. destruct s as [|c s]; [discriminate|].
    destruct (p c) eqn:Pc; [|discriminate].
    apply IH in H. destruct H as (v & s' & -> & L & F & K).
    exists (c :: v), s'. cbn [app length forallb]. rewrite Pc, F, L.
    replace (pos + S n)%nat with (S pos + n)%nat by lia. auto.
Qed.

Lemma is_video_id_bare q : is_video_id q = true <-> is_bare_id q.
Proof.
  split.
  - unfold is_video_id, re_match. intros H.
    destruct (rmatch BARE_ID 0 q None accept) as [m|] eqn:E; [|discriminate].
    change (rmatch BARE_ID 0 q None accept)
      with (rep_k (rmatch (Cls idchar)) 11 0 q None
                  (fun pos' s' g' => rmatch Eol pos' s' g' accept)) in E.
    apply rep_cls_inv in E. destruct E as (v & s' & -> & L & F & K).
    cbn [rmatch] in K. destruct s' as [|c [|d s']]; [| |discriminate].
    + left. rewrite app_nil_r. split; assumption.
    + destruct (chr_eqb c NEWLINE) eqn:C; [|discriminate].
      apply Ascii.eqb_eq in C. subst c. right. exists v. split; [split; assumption|].
      reflexivity.
  - intros [H|(v & H & ->)]; [now apply is_video_id_id11|].
    destruct H as [L F]. unfold is_video_id, re_match.
    change (rmatch BARE_ID 0 (v ++ [NEWLINE]) None accept)
      with (rep_k (rmatch (Cls idchar)) 11 0 (v ++ [NEWLINE]) None
                  (fun pos' s' g' => rmatch Eol pos' s' g' accept)).
    rewrite rep_cls_app by assumption. reflexivity.
Qed.

Lemma get_details_url u st :
  is_youtube_url u = true ->
  get_details W u st =
  (match ydl_extract_info W (length (upstream st)) (normalize_url u None)
                          (default_format W) with
   | Some info => details_of_info W info
   | None => None
   end,
   mkState (cache st) (api_keys st) (api_logs st) (clock_reads st) (uuids_drawn st)
           (CallExtract (normalize_url u None) (default_format W) :: upstream st)).
Proof.
  intros U. unfold get_details. rewrite U. cbn [negb andb].
  unfold extract_info, bind, record_call, ret.
  destruct (ydl_extract_info W _ _ _); reflexivity.
Qed.

(** For a text read as a URL the handler sends extraction calls for the
    normalised text, and nothing else. *)
Lemma youtube_url_calls req st q :
  nonempty (arg_query req) = Some q -> is_youtube_url q = true ->
  exists calls,
    calls_added st (snd (youtube W req st)) calls
    /\ calls <> []
    /\ Forall (fun c => exists f, c = CallExtract (normalize_url q None) f) calls.
Proof.
  intros Hq U. unfold youtube. rewrite Hq.
  assert (C : classify q = CanonicalUrl q) by (unfold classify; now rewrite U).
  rewrite C. cbn [video_url_of].
  unfold bind at 1. rewrite (get_details_url q st U).
  set (st1 := mkState _ _ _ _ _ _).
  set (one := CallExtract (normalize_url q None) (default_format W)).
  assert (E1 : forall r, exists calls,
             calls_added st (snd (ret (A:=Response) r st1)) calls /\ calls <> []
             /\ Forall (fun c => exists f, c = CallExtract (normalize_url q None) f) calls).
  { intros r. exists [one]. repeat split; [discriminate|].
    constructor; [eexists; reflexivity|constructor]. }
  destruct (match ydl_extract_info W _ _ _ with Some _ => _ | None => _ end) as [vd|];
    [|apply E1].
  destruct (val_truthy (vd_id vd)); cbn [negb]; [|apply E1].
  unfold bind.
  pose proof (get_stream_url_calls W q
                (pystr_eqb (lower match arg_video req with Some v => v | None => `"false" end) `"true")
                None st1) as G.
  destruct (get_stream_url W _ _ None st1) as [stream_url st2].
  unfold calls_added in G. cbn [snd] in G.
  exists (CallExtract (normalize_url q None)
            (if pystr_eqb (lower match arg_video req with Some v => v | None => `"false" end) `"true"
             then `"best[height<=720]/best" else `"bestaudio/best") :: [one]).
  assert (Up : upstream st1 = one :: upstream st) by reflexivity.
  split.
  - unfold calls_added.
    destruct (negb (truthy stream_url)); cbn [snd ret]; rewrite G, Up; reflexivity.
  - split; [discriminate|].
    repeat constructor; eexists; reflexivity.
Qed.

(** C7 (amended). The class of a query is a total function of the text
    alone. The text is read as a URL exactly when it begins with one of
    the URL shapes (optional [http://] or [https://], optional [www.],
    then [youtube.com/watch?v=], [youtu.be/], [youtube.com/embed/] or
    [youtube.com/v/]); otherwise as an identifier exactly when it is
    eleven URL-safe characters, alone or followed by one line feed; and
    as a search term exactly when it is neither. A text that begins
    with a URL shape and holds no identifier is therefore not a search
    term: it is read as a URL, left as it is by [normalize_url], and the
    handler sends extraction calls for it and no search. *)
Theorem classifier_total_fallback (q : pystr) :
  (is_youtube_url q = true <-> has_url_head q)
  /\ (is_video_id q = true <-> is_bare_id q)
  /\ (classify q = CanonicalUrl q <-> has_url_head q)
  /\ (classify q = DirectId q <-> ~ has_url_head q /\ is_bare_id q)
  /\ (classify q = SearchTerm q <-> ~ has_url_head q /\ ~ is_bare_id q)
  /\ (classify q = SearchTerm q \/ classify q = CanonicalUrl q
      \/ classify q = DirectId q)
  /\ (has_url_head q -> extract_video_id q = None ->
      classify q = CanonicalUrl q
      /\ normalize_url q None = q
      /\ forall req st, nonempty (arg_query req) = Some q ->
           exists calls,
             calls_added st (snd (youtube W req st)) calls
             /\ calls <> []
             /\ Forall (fun c => exists f, c = CallExtract q f) calls).
Proof.
  pose proof (is_youtube_url_heads q) as U.
  pose proof (is_video_id_bare q) as B.
  assert (NU : is_youtube_url q = false <-> ~ has_url_head q).
  { rewrite <- U. destruct (is_youtube_url q); split; congruence. }
  assert (NB : is_video_id q = false <-> ~ is_bare_id q).
  { rewrite <- B. destruct (is_video_id q); split; congruence. }
  split; [exact U|]. split; [exact B|].
  split; [|split; [|split; [|split]]].
  - rewrite <- U. unfold classify.
    destruct (is_youtube_url q), (is_video_id q); cbn; split; congruence.
  - rewrite <- NU, <- B. unfold classify.
    destruct (is_youtube_url q), (is_video_id q); cbn; split;
      (congruence || tauto || (intros [? ?]; congruence)).
  - rewrite <- NU, <- NB. unfold classify.
    destruct (is_youtube_url q), (is_video_id q); cbn; split;
      (congruence || tauto || (intros [? ?]; congruence)).
  - unfold classify. destruct (is_youtube_url q), (is_video_id q); cbn; auto.
  - intros H E. apply U in H.
    assert (N : normalize_url q None = q).
    { unfold normalize_url. cbn [nonempty]. now rewrite H, E. }
    split; [unfold classify; now rewrite H|]. split; [exact N|].
    intros req st Hq.
    destruct (youtube_url_calls req st q Hq H) as (calls & Ca & Ne & Fc).
    rewrite N in Fc. exists calls. auto.
Qed.

End QueryClasses.

(** A text that begins with a URL shape and holds no identifier is not
    taken for a search term: it is read as a URL and sent to the
    extractor twice, unchanged. *)
Lemma unparseable_url_counterexample :
  is_youtube_url STUB_LINK = true
  /\ extract_video_id STUB_LINK = None
  /\ is_video_id STUB_LINK = false
  /\ classify STUB_LINK = CanonicalUrl STUB_LINK
  /\ classify STUB_LINK <> SearchTerm STUB_LINK
  /\ upstream (snd (youtube demo_world stub_request demo_state))
     = [CallExtract STUB_LINK `"bestaudio/best";
        CallExtract STUB_LINK `"best[height<=720]/best"].
Proof. vm_compute. repeat split. discriminate. Qed.

(* ===================================================================== *)
(** * The statements at concrete inputs *)
(* ===================================================================== *)


Lemma classifier_direct_id_witness :
  classify RICK_ID = DirectId RICK_ID
  /\ video_url_of (classify RICK_ID) = RICK_URL
  /\ exists calls,
       calls_added demo_state
                   (snd (youtube demo_world (demo_request "jaydip") demo_state)) calls
       /\ calls <> []
       /\ Forall (fun c => exists f, c = CallExtract (WATCH_PREFIX ++ RICK_ID) f) calls.
Proof.
  destruct (classifier_direct_id demo_world) as [H _].
  destruct (H RICK_ID eq_refl eq_refl) as (A & B & C).
  split; [exact A|]. split; [exact B|].
  exact (C (demo_request "jaydip") demo_state eq_refl).
Defined.

Lemma classifier_total_fallback_witness :
  classify STUB_LINK = CanonicalUrl STUB_LINK
  /\ normalize_url STUB_LINK None = STUB_LINK
  /\ (exists calls,
        calls_added demo_state
          (snd (youtube demo_world stub_request demo_state)) calls
        /\ calls <> []
        /\ Forall (fun c => exists f, c = CallExtract STUB_LINK f) calls)
  /\ (classify `"lofi hip hop radio" = SearchTerm `"lofi hip hop radio"
      <-> ~ has_url_head `"lofi hip hop radio" /\ ~ is_bare_id `"lofi hip hop radio")
  /\ (classify RICK_ID = DirectId RICK_ID
      <-> ~ has_url_head RICK_ID /\ is_bare_id RICK_ID).
Proof.
  destruct (classifier_total_fallback demo_world STUB_LINK)
    as (_ & _ & _ & _ & _ & _ & P).
  assert (H : has_url_head STUB_LINK).
  { exists `"https://youtu.be/", `"x". split; [|reflexivity].
    unfold URL_HEADS. cbn. repeat (first [left; reflexivity | right]). }
  destruct (P H eq_refl) as (A & B & C).
  split; [exact A|]. split; [exact B|].
  split; [exact (C stub_request demo_state eq_refl)|].
  split.
  - exact (proj1 (proj2 (proj2 (proj2 (proj2
             (classifier_total_fallback demo_world `"lofi hip hop radio")))))).
  - exact (proj1 (proj2 (proj2 (proj2
             (classifier_total_fallback demo_world RICK_ID))))).
Defined.

Lemma normalize_url_idempotent_witness :
  normalize_url (normalize_url SHORT_LINK None) None = normalize_url SHORT_LINK None
  /\ is_id11 RICK_ID
  /\ normalize_url SHORT_LINK None = WATCH_PREFIX ++ RICK_ID.
Proof.
  destruct (normalize_url_idempotent SHORT_LINK) as [A B].
  split; [exact A|]. exact (B RICK_ID eq_refl eq_refl).
Defined.


Lemma cache_key_keyword_order_witness :
  generate_cache_key `"get_details" [PStr RICK_ID] KW_GIVEN
  = generate_cache_key `"get_details" [PStr RICK_ID] KW_SWAPPED.
Proof.
  apply (proj1 cache_key_keyword_order).
  - repeat constructor; simpl; intuition discriminate.
  - apply perm_swap.
Defined.




Lemma video_format_selection_witness :
  exists chosen,
    pick_format [VIDEO_ONLY_1; COMBINED; VIDEO_ONLY_2] true = Some chosen
    /\ select_stream_url INFO_FORMATS_ONLY true = f_url chosen
    /\ last_such has_both [VIDEO_ONLY_1; COMBINED; VIDEO_ONLY_2] chosen
    /\ chosen = COMBINED.
Proof.
  assert (NE : [VIDEO_ONLY_1; COMBINED; VIDEO_ONLY_2] <> []) by discriminate.
  destruct (video_format_selection INFO_FORMATS_ONLY [VIDEO_ONLY_1; COMBINED; VIDEO_ONLY_2]
              eq_refl eq_refl NE) as (chosen & P & S & _ & B & _ & _ & D).
  exists chosen. split; [exact P|]. split; [exact S|]. split.
  - apply B. exists COMBINED. split; [right; now left|reflexivity].
  - apply (D COMBINED VIDEO_ONLY_1 VIDEO_ONLY_2); try reflexivity. apply perm_swap.
Defined.


Lemma gate_rejects_before_resolution_witness :
  turned_away demo_world false (demo_request "spent") demo_state
              (RespError 429 `"Daily limit exceeded")
  /\ turned_away demo_world false (demo_request "lapsed") lapsed_state
                 (RespError 401 `"API key has expired")
  /\ turned_away demo_world false (demo_request "expired-or-unknown") demo_state
                 (RespError 401 `"Invalid API key")
  /\ turned_away demo_world false plain_request demo_state
                 (RespError 401 `"API key is required").
Proof.
  split; [|split; [|split]].
  - destruct (gate_rejects_before_resolution demo_world false (demo_request "spent")
                demo_state) as (_ & _ & _ & P & _).
    apply (P `"spent" SPENT_KEY eq_refl eq_refl); apply Z.leb_le; reflexivity.
  - destruct (gate_rejects_before_resolution demo_world false (demo_request "lapsed")
                lapsed_state) as (_ & _ & P & _).
    apply (P `"lapsed" LAPSED_KEY eq_refl eq_refl). apply Z.ltb_lt. reflexivity.
  - destruct (gate_rejects_before_resolution demo_world false
                (demo_request "expired-or-unknown") demo_state) as (_ & P & _).
    exact (P `"expired-or-unknown" eq_refl eq_refl).
  - destruct (gate_rejects_before_resolution demo_world false plain_request demo_state)
      as (P & _).
    exact (P eq_refl).
Defined.


Lemma cached_wrapper_hits_witness :
  cached demo_world CACHE_TIMEOUT `"get_details" failing_func [PStr RICK_ID] [] warm_state
  = (inr (PStr `"stored"), tick warm_state)
  /\ (exists r1 st1,
        cached demo_world CACHE_TIMEOUT `"get_details" answering_func [PStr RICK_ID] []
               cold_state = (r1, st1)
        /\ (r1 = inr (PStr `"fresh") \/ r1 = inl KeyError)
        /\ cached demo_world CACHE_TIMEOUT `"get_details" failing_func [PStr RICK_ID] [] st1
           = (inr (PStr `"fresh"), tick st1))
  /\ (exists call,
        upstream (snd (get_details demo_world RICK_URL demo_state))
        = call :: upstream demo_state).
Proof.
  destruct (cached_wrapper_hits demo_world) as (A & B & C).
  split; [|split].
  - apply A with (ts := 0).
    + vm_compute. reflexivity.
    + apply Z.ltb_lt. reflexivity.
  - destruct (B CACHE_TIMEOUT `"get_details" answering_func [PStr RICK_ID] [] cold_state
                (PStr `"fresh") cold_state eq_refl eq_refl)
      as (r1 & st1 & E & R & H).
    + apply Z.leb_le. reflexivity.
    + apply Z.ltb_lt. reflexivity.
    + exists r1, st1. split; [exact E|]. split; [exact R|]. exact (proj1 (H failing_func)).
  - apply C.
Defined.

(* ===================================================================== *)
(** * More about identifiers and URLs *)
(* ===================================================================== *)

Section UrlShapes.

Lemma infix_app_l x w1 w2 : infix x w1 -> infix x (w1 ++ w2).
Proof.
  intros (a & b & ->). exists a, (b ++ w2). now rewrite <- !app_assoc.
Qed.

Lemma infix_app_r x w1 w2 : infix x w2 -> infix x (w1 ++ w2).
Proof.
  intros (a & b & ->). exists (w1 ++ a), b. now rewrite <- app_assoc.
Qed.

(** A match either leaves group 1 alone or sets it to a piece of the
    matched text. *)
Lemma den_infix r : forall w g g',
  den r w g g' -> g' = g \/ exists x, g' = Some x /\ infix x w.
Proof.
  induction r as [c|p|r1 IH1 r2 IH2|r1 IH1 r2 IH2|r1 IH1|n r1 IH1| |r1 IH1| | | ];
    simpl; intros w g g' D;
    try (destruct D as [_ ->]; now left).
  - destruct D as (w1 & w2 & g1 & -> & D1 & D2).
    destruct (IH2 _ _ _ D2) as [->|(x & -> & I)].
    + destruct (IH1 _ _ _ D1) as [->|(x & -> & I)]; [now left|].
      right. exists x. split; [reflexivity|now apply infix_app_l].
    + right. exists x. split; [reflexivity|now apply infix_app_r].
  - destruct D as [D|D]; eauto.
  - destruct D as [D|[_ ->]]; eauto.
  - revert w g D. induction n as [|n IHn]; simpl; intros w g D.
    + destruct D as [_ ->]. now left.
    + destruct D as (w1 & w2 & g1 & -> & D1 & D2).
      destruct (IHn _ _ D2) as [->|(x & -> & I)].
      * destruct (IH1 _ _ _ D1) as [->|(x & -> & I)]; [now left|].
        right. exists x. split; [reflexivity|now apply infix_app_l].
      * right. exists x. split; [reflexivity|now apply infix_app_r].
  - destruct D as [_ ->]. right. exists w. split; [reflexivity|].
    exists [], []. now rewrite app_nil_r.
Qed.

(** X1. Whatever [extract_video_id] returns is a run of eleven URL-safe
    characters that stands in the URL itself. *)
Theorem extract_video_id_in_url (url v : pystr) :
  extract_video_id url = Some v ->
  length v = 11%nat /\ forallb idchar v = true /\ infix v url.
Proof.
  intros E. destruct (extract_video_id_shape url v E) as [L F].
  split; [exact L|]. split; [exact F|].
  unfold extract_video_id in E.
  pose proof video_id_patterns_capture as C.
  induction C as [|p ps [Cp Ap] _ IH]; simpl in E; [discriminate|].
  destruct (re_search p url) as [m|] eqn:S; [|exact (IH E)].
  injection E as <-. unfold re_search in S. apply search_from_sound in S.
  destruct S as (u & w & s' & -> & D).
  pose proof (den_assigns p _ _ _ D Ap) as NN.
  destruct (den_infix p _ _ _ D) as [->|(x & -> & I)]; [congruence|].
  simpl. apply infix_app_r, infix_app_l, I.
Qed.

Lemma dotstar_accept s : forall pos g, dotstar_k pos s g accept = Some g.
Proof.
  induction s as [|c s IH]; intros pos g; simpl; [reflexivity|].
  destruct (chr_eqb c NEWLINE); [reflexivity|]. now rewrite IH.
Qed.

Ltac find_id11 v H :=
  unfold extract_video_id, video_id_patterns, first_search, re_search;
  cbn [str list_ascii_of_string app];
  repeat (rewrite search_from_next by reflexivity);
  rewrite (search_from_here _ _ _ (Some v)); [reflexivity|];
  cbn -[ID11 firstn Nat.sub app];
  rewrite rmatch_id11 by exact H;
  rewrite dotstar_accept.

Lemma firstn_id11 (v rest : pystr) :
  length v = 11%nat -> firstn 11 (v ++ rest) = v.
Proof.
  intros L. rewrite <- L, <- (Nat.add_0_r (length v)), firstn_app_2.
  simpl. apply app_nil_r.
Qed.

Lemma url_head_extract p v rest :
  In p URL_HEADS -> is_id11 v ->
  is_youtube_url (p ++ v ++ rest) = true
  /\ extract_video_id (p ++ v ++ rest) = Some v.
Proof.
  intros I H. pose proof (proj1 H) as L.
  unfold URL_HEADS in I. cbn in I.
  repeat (destruct I as [<-|I]; [split; [reflexivity|]|]); try contradiction;
    find_id11 v H; cbn [Nat.add Nat.sub]; now rewrite (firstn_id11 v rest L).
Qed.

(** X2. Every spelling of a video address that [is_youtube_url] accepts
    (watch, short link, embed, v/; with or without scheme and www.)
    followed by an eleven-character identifier and anything after it is
    sent by [normalize_url] to the one canonical watch URL of that
    identifier. *)
Theorem url_shapes_normalize (p v rest : pystr) :
  In p URL_HEADS -> length v = 11%nat -> forallb idchar v = true ->
  is_youtube_url (p ++ v ++ rest) = true
  /\ extract_video_id (p ++ v ++ rest) = Some v
  /\ normalize_url (p ++ v ++ rest) None = WATCH_PREFIX ++ v
  /\ classify (p ++ v ++ rest) = CanonicalUrl (p ++ v ++ rest).
Proof.
  intros I L F. assert (H : is_id11 v) by (split; assumption).
  destruct (url_head_extract p v rest I H) as [U E].
  split; [exact U|]. split; [exact E|]. split.
  - unfold normalize_url. cbn [nonempty]. rewrite U, E. cbn [nonempty].
    now rewrite (id11_truthy v H).
  - unfold classify. now rewrite U.
Qed.

End UrlShapes.

(* ===================================================================== *)
(** * How the resolver and the handler run *)
(* ===================================================================== *)

Section Runs.

Variable W : World.

Lemma get_stream_url_run url is_video vid st :
  let url' := normalize_url url vid in
  let call := CallExtract url' (stream_format is_video) in
  get_stream_url W url is_video vid st =
  match ydl_extract_info W (length (upstream st)) url' (stream_format is_video) with
  | Some info =>
      match select_stream_url info is_video with
      | Some u => (`"/stream/" ++ uuid4 W (uuids_drawn st), registered W call u is_video st)
      | None => ([], add_calls [call] st)
      end
  | None => ([], add_calls [call] st)
  end.
Proof.
  unfold get_stream_url, extract_info, bind, record_call, ret, stream_format. cbn.
  destruct (ydl_extract_info W _ _ _) as [info|]; [|reflexivity].
  destruct (select_stream_url info is_video); reflexivity.
Qed.

Lemma get_details_url_run url st :
  is_youtube_url url = true ->
  get_details W url st =
  (match ydl_extract_info W (length (upstream st)) (normalize_url url None)
                          (default_format W) with
   | Some info => details_of_info W info
   | None => None
   end,
   add_calls [CallExtract (normalize_url url None) (default_format W)] st).
Proof.
  intros U. unfold get_details. rewrite U. cbn [negb andb].
  unfold extract_info, bind, record_call, ret, add_calls. cbn.
  destruct (ydl_extract_info W _ _ _); reflexivity.
Qed.

Lemma search_videos_run q limit st :
  search_videos W q limit st =
  if pystr_eqb (lower q) `"295" then ([HARDCODED_295], st)
  else
    let sq := `"ytsearch" ++ str_of_int (Z.of_nat limit) ++ `":" ++ q in
    (match ydl_search W (length (upstream st)) sq with
     | Some entries => filter_map (option_map entry_video_data) (firstn limit entries)
     | None => []
     end, add_calls [CallYtSearch sq] st).
Proof.
  unfold search_videos. destruct (pystr_eqb (lower q) `"295"); [reflexivity|].
  unfold bind, record_call, ret, add_calls. cbn.
  destruct (ydl_search W _ _); reflexivity.
Qed.

Lemma classify_url_cases q :
  match classify q with
  | SearchTerm x => x = q
  | c => is_youtube_url (video_url_of c) = true
  end.
Proof.
  unfold classify.
  destruct (is_youtube_url q) eqn:U, (is_video_id q) eqn:I; cbn; auto.
Qed.

(** Where a 200 of [youtube] comes from: a metadata record, and right
    after it a successful [get_stream_url]; nothing but upstream calls
    happened before. *)
Lemma youtube_ok_run req st body st' :
  youtube W req st = (RespOk body, st') ->
  exists vd url calls path,
    get_stream_url W url (wants_video req) None (add_calls calls st) = (path, st')
    /\ truthy path = true
    /\ format_response req vd path (wants_video req) = RespOk body.
Proof.
  unfold youtube. fold (wants_video req).
  destruct (nonempty (arg_query req)) as [query|]; [|discriminate].
  pose proof (classify_url_cases query) as C.
  destruct (classify query) as [id|url|q].
  - unfold bind at 1. rewrite (get_details_url_run _ st C).
    destruct (match ydl_extract_info W _ _ _ with Some _ => _ | None => _ end) as [vd|];
      [|discriminate].
    destruct (negb (val_truthy (vd_id vd))); [discriminate|].
    unfold bind.
    destruct (get_stream_url W _ _ None _) as [path st2] eqn:G.
    destruct (truthy path) eqn:T; cbn [negb]; [|discriminate].
    unfold ret. intros EQ. apply pair_equal_spec in EQ. destruct EQ as [E <-]. eauto 10.
  - unfold bind at 1. rewrite (get_details_url_run _ st C).
    destruct (match ydl_extract_info W _ _ _ with Some _ => _ | None => _ end) as [vd|];
      [|discriminate].
    destruct (negb (val_truthy (vd_id vd))); [discriminate|].
    unfold bind.
    destruct (get_stream_url W _ _ None _) as [path st2] eqn:G.
    destruct (truthy path) eqn:T; cbn [negb]; [|discriminate].
    unfold ret. intros EQ. apply pair_equal_spec in EQ. destruct EQ as [E <-]. eauto 10.
  - unfold bind at 1. rewrite search_videos_run.
    destruct (pystr_eqb (lower q) `"295").
    + unfold bind.
      destruct (get_stream_url W _ _ None st) as [path st2] eqn:G.
      destruct (truthy path) eqn:T; cbn [negb]; [|discriminate].
      unfold ret. intros EQ. apply pair_equal_spec in EQ. destruct EQ as [E <-].
      exists HARDCODED_295, (vd_link HARDCODED_295), [], path.
      replace (add_calls [] st) with st by (destruct st; reflexivity). auto.
    + cbv zeta.
      destruct (match ydl_search W _ _ with Some _ => _ | None => _ end) as [|vd rest];
        [discriminate|].
      unfold bind.
      destruct (get_stream_url W _ _ None _) as [path st2] eqn:G.
      destruct (truthy path) eqn:T; cbn [negb]; [|discriminate].
      unfold ret. intros EQ. apply pair_equal_spec in EQ. destruct EQ as [E <-]. eauto 10.
Qed.

End Runs.

Section HandlerFacts.

Variable W : World.

Lemma get_stream_url_frame url is_video vid st :
  api_keys (snd (get_stream_url W url is_video vid st)) = api_keys st
  /\ api_logs (snd (get_stream_url W url is_video vid st)) = api_logs st
  /\ upstream (snd (get_stream_url W url is_video vid st))
     = CallExtract (normalize_url url vid) (stream_format is_video) :: upstream st.
Proof.
  rewrite get_stream_url_run. cbv zeta.
  destruct (ydl_extract_info W _ _ _) as [info|]; [|repeat split].
  destruct (select_stream_url info is_video); repeat split.
Qed.

(** X3. [get_stream_url] sends exactly one extraction call and leaves
    the key table alone. When it fails (empty answer) the cache, the
    clock and the identifier source are untouched; when it succeeds the
    answer is [/stream/<uuid>], that handle is registered for the mode
    asked with an expiry 3600 seconds after the one clock reading taken,
    and no other cache entry changes. *)
Theorem get_stream_url_contract (url : pystr) (is_video : bool)
        (vid : option pystr) (st : State) :
  let path := fst (get_stream_url W url is_video vid st) in
  let st1 := snd (get_stream_url W url is_video vid st) in
  let key := STREAM_PREFIX ++ uuid4 W (uuids_drawn st) in
  api_keys st1 = api_keys st
  /\ api_logs st1 = api_logs st
  /\ upstream st1
     = CallExtract (normalize_url url vid) (stream_format is_video) :: upstream st
  /\ ((path = [] /\ cache st1 = cache st /\ uuids_drawn st1 = uuids_drawn st
       /\ clock_reads st1 = clock_reads st)
      \/ (path = `"/stream/" ++ uuid4 W (uuids_drawn st)
          /\ (exists upstream_url,
                 dict_get key (cache st1)
                 = Some (CStream upstream_url is_video
                                 (clock W (clock_reads st) + 3600 * SECOND)))
          /\ (forall k, k <> key -> dict_get k (cache st1) = dict_get k (cache st))
          /\ uuids_drawn st1 = S (uuids_drawn st)
          /\ clock_reads st1 = S (clock_reads st))).
Proof.
  cbv zeta. destruct (get_stream_url_frame url is_video vid st) as (K & L & U).
  split; [exact K|]. split; [exact L|]. split; [exact U|].
  rewrite get_stream_url_run. cbv zeta.
  destruct (ydl_extract_info W _ _ _) as [info|]; [|left; repeat split].
  destruct (select_stream_url info is_video) as [u|]; [|left; repeat split].
  right. cbn [fst snd registered cache uuids_drawn clock_reads].
  split; [reflexivity|]. split; [exists u; apply dict_get_set_same|].
  split; [|split; reflexivity].
  intros k N. apply dict_get_set_other. congruence.
Qed.

Lemma required_api_key_ok_state func req st body st' :
  required_api_key W func req st = (RespOk body, st') ->
  exists st0, func req st0 = (RespOk body, st').
Proof.
  unfold required_api_key.
  destruct (nonempty (arg_api_key req)) as [k|]; [|discriminate].
  unfold bind at 1. cbn [get_keys].
  destruct (find_key k (api_keys st)) as [row|]; [|discriminate].
  unfold bind at 1. destruct (time_time W st) as [now s1].
  destruct (is_expired now row); [discriminate|].
  unfold bind at 1. destruct (time_time W s1) as [now' s2].
  destruct (remaining_requests now' row <=? 0); [discriminate|].
  unfold bind at 1. destruct (log_api_request W k req s2) as [u s3].
  intros H. eauto.
Qed.

Lemma rstrip_slash_spec s :
  exists slashes, s = rstrip_slash s ++ slashes
                  /\ forallb (fun c => chr_eqb c "/") slashes = true
                  /\ last (rstrip_slash s) "a"%char <> "/"%char.
Proof.
  unfold rstrip_slash.
  set (drop := fix drop (l : pystr) : pystr :=
         match l with
         | c :: l' => if chr_eqb c "/" then drop l' else l
         | [] => []
         end).
  assert (D : forall l, exists sl, l = sl ++ drop l
                                   /\ forallb (fun c => chr_eqb c "/") sl = true
                                   /\ hd "a"%char (drop l) <> "/"%char).
  { induction l as [|c l IH]; simpl.
    - exists []. repeat split. discriminate.
    - destruct (chr_eqb c "/") eqn:E.
      + destruct IH as (sl & E1 & F & H). exists (c :: sl). simpl.
        rewrite E, F. repeat split; auto. now f_equal.
      + exists []. repeat split. simpl. intros ->. discriminate. }
  destruct (D (rev s)) as (sl & E & F & H).
  exists (rev sl). split; [|split].
  - rewrite <- rev_app_distr, <- E. symmetry. apply rev_involutive.
  - rewrite forallb_forall in *. intros c I. apply F. now apply in_rev.
  - destruct (drop (rev s)) as [|c l]; simpl in *; [discriminate|].
    now rewrite last_last.
Qed.

(** X4. A 200 from [/youtube] can be played at once. Its [stream_url] is
    the host URL without trailing slashes followed by [/stream/<id>]; the
    handle [<id>] is in the registry in the mode the request asked for,
    and [stream_type] says the same mode; [/stream/<id>] then relays the
    registered upstream URL with the matching content type (or answers
    500 when the platform handed out an empty URL). *)
Theorem youtube_stream_url_resolves (lucky : bool) (req : Request)
        (st st' : State) (body : YoutubeBody) :
  serve_youtube W lucky req st = (RespOk body, st') ->
  exists stream_id upstream_url expires host slashes,
    req_host_url req = host ++ slashes
    /\ forallb (fun c => chr_eqb c "/") slashes = true
    /\ last host "a"%char <> "/"%char
    /\ r_stream_url body = host ++ `"/stream/" ++ stream_id
    /\ r_stream_type body = (if wants_video req then `"Video" else `"Audio")
    /\ dict_get (STREAM_PREFIX ++ stream_id) (cache st')
       = Some (CStream upstream_url (wants_video req) expires)
    /\ forall req',
         stream_media req' stream_id st'
         = (if truthy upstream_url
            then RespStream upstream_url
                            (if wants_video req then `"video/mp4" else `"audio/mp4")
                            (match req_range req' with Some r => r | None => `"bytes=0-" end)
            else RespError 500 `"Invalid stream URL", st').
Proof.
  intros H. unfold serve_youtube, youtube_route in H. unfold bind at 1 in H.
  destruct (before_request W lucky st) as [u st0].
  apply required_api_key_ok_state in H. destruct H as (sa & H).
  apply youtube_ok_run in H. destruct H as (vd & url & calls & path & G & T & F).
  destruct (get_stream_url_registers W _ _ _ _ _ _ G T) as (up & -> & D & _).
  destruct (rstrip_slash_spec (req_host_url req)) as (sl & E & Fs & Hl).
  unfold format_response in F.
  destruct (views_of (vd_views vd)) as [e|views]; [discriminate|].
  injection F as <-. cbn [r_stream_url r_stream_type].
  exists (uuid4 W (uuids_drawn (add_calls calls sa))), up,
         (clock W (clock_reads (add_calls calls sa)) + 3600 * SECOND),
         (rstrip_slash (req_host_url req)), sl.
  repeat split; auto.
  intros req'. unfold stream_media, bind, get_cache, ret. rewrite D.
  destruct (truthy up); reflexivity.
Qed.

End HandlerFacts.

Section HandlerBounds.

Variable W : World.

Lemma handler_frame_refl st : handler_frame st st.
Proof. repeat split. exists []. repeat split. simpl. lia. Qed.

Lemma handler_frame_calls cs st :
  (length cs <= 2)%nat -> forallb (fun c => negb (is_videos_search c)) cs = true ->
  handler_frame st (add_calls cs st).
Proof. intros L F. repeat split. exists cs. auto. Qed.

Lemma handler_frame_stream cs url v st path st' :
  (length cs <= 1)%nat -> forallb (fun c => negb (is_videos_search c)) cs = true ->
  get_stream_url W url v None (add_calls cs st) = (path, st') ->
  handler_frame st st'.
Proof.
  intros L F G.
  destruct (get_stream_url_frame W url v None (add_calls cs st)) as (K & Lg & U).
  rewrite G in K, Lg, U. cbn [snd] in K, Lg, U.
  split; [exact K|]. split; [exact Lg|].
  exists (CallExtract (normalize_url url None) (stream_format v) :: cs).
  rewrite U. cbn [add_calls upstream]. repeat split.
  - simpl. lia.
  - simpl. exact F.
Qed.

Lemma format_response_status req vd path v : handler_status (format_response req vd path v).
Proof.
  unfold format_response. destruct (views_of (vd_views vd)); simpl; auto.
Qed.

Lemma youtube_run_bounds req st :
  handler_status (fst (youtube W req st)) /\ handler_frame st (snd (youtube W req st)).
Proof.
  unfold youtube. fold (wants_video req).
  destruct (nonempty (arg_query req)) as [query|];
    [|split; [simpl; auto|apply handler_frame_refl]].
  pose proof (classify_url_cases query) as C.
  assert (D : forall c, is_youtube_url (video_url_of c) = true ->
            handler_status (fst
              ((video_details <- get_details W (video_url_of c);;
                match video_details with
                | Some vd =>
                    if negb (val_truthy (vd_id vd))
                    then ret (RespError 404 `"No video found")
                    else
                      stream_url <- get_stream_url W (video_url_of c) (wants_video req) None;;
                      (if negb (truthy stream_url)
                       then ret (RespError 500 `"Failed to get stream URL")
                       else ret (format_response req vd stream_url (wants_video req)))
                | None => ret (RespError 404 `"No video found")
                end) st))
            /\ handler_frame st (snd
              ((video_details <- get_details W (video_url_of c);;
                match video_details with
                | Some vd =>
                    if negb (val_truthy (vd_id vd))
                    then ret (RespError 404 `"No video found")
                    else
                      stream_url <- get_stream_url W (video_url_of c) (wants_video req) None;;
                      (if negb (truthy stream_url)
                       then ret (RespError 500 `"Failed to get stream URL")
                       else ret (format_response req vd stream_url (wants_video req)))
                | None => ret (RespError 404 `"No video found")
                end) st))).
  { intros c U. unfold bind at 1 3. rewrite (get_details_url_run W _ st U).
    destruct (match ydl_extract_info W _ _ _ with Some _ => _ | None => _ end) as [vd|].
    - destruct (negb (val_truthy (vd_id vd))).
      + split; [simpl; auto|]. apply handler_frame_calls; [simpl; lia|reflexivity].
      + unfold bind.
        destruct (get_stream_url W _ _ None _) as [path st2] eqn:G.
        assert (Fr : handler_frame st st2).
        { eapply handler_frame_stream; [| |exact G]; [simpl; lia|reflexivity]. }
        destruct (negb (truthy path)); split; simpl; auto using format_response_status.
    - split; [simpl; auto|]. apply handler_frame_calls; [simpl; lia|reflexivity]. }
  destruct (classify query) as [id|url|q]; [apply D, C|apply D, C|].
  unfold bind at 1 3. rewrite search_videos_run.
  destruct (pystr_eqb (lower q) `"295").
  - unfold bind.
    replace st with (add_calls [] st) at 1 3 by (destruct st; reflexivity).
    destruct (get_stream_url W _ _ None _) as [path st2] eqn:G.
    assert (Fr : handler_frame st st2).
    { eapply handler_frame_stream; [| |exact G]; [simpl; lia|reflexivity]. }
    destruct (negb (truthy path)); split; simpl; auto using format_response_status.
  - cbv zeta.
    destruct (match ydl_search W _ _ with Some _ => _ | None => _ end) as [|vd rest].
    + split; [simpl; auto|]. apply handler_frame_calls; [simpl; lia|reflexivity].
    + unfold bind.
      destruct (get_stream_url W _ _ None _) as [path st2] eqn:G.
      assert (Fr : handler_frame st st2).
      { eapply handler_frame_stream; [| |exact G]; [simpl; lia|reflexivity]. }
      destruct (negb (truthy path)); split; simpl; auto using format_response_status.
Qed.

(** X5. Whatever the query and whatever the platform answers, [youtube]
    answers 200, 400, 404 or 500 and never a relayed stream; it sends at
    most two calls upstream, none of them the [VideosSearch] text search
    of [get_details], and it changes neither the key table nor the
    request log. Without a query it answers 400 and changes nothing. *)
Theorem youtube_bounded_work (req : Request) (st : State) :
  let r := fst (youtube W req st) in
  let st' := snd (youtube W req st) in
  (status_of r = 200 \/ status_of r = 400 \/ status_of r = 404 \/ status_of r = 500)
  /\ (forall u t g, r <> RespStream u t g)
  /\ api_keys st' = api_keys st
  /\ api_logs st' = api_logs st
  /\ (exists calls,
        upstream st' = calls ++ upstream st
        /\ (length calls <= 2)%nat
        /\ forallb (fun c => negb (is_videos_search c)) calls = true)
  /\ (nonempty (arg_query req) = None ->
      youtube W req st = (RespError 400 `"Query parameter is required", st)).
Proof.
  cbv zeta. destruct (youtube_run_bounds req st) as [S (K & L & C)].
  split; [|split; [|split; [exact K|split; [exact L|split; [exact C|]]]]].
  - destruct (fst (youtube W req st)); simpl in *; intuition.
  - intros u t g E. rewrite E in S. exact S.
  - intros Q. unfold youtube. now rewrite Q.
Qed.

End HandlerBounds.

(* ===================================================================== *)
(** * Quota accounting *)
(* ===================================================================== *)

Section Quota.

Variable W : World.

Lemma find_key_key k keys row : find_key k keys = Some row -> ak_key row = k.
Proof.
  unfold find_key. intros F. apply find_some in F. destruct F as [_ E].
  now apply pystr_eqb_eq in E.
Qed.

Lemma find_key_commit k keys row row' :
  find_key k keys = Some row -> ak_key row' = k -> ak_id row' = ak_id row ->
  find_key k (map (fun r => if ak_id r =? ak_id row' then row' else r) keys) = Some row'.
Proof.
  intros F K I. unfold find_key in *.
  induction keys as [|h keys IH]; simpl in *; [discriminate|].
  destruct (pystr_eqb (ak_key h) k) eqn:E.
  - injection F as ->. rewrite I, Z.eqb_refl, K, pystr_eqb_refl. reflexivity.
  - destruct (ak_id h =? ak_id row') eqn:J.
    + now rewrite K, pystr_eqb_refl.
    + rewrite E. auto.
Qed.

Lemma bump_usage_id now row : ak_id (bump_usage now row) = ak_id row.
Proof. unfold bump_usage. destruct (ak_reset_at row <? now); reflexivity. Qed.

Lemma bump_usage_key now row : ak_key (bump_usage now row) = ak_key row.
Proof. unfold bump_usage. destruct (ak_reset_at row <? now); reflexivity. Qed.

Lemma required_api_key_admits func req st k row :
  nonempty (arg_api_key req) = Some k ->
  find_key k (api_keys st) = Some row ->
  clock W (clock_reads st) <= ak_valid_until row ->
  0 < remaining_requests (clock W (S (clock_reads st))) row ->
  required_api_key W func req st = func req (charged W row req st).
Proof.
  intros K F E R. unfold required_api_key. rewrite K.
  unfold bind at 1. cbn [get_keys]. rewrite F.
  unfold bind at 1. rewrite time_time_run. unfold is_expired.
  destruct (Z.ltb_spec (ak_valid_until row) (clock W (clock_reads st))); [lia|].
  unfold bind at 1. rewrite time_time_run. cbn [tick clock_reads].
  destruct (Z.leb_spec (remaining_requests (clock W (S (clock_reads st))) row) 0); [lia|].
  unfold bind at 1. unfold log_api_request.
  unfold bind at 1. cbn [get_keys tick api_keys]. rewrite F.
  unfold bind at 1. rewrite time_time_run.
  unfold bind at 1. rewrite time_time_run.
  cbn [tick clock_reads commit_usage]. unfold charged. cbn [tick].
  rewrite bump_usage_id. reflexivity.
Qed.

Lemma charged_find k row req st :
  find_key k (api_keys st) = Some row ->
  find_key k (api_keys (charged W row req st))
  = Some (bump_usage (clock W (S (S (clock_reads st)))) row).
Proof.
  intros F. unfold charged. cbn [api_keys].
  apply find_key_commit with (row := row); [exact F| |apply bump_usage_id].
  rewrite bump_usage_key. now apply find_key_key with (keys := api_keys st).
Qed.

(** X6. An admitted request is charged before the handler runs: the
    handler starts with the key's counter one higher (within the same
    day's window, so one request fewer is left) and with exactly one new
    log row, which already says status 200. *)
Theorem admitted_request_is_charged (func : Request -> M Response)
        (req : Request) (st : State) (k : pystr) (row : ApiKey) :
  nonempty (arg_api_key req) = Some k ->
  find_key k (api_keys st) = Some row ->
  clock W (clock_reads st) <= ak_valid_until row ->
  0 < remaining_requests (clock W (S (clock_reads st))) row ->
  clock W (S (S (clock_reads st))) <= ak_reset_at row ->
  exists st0 row' entry,
    required_api_key W func req st = func req st0
    /\ find_key k (api_keys st0) = Some row'
    /\ ak_count row' = ak_count row + 1
    /\ ak_reset_at row' = ak_reset_at row
    /\ (forall now, now <= ak_reset_at row ->
          remaining_requests now row' = remaining_requests now row - 1)
    /\ api_logs st0 = api_logs st ++ [entry]
    /\ al_api_key_id entry = ak_id row
    /\ al_query entry = arg_query req
    /\ al_response_status entry = 200
    /\ cache st0 = cache st /\ upstream st0 = upstream st.
Proof.
  intros K F E R In_window.
  exists (charged W row req st),
         (bump_usage (clock W (S (S (clock_reads st)))) row),
         (mkApiLog (ak_id row) (req_endpoint req) (arg_query req) (req_remote_addr req)
                   (clock W (S (S (S (clock_reads st))))) 200).
  split; [now apply (required_api_key_admits func req st k)|].
  split; [now apply (charged_find k)|].
  unfold bump_usage.
  destruct (Z.ltb_spec (ak_reset_at row) (clock W (S (S (clock_reads st))))); [lia|].
  cbn. repeat split.
  intros now Hn. unfold remaining_requests. cbn.
  destruct (Z.ltb_spec (ak_reset_at row) now); lia.
Qed.

Lemma youtube_not_limit req st : fst (youtube W req st) <> LIMIT_EXCEEDED.
Proof.
  destruct (youtube_run_bounds W req st) as [S _]. intros E. rewrite E in S.
  simpl in S. lia.
Qed.

Lemma serve_all_length reqs : forall st,
  length (fst (serve_all W reqs st)) = length reqs.
Proof.
  induction reqs as [|req reqs IH]; intros st; [reflexivity|].
  cbn [serve_all]. unfold bind.
  destruct (youtube_route W req st) as [r s1].
  specialize (IH s1). destruct (serve_all W reqs s1) as [rs s2].
  simpl in *. now rewrite IH.
Qed.

Lemma serve_all_cons req reqs st :
  serve_all W (req :: reqs) st
  = (fst (youtube_route W req st)
       :: fst (serve_all W reqs (snd (youtube_route W req st))),
     snd (serve_all W reqs (snd (youtube_route W req st)))).
Proof.
  cbn [serve_all]. unfold bind.
  destruct (youtube_route W req st) as [r s1]. cbn [fst snd].
  destruct (serve_all W reqs s1) as [rs s2]. reflexivity.
Qed.

(** X7. The daily limit is enforced exactly. While neither the key's
    expiry nor the end of its window is reached, of any run of requests
    made with that key the first [daily_limit - count] are let through
    to the handler, whatever it answers, and every later one is refused
    with 429. *)
Theorem daily_limit_is_exact (k : pystr) (reqs : list Request) :
  forall (st : State) (row : ApiKey),
    (forall req, In req reqs -> nonempty (arg_api_key req) = Some k) ->
    find_key k (api_keys st) = Some row ->
    (forall n, clock W n <= ak_valid_until row) ->
    (forall n, clock W n <= ak_reset_at row) ->
    let quota := Z.to_nat (ak_daily_limit row - ak_count row) in
    let answers := fst (serve_all W reqs st) in
    length answers = length reqs
    /\ Forall (fun r => r <> LIMIT_EXCEEDED) (firstn quota answers)
    /\ Forall (fun r => r = LIMIT_EXCEEDED) (skipn quota answers).
Proof.
  induction reqs as [|req reqs IH]; intros st row K F V Rw; cbv zeta.
  - split; [reflexivity|]. rewrite firstn_nil, skipn_nil. split; constructor.
  - split; [apply serve_all_length|].
    assert (Kr : nonempty (arg_api_key req) = Some k) by (apply K; now left).
    assert (Rem : forall n, remaining_requests (clock W n) row
                            = ak_daily_limit row - ak_count row).
    { intros n. unfold remaining_requests.
      destruct (Z.ltb_spec (ak_reset_at row) (clock W n)); [|reflexivity].
      specialize (Rw n). lia. }
    rewrite serve_all_cons. cbn [fst]. unfold youtube_route.
    destruct (Z.lt_ge_cases 0 (ak_daily_limit row - ak_count row)) as [Pos|Neg].
    + rewrite (required_api_key_admits (youtube W) req st k row Kr F (V _))
        by (rewrite Rem; exact Pos).
      pose proof (youtube_not_limit req (charged W row req st)) as NL.
      destruct (youtube_run_bounds W req (charged W row req st)) as [_ (Ky & _)].
      destruct (youtube W req (charged W row req st)) as [r s1].
      cbn [fst snd] in NL, Ky.
      pose proof (charged_find k row req st F) as F1. rewrite <- Ky in F1.
      set (row' := bump_usage (clock W (S (S (clock_reads st)))) row) in *.
      assert (B : ak_valid_until row' = ak_valid_until row
                  /\ ak_reset_at row' = ak_reset_at row
                  /\ ak_daily_limit row' = ak_daily_limit row
                  /\ ak_count row' = ak_count row + 1).
      { subst row'. unfold bump_usage.
        destruct (Z.ltb_spec (ak_reset_at row) (clock W (S (S (clock_reads st)))));
          [specialize (Rw (S (S (clock_reads st)))); lia|].
        cbn. auto. }
      destruct B as (B1 & B2 & B3 & B4).
      destruct (IH s1 row') as (_ & A1 & A2); auto.
      { intros q Hq. apply K. now right. }
      { intros n. rewrite B1. apply V. }
      { intros n. rewrite B2. apply Rw. }
      cbn [fst snd]. rewrite B3, B4 in A1, A2.
      replace (Z.to_nat (ak_daily_limit row - ak_count row))
        with (S (Z.to_nat (ak_daily_limit row - (ak_count row + 1)))) by lia.
      cbn [firstn skipn]. split; [constructor; assumption|exact A2].
    + destruct (required_api_key_rejects W (youtube W) req st) as (_ & _ & _ & R4).
      rewrite (R4 k row Kr F (V _)) by (rewrite Rem; lia).
      destruct (IH (tick (tick st)) row) as (_ & A1 & A2); auto.
      { intros q Hq. apply K. now right. }
      cbn [fst snd].
      replace (Z.to_nat (ak_daily_limit row - ak_count row)) with 0%nat in * by lia.
      cbn [firstn skipn] in *. split; [constructor|]. constructor; [reflexivity|exact A2].
Qed.

(** X8. Once the reset instant of a key has passed, the stale counter no
    longer matters: the key is let through if its daily limit is
    positive, and the handler starts with the counter back at 1 and the
    next reset one day after the instant at which the request was
    logged. *)
Theorem window_reset_restarts_counter (func : Request -> M Response)
        (req : Request) (st : State) (k : pystr) (row : ApiKey) :
  nonempty (arg_api_key req) = Some k ->
  find_key k (api_keys st) = Some row ->
  clock W (clock_reads st) <= ak_valid_until row ->
  ak_reset_at row < clock W (S (clock_reads st)) ->
  ak_reset_at row < clock W (S (S (clock_reads st))) ->
  0 < ak_daily_limit row ->
  exists st0 row',
    required_api_key W func req st = func req st0
    /\ find_key k (api_keys st0) = Some row'
    /\ ak_count row' = 1
    /\ ak_reset_at row' = clock W (S (S (clock_reads st))) + DAY
    /\ ak_daily_limit row' = ak_daily_limit row
    /\ ak_valid_until row' = ak_valid_until row.
Proof.
  intros K F E R1 R2 L.
  exists (charged W row req st), (bump_usage (clock W (S (S (clock_reads st)))) row).
  split.
  - apply (required_api_key_admits func req st k); auto. unfold remaining_requests.
    destruct (Z.ltb_spec (ak_reset_at row) (clock W (S (clock_reads st)))); lia.
  - split; [now apply (charged_find k)|]. unfold bump_usage.
    destruct (Z.ltb_spec (ak_reset_at row) (clock W (S (S (clock_reads st))))); [|lia].
    cbn. auto.
Qed.

End Quota.

(* ===================================================================== *)
(** * The admin gate *)
(* ===================================================================== *)

Section AdminGate.

Variable W : World.

(** X9. The admin gate. A request reaches an admin handler only with a
    stored, unexpired key flagged admin; a missing key is answered 401,
    an unknown or ordinary key 403 (however valid and unspent it is), and
    an expired admin key 401. When [api_key] is given, [admin_key] is not
    looked at. Unlike the user gate, the admin gate neither counts the
    request against the daily limit nor logs it, and an admin key with no
    requests left is still let through. *)
Theorem admin_gate_spec (arg_admin_key : option pystr)
        (func : Request -> M Response) (req : Request) (st : State) :
  let run := required_admin_key W arg_admin_key func req st in
  let given := match nonempty (arg_api_key req) with
               | Some k => Some k
               | None => nonempty arg_admin_key
               end in
  (given = None -> run = (RespError 401 `"Admin API key is required", st))
  /\ (forall k, given = Some k -> find_key k (api_keys st) = None ->
        run = (RespError 403 `"Invalid admin API key", st))
  /\ (forall k row, given = Some k -> find_key k (api_keys st) = Some row ->
        ak_is_admin row = false ->
        run = (RespError 403 `"Invalid admin API key", st))
  /\ (forall k row, given = Some k -> find_key k (api_keys st) = Some row ->
        ak_is_admin row = true ->
        ak_valid_until row < clock W (clock_reads st) ->
        run = (RespError 401 `"API key has expired", tick st))
  /\ (forall k row, given = Some k -> find_key k (api_keys st) = Some row ->
        ak_is_admin row = true ->
        clock W (clock_reads st) <= ak_valid_until row ->
        run = func req (tick st))
  /\ (forall other, nonempty (arg_api_key req) <> None ->
        required_admin_key W other func req st = run).
Proof.
  cbv zeta. unfold required_admin_key.
  assert (NN : forall o : option pystr, nonempty (nonempty o) = nonempty o).
  { intros [[|c s]|]; reflexivity. }
  assert (NS : forall (o : option pystr) k, nonempty o = Some k -> nonempty (Some k) = Some k).
  { intros [[|c s]|] k; try discriminate. intros [= <-]. reflexivity. }
  assert (G : nonempty (match nonempty (arg_api_key req) with
                        | Some k => Some k
                        | None => arg_admin_key
                        end)
              = match nonempty (arg_api_key req) with
                | Some k => Some k
                | None => nonempty arg_admin_key
                end).
  { destruct (nonempty (arg_api_key req)) eqn:E; [|reflexivity]. now apply NS in E. }
  rewrite G. clear G.
  repeat match goal with |- _ /\ _ => split end.
  - intros ->. reflexivity.
  - intros k -> F. unfold bind. cbn [get_keys]. now rewrite F.
  - intros k row -> F A. unfold bind. cbn [get_keys]. now rewrite F, A.
  - intros k row -> F A E. unfold bind. cbn [get_keys]. rewrite F, A. cbn [negb].
    rewrite time_time_run. unfold is_expired.
    destruct (Z.ltb_spec (ak_valid_until row) (clock W (clock_reads st))); [reflexivity|lia].
  - intros k row -> F A E. unfold bind. cbn [get_keys]. rewrite F, A. cbn [negb].
    rewrite time_time_run. unfold is_expired.
    destruct (Z.ltb_spec (ak_valid_until row) (clock W (clock_reads st))); [lia|reflexivity].
  - intros other N. destruct (nonempty (arg_api_key req)) eqn:E; [|congruence].
    rewrite (NS _ _ E). reflexivity.
Qed.

End AdminGate.

(* ===================================================================== *)
(** * The shared cache: sweep, wrapper and key space *)
(* ===================================================================== *)

Section DictFilter.

Context {V : Type}.

Lemma dict_get_absent k (d : dict V) :
  ~ In k (map fst d) -> dict_get k d = None.
Proof.
  induction d as [|[k0 v0] d IH]; simpl; [reflexivity|]. intros N.
  rewrite pystr_eqb_neq; [apply IH; tauto|]. intros ->. tauto.
Qed.

Lemma filter_keys_incl (P : pystr * V -> bool) (d : dict V) k :
  In k (map fst (filter P d)) -> In k (map fst d).
Proof.
  intros I. apply in_map_iff in I. destruct I as [[k0 v0] [E I]].
  apply filter_In in I. destruct I as [I _]. apply in_map_iff. now exists (k0, v0).
Qed.

Lemma filter_keys_nodup (P : pystr * V -> bool) (d : dict V) :
  NoDup (map fst d) -> NoDup (map fst (filter P d)).
Proof.
  induction d as [|[k0 v0] d IH]; simpl; [auto|]. intros N.
  inversion N as [|? ? N1 N2]; subst.
  destruct (P (k0, v0)); simpl; [|auto].
  constructor; [|auto]. intros I. apply N1. now apply filter_keys_incl in I.
Qed.

Lemma dict_get_filter_iff (P : pystr * V -> bool) (d : dict V) k v :
  NoDup (map fst d) ->
  dict_get k (filter P d) = Some v <-> dict_get k d = Some v /\ P (k, v) = true.
Proof.
  intros N. split; [|intros [D Pv]; now apply dict_get_filter].
  induction d as [|[k0 v0] d IH]; simpl; [discriminate|].
  inversion N as [|? ? N1 N2]; subst.
  destruct (pystr_eqb k k0) eqn:E.
  - apply pystr_eqb_eq in E. subst k0.
    destruct (P (k, v0)) eqn:Pv; simpl.
    + rewrite pystr_eqb_refl. intros [= ->]. auto.
    + intros D. exfalso. apply N1. apply filter_keys_incl with (P := P).
      apply dict_get_in in D. apply in_map_iff. now exists (k, v).
  - destruct (P (k0, v0)); simpl; [rewrite E|]; auto.
Qed.

End DictFilter.

Section Sweep.

Variable W : World.

(** X10. The sweep of [cleanup_old_files] removes exactly what is out of
    date at the one clock reading it takes: a stored result stays when
    its age is at most [CACHE_TIMEOUT], a stream handle stays when its
    expiry is not in the past, both with their values; keys, request log
    and upstream log are not touched. A request for a handle whose expiry
    has passed, when the sweep runs first, is answered 404. *)
Theorem sweep_removes_exactly_the_stale (st : State) :
  NoDup (map fst (cache st)) ->
  let now := clock W (clock_reads st) in
  let st' := snd (cleanup_old_files W st) in
  (forall k result ts,
      dict_get k (cache st') = Some (CResult result ts)
      <-> dict_get k (cache st) = Some (CResult result ts) /\ now - ts <= CACHE_TIMEOUT)
  /\ (forall k url is_video expires,
        dict_get k (cache st') = Some (CStream url is_video expires)
        <-> dict_get k (cache st) = Some (CStream url is_video expires) /\ now <= expires)
  /\ NoDup (map fst (cache st'))
  /\ api_keys st' = api_keys st /\ api_logs st' = api_logs st
  /\ upstream st' = upstream st /\ clock_reads st' = S (clock_reads st)
  /\ (forall req stream_id url is_video expires,
        dict_get (STREAM_PREFIX ++ stream_id) (cache st)
        = Some (CStream url is_video expires) ->
        expires < now ->
        stream_route W true req stream_id st
        = (RespError 404 `"Stream not found or expired", st')).
Proof.
  intros N. cbv zeta.
  unfold cleanup_old_files, bind, get_cache, put_cache. cbn [time_time fst snd cache
    api_keys api_logs upstream clock_reads].
  split; [|split; [|split; [|split; [|split; [|split; [|split]]]]]]; try reflexivity.
  - intros k result ts. rewrite dict_get_filter_iff by exact N.
    unfold keep_entry. cbn [snd].
    destruct (Z.ltb_spec CACHE_TIMEOUT (clock W (clock_reads st) - ts)); cbn [negb];
      intuition (try lia; try discriminate).
  - intros k url is_video expires. rewrite dict_get_filter_iff by exact N.
    unfold keep_entry. cbn [snd].
    destruct (Z.ltb_spec expires (clock W (clock_reads st))); cbn [negb];
      intuition (try lia; try discriminate).
  - now apply filter_keys_nodup.
  - intros req stream_id url is_video expires D E.
    unfold stream_route, before_request, cleanup_old_files, stream_media, bind,
      get_cache, put_cache, ret. cbn [time_time fst snd cache].
    destruct (dict_get (STREAM_PREFIX ++ stream_id)
                (filter (keep_entry (clock W (clock_reads st))) (cache st)))
      as [v|] eqn:G; [|reflexivity].
    exfalso. apply dict_get_filter_iff in G; [|exact N]. destruct G as [G K].
    rewrite D in G. injection G as <-. unfold keep_entry in K. cbn [snd] in K.
    destruct (Z.ltb_spec expires (clock W (clock_reads st))); [discriminate|lia].
Qed.

End Sweep.

Section WrapperFacts.

Variable W : World.

Lemma hex_chr_hex d : (d < 16)%N -> is_hex (hex_chr d) = true.
Proof.
  intros L.
  assert (A : forallb (fun n => is_hex (hex_chr (N.of_nat n))) (seq 0 16) = true)
    by reflexivity.
  rewrite forallb_forall in A. specialize (A (N.to_nat d)).
  rewrite N2Nat.id in A. apply A. apply in_seq. lia.
Qed.

Lemma hex2_shape b : 0 <= b < 256 -> forallb is_hex (hex2 (Z.to_N b)) = true.
Proof.
  intros R. unfold hex2. cbn [forallb].
  rewrite !hex_chr_hex; [reflexivity| |].
  - apply N.mod_lt. discriminate.
  - apply N.Div0.div_lt_upper_bound. lia.
Qed.

Lemma le_bytes_range n : forall v, Forall (fun b => 0 <= b < 256) (MD5.le_bytes n v).
Proof.
  induction n as [|n IH]; intros v; simpl; constructor; [|apply IH].
  apply Z.mod_pos_bound. lia.
Qed.

Lemma le_bytes_length n : forall v, length (MD5.le_bytes n v) = n.
Proof. induction n as [|n IH]; intros v; simpl; [reflexivity|now rewrite IH]. Qed.

Lemma hexdigest_shape (bs : list Z) :
  Forall (fun b => 0 <= b < 256) bs ->
  length (flat_map (fun b => hex2 (Z.to_N b)) bs) = (2 * length bs)%nat
  /\ forallb is_hex (flat_map (fun b => hex2 (Z.to_N b)) bs) = true.
Proof.
  induction 1 as [|b bs R _ [IH1 IH2]]; [split; reflexivity|].
  cbn [flat_map]. split.
  - rewrite length_app, IH1. cbn [hex2 length]. lia.
  - rewrite forallb_app, IH2, hex2_shape by exact R. reflexivity.
Qed.

Lemma md5_hexdigest_shape data :
  length (md5_hexdigest data) = 32%nat /\ forallb is_hex (md5_hexdigest data) = true.
Proof.
  unfold md5_hexdigest, MD5.digest.
  set (r := fold_left MD5.block _ MD5.INIT).
  destruct (hexdigest_shape
              (MD5.le_bytes 4 (MD5.rA r) ++ MD5.le_bytes 4 (MD5.rB r)
               ++ MD5.le_bytes 4 (MD5.rC r) ++ MD5.le_bytes 4 (MD5.rD r))) as [L H].
  - repeat (apply Forall_app; split); apply le_bytes_range.
  - split; [|exact H]. rewrite L, !length_app, !le_bytes_length. reflexivity.
Qed.

Lemma cache_key_not_stream func_name args kwargs stream_id :
  generate_cache_key func_name args kwargs <> STREAM_PREFIX ++ stream_id.
Proof.
  unfold generate_cache_key. intros E.
  destruct (md5_hexdigest_shape (utf8_encode (cache_key_data func_name args kwargs)))
    as [_ H].
  rewrite E in H. discriminate H.
Qed.

(** X11. The cache keys of the [cached] wrapper and the keys of stream
    handles never meet: a cache key is 32 characters out of
    [0-9a-f], whatever the function name and the arguments, and so is
    never a [stream:<id>] key. *)
Theorem cache_key_space (func_name : pystr) (args : list PyVal)
        (kwargs : list (pystr * PyVal)) :
  length (generate_cache_key func_name args kwargs) = 32%nat
  /\ forallb is_hex (generate_cache_key func_name args kwargs) = true
  /\ forall stream_id,
       generate_cache_key func_name args kwargs <> STREAM_PREFIX ++ stream_id.
Proof.
  destruct (md5_hexdigest_shape (utf8_encode (cache_key_data func_name args kwargs)))
    as [L H].
  split; [exact L|]. split; [exact H|]. intros stream_id. apply cache_key_not_stream.
Qed.

(** X12. The wrapper never hands out a value that is out of date: when a
    call returns a value, either that value was stored under the call's
    key less than [timeout] before the call's clock reading and nothing
    else happened, or the wrapped function ran in this call and returned
    it. *)
Theorem cached_value_is_fresh (timeout : Z) (func_name : pystr)
        (func : list PyVal -> list (pystr * PyVal) -> M (exn + PyVal))
        (args : list PyVal) (kwargs : list (pystr * PyVal))
        (st st' : State) (v : PyVal) :
  cached W timeout func_name func args kwargs st = (inr v, st') ->
  (exists ts,
      dict_get (generate_cache_key func_name args kwargs) (cache st)
      = Some (CResult v ts)
      /\ clock W (clock_reads st) - ts < timeout
      /\ st' = tick st)
  \/ (exists s0 sf,
        (s0 = st \/ s0 = tick st)
        /\ func args kwargs s0 = (inr v, sf)
        /\ clock_reads st' = S (S (clock_reads sf))
        /\ upstream st' = upstream sf).
Proof.
  unfold cached. set (key := generate_cache_key func_name args kwargs).
  assert (C : forall s0 r s1,
    (r0 <- func args kwargs ;;
     match r0 with
     | inl e => ret (inl e)
     | inr result =>
         stored_at <- time_time W ;;
         c <- get_cache ;;
         put_cache (dict_set key (CResult result stored_at) c) ;;;
         current_time <- time_time W ;;
         c' <- get_cache ;;
         let (err, c'') := cached_cleanup timeout current_time (map fst c') c' in
         put_cache c'' ;;;
         match err with
         | Some e => ret (inl e)
         | None => ret (inr result)
         end
     end) s0 = (inr r, s1) ->
    exists sf, func args kwargs s0 = (inr r, sf)
               /\ clock_reads s1 = S (S (clock_reads sf))
               /\ upstream s1 = upstream sf).
  { intros s0 r s1. unfold bind at 1.
    destruct (func args kwargs s0) as [[e|result] sf]; [discriminate|].
    unfold bind, get_cache, put_cache, ret. cbn [time_time fst snd cache clock_reads].
    destruct (cached_cleanup _ _ _ _) as [[e|] c'']; [discriminate|].
    intros EQ. apply pair_equal_spec in EQ. destruct EQ as [E <-].
    injection E as ->. exists sf. cbn. auto. }
  unfold bind at 1. cbn [get_cache].
  destruct (dict_get key (cache st)) as [[result ts|u iv e]|] eqn:D.
  - unfold bind at 1. rewrite time_time_run.
    destruct (Z.ltb_spec (clock W (clock_reads st) - ts) timeout).
    + intros [= -> <-]. left. exists ts. auto.
    + intros R. apply C in R. destruct R as (sf & R). right. exists (tick st), sf. tauto.
  - discriminate.
  - intros R. apply C in R. destruct R as (sf & R). right. exists st, sf. tauto.
Qed.

Lemma cached_cleanup_stream timeout now k url is_video expires keys : forall c,
  In k keys ->
  dict_get k c = Some (CStream url is_video expires) ->
  fst (cached_cleanup timeout now keys c) = Some KeyError
  /\ dict_get k (snd (cached_cleanup timeout now keys c))
     = Some (CStream url is_video expires).
Proof.
  induction keys as [|k0 keys IH]; intros c I D; [destruct I|].
  cbn [cached_cleanup].
  destruct (dict_get k0 c) as [[r t|u v e]|] eqn:E; cbn [fst snd]; auto.
  assert (NE : k0 <> k) by (intros ->; rewrite D in E; discriminate).
  destruct I as [I|I]; [contradiction|].
  apply IH; [exact I|].
  destruct (timeout <? now - t); [|exact D].
  now rewrite dict_get_del_other.
Qed.

(** X13. The wrapper and the stream registry share one dictionary, and
    the wrapper's clean-up loop cannot read a stream handle: whenever a
    call has to compute while any stream handle is registered, the
    wrapped function runs and succeeds but the call raises [KeyError];
    the handle stays registered. *)
Theorem cached_raises_beside_stream_handle (timeout : Z) (func_name : pystr)
        (func : list PyVal -> list (pystr * PyVal) -> M (exn + PyVal))
        (args : list PyVal) (kwargs : list (pystr * PyVal))
        (st sf : State) (result : PyVal)
        (stream_id url : pystr) (is_video : bool) (expires : Z) :
  dict_get (generate_cache_key func_name args kwargs) (cache st) = None ->
  func args kwargs st = (inr result, sf) ->
  dict_get (STREAM_PREFIX ++ stream_id) (cache sf)
  = Some (CStream url is_video expires) ->
  exists st1,
    cached W timeout func_name func args kwargs st = (inl KeyError, st1)
    /\ dict_get (STREAM_PREFIX ++ stream_id) (cache st1)
       = Some (CStream url is_video expires)
    /\ upstream st1 = upstream sf.
Proof.
  intros D Hf Hs. unfold cached.
  set (key := generate_cache_key func_name args kwargs) in *.
  unfold bind at 1. cbn [get_cache]. rewrite D.
  unfold bind at 1. rewrite Hf.
  unfold bind, get_cache, put_cache, ret. cbn [time_time fst snd cache clock_reads].
  set (c' := dict_set key (CResult result (clock W (clock_reads sf))) (cache sf)).
  assert (Hs' : dict_get (STREAM_PREFIX ++ stream_id) c'
               = Some (CStream url is_video expires)).
  { unfold c'. rewrite dict_get_set_other; [exact Hs|]. apply cache_key_not_stream. }
  destruct (cached_cleanup_stream timeout (clock W (S (clock_reads sf)))
              (STREAM_PREFIX ++ stream_id) url is_video expires (map fst c') c')
    as [A B]; [|exact Hs'|].
  { apply dict_get_in in Hs'. apply in_map_iff.
    now exists (STREAM_PREFIX ++ stream_id, CStream url is_video expires). }
  destruct (cached_cleanup timeout (clock W (S (clock_reads sf))) (map fst c') c')
    as [err c''].
  cbn [fst snd] in A, B. subst err. eexists. split; [reflexivity|]. cbn. auto.
Qed.

End WrapperFacts.

(* ===================================================================== *)
(** * Durations *)
(* ===================================================================== *)

Section Durations.

Lemma split_chr_length sep s :
  length (split_chr sep s) = S (length (filter (fun c => chr_eqb c sep) s)).
Proof.
  induction s as [|c s IH]; cbn [split_chr filter]; [reflexivity|].
  destruct (chr_eqb c sep); cbn [length]; [now rewrite IH|].
  destruct (split_chr sep s) as [|part parts]; [discriminate|exact IH].
Qed.

Lemma split_chr_plain sep s :
  existsb (fun c => chr_eqb c sep) s = false -> split_chr sep s = [s].
Proof.
  induction s as [|c s IH]; cbn [split_chr existsb]; [reflexivity|].
  destruct (chr_eqb c sep); [discriminate|]. cbn [orb]. intros E.
  now rewrite (IH E).
Qed.

Lemma split_chr_field sep a b :
  existsb (fun c => chr_eqb c sep) a = false ->
  split_chr sep (a ++ sep :: b) = a :: split_chr sep b.
Proof.
  induction a as [|c a IH]; cbn [split_chr existsb app].
  - intros _. unfold chr_eqb. now rewrite Ascii.eqb_refl.
  - destruct (chr_eqb c sep); [discriminate|]. cbn [orb]. intros E.
    now rewrite (IH E).
Qed.

Lemma digits_no_colon d :
  forallb is_dec d = true -> existsb (fun c => chr_eqb c ":") d = false.
Proof.
  induction d as [|c d IH]; cbn [forallb existsb]; [reflexivity|].
  intros F. apply andb_true_iff in F. destruct F as [Fc Fd].
  rewrite (IH Fd), orb_false_r.
  destruct (chr_eqb c ":") eqn:E; [|reflexivity].
  apply Ascii.eqb_eq in E. subst c. discriminate Fc.
Qed.

(** X14. A clock text reads as seconds: for fields that are non-empty
    runs of decimal digits, [M:S] gives [60*M + S] and [H:M:S] gives
    [3600*H + 60*M + S], whatever the number of digits of a field (so
    [1:75] is 135) and whatever [float] would make of the text; the
    result is not negative. *)
Theorem time_to_seconds_clock_text (float_int : pystr -> option Z)
        (h m s : pystr) :
  clock_field h -> clock_field m -> clock_field s ->
  Duration.time_to_seconds float_int (PStr (m ++ `":" ++ s))
  = dec_value m * 60 + dec_value s
  /\ Duration.time_to_seconds float_int (PStr (h ++ `":" ++ m ++ `":" ++ s))
     = dec_value h * 3600 + dec_value m * 60 + dec_value s
  /\ 0 <= dec_value h /\ 0 <= dec_value m /\ 0 <= dec_value s.
Proof.
  intros Hh Hm Hs.
  pose proof (int_of_str_field h Hh) as Ih.
  pose proof (int_of_str_field m Hm) as Im.
  pose proof (int_of_str_field s Hs) as Is.
  destruct Hh as (Nh & Fh & _), Hm as (Nm & Fm & _), Hs as (Ns & Fs & _).
  assert (T : forall a b : pystr, a <> [] -> truthy (a ++ b) = true).
  { intros [|x a] b Na; [contradiction|reflexivity]. }
  assert (E : forall a b : pystr,
             existsb (fun c => chr_eqb c ":") (a ++ `":" ++ b) = true).
  { intros a b. rewrite existsb_app. cbn. now rewrite orb_true_r. }
  repeat split; try (now apply dec_value_nonneg).
  - unfold Duration.time_to_seconds. cbn [val_truthy]. rewrite T by exact Nm.
    cbn [negb]. rewrite E.
    change (m ++ `":" ++ s) with (m ++ ":"%char :: s).
    rewrite split_chr_field by now apply digits_no_colon.
    rewrite split_chr_plain by now apply digits_no_colon.
    now rewrite Im, Is.
  - unfold Duration.time_to_seconds. cbn [val_truthy]. rewrite T by exact Nh.
    cbn [negb]. rewrite E.
    change (h ++ `":" ++ m ++ `":" ++ s) with (h ++ ":"%char :: m ++ ":"%char :: s).
    rewrite split_chr_field by now apply digits_no_colon.
    rewrite split_chr_field by now apply digits_no_colon.
    rewrite split_chr_plain by now apply digits_no_colon.
    now rewrite Ih, Im, Is.
Qed.

(** X15. What [time_to_seconds] turns into 0 instead of failing: a value
    that is not a string, the empty text, and every text with three or
    more colons. With a colon in the text the result never depends on
    [float]. *)
Theorem time_to_seconds_fallbacks (float_int : pystr -> option Z) :
  (forall v, (forall s, v <> PStr s) -> Duration.time_to_seconds float_int v = 0)
  /\ Duration.time_to_seconds float_int (PStr []) = 0
  /\ (forall s, (3 <= colons s)%nat ->
        Duration.time_to_seconds float_int (PStr s) = 0)
  /\ (forall s other, (1 <= colons s)%nat ->
        Duration.time_to_seconds float_int (PStr s)
        = Duration.time_to_seconds other (PStr s)).
Proof.
  assert (C : forall s, (1 <= colons s)%nat ->
                        existsb (fun c => chr_eqb c ":") s = true).
  { intros s. unfold colons. induction s as [|c s IH]; cbn [filter existsb length];
      [lia|].
    destruct (chr_eqb c ":"); [reflexivity|]. exact IH. }
  repeat match goal with |- _ /\ _ => split end.
  - intros v N. unfold Duration.time_to_seconds.
    destruct v as [|b|z|s]; try (destruct (negb _); reflexivity).
    exfalso. now apply (N s).
  - reflexivity.
  - intros s L. unfold Duration.time_to_seconds.
    destruct (negb (val_truthy (PStr s))); [reflexivity|].
    rewrite C by (unfold colons in *; lia).
    pose proof (split_chr_length ":" s) as SL. fold (colons s) in SL.
    destruct (split_chr ":" s) as [|a [|b [|c [|d parts]]]]; cbn [length] in SL;
      try lia; reflexivity.
  - intros s other L. unfold Duration.time_to_seconds.
    destruct (negb (val_truthy (PStr s))); [reflexivity|].
    rewrite C by exact L.
    pose proof (split_chr_length ":" s) as SL. fold (colons s) in SL.
    destruct (split_chr ":" s) as [|a [|b [|c [|d parts]]]]; cbn [length] in SL;
      try lia; reflexivity.
Qed.

End Durations.

(* ===================================================================== *)
(** * Audio mode, thumbnails of a record, search results *)
(* ===================================================================== *)

Section AudioMode.

(** X16. Audio mode of [get_stream_url], when the resolved [info] has no
    top-level [url] and a non-empty format list: the highest-indexed
    audio-only format is taken, and then the stream carries no video
    track; with no audio-only format, the highest-indexed format with an
    audio track, which then carries video as well; with no audio at all,
    the last format of the list. *)
Theorem audio_format_selection (info : Info) (formats : list Format) :
  info_url info = None -> info_formats info = Some formats -> formats <> [] ->
  exists chosen,
    pick_format formats false = Some chosen
    /\ select_stream_url info false = f_url chosen
    /\ In chosen formats
    /\ ((exists f, In f formats /\ audio_only f = true) ->
          last_such audio_only formats chosen /\ has_video chosen = false)
    /\ ((forall f, In f formats -> audio_only f = false) ->
        (exists f, In f formats /\ has_audio f = true) ->
          last_such has_audio formats chosen /\ has_video chosen = true)
    /\ ((forall f, In f formats -> has_audio f = false) ->
          last_opt formats = Some chosen).
Proof.
  intros U Fm NE.
  assert (S : forall chosen, pick_format formats false = Some chosen ->
                select_stream_url info false = f_url chosen).
  { intros chosen Hc. unfold select_stream_url. rewrite U, Fm.
    destruct formats as [|f fs]; [congruence|]. now rewrite Hc. }
  assert (AO : forall f, audio_only f = true -> has_audio f = true /\ has_video f = false).
  { intros f. unfold audio_only, has_audio, has_video. intros H.
    apply andb_true_iff in H. destruct H as [H1 H2].
    apply negb_true_iff in H2. auto. }
  assert (AV : forall f, audio_only f = false -> has_audio f = true -> has_video f = true).
  { intros f. unfold audio_only, has_audio, has_video. intros H1 H2.
    rewrite H2 in H1. cbn [andb] in H1. now apply negb_false_iff in H1. }
  unfold pick_format in *.
  destruct (filter audio_only formats) as [|b bs] eqn:FB.
  - pose proof (filter_nil_none _ _ FB) as NB. rewrite Forall_forall in NB.
    destruct (filter has_audio formats) as [|v vs] eqn:FV.
    + pose proof (filter_nil_none _ _ FV) as NV. rewrite Forall_forall in NV.
      destruct formats as [|f fs]; [congruence|].
      exists (last fs f). split; [reflexivity|]. split; [now apply S|].
      split; [now apply last_opt_in|]. split; [|split].
      * intros (g & Hg & Bg). rewrite (NB g Hg) in Bg. discriminate.
      * intros _ (g & Hg & Vg). rewrite (NV g Hg) in Vg. discriminate.
      * reflexivity.
    + destruct (@last_filter _ has_audio formats) as (f & L & LS);
        [rewrite FV; discriminate|].
      rewrite FV in L. exists f. split; [exact L|]. split; [now apply S|].
      pose proof (last_such_in _ _ _ LS) as If.
      split; [exact If|]. split; [|split].
      * intros (g & Hg & Bg). rewrite (NB g Hg) in Bg. discriminate.
      * intros _ _. split; [exact LS|].
        destruct LS as (b0 & a0 & E & Vf & _). apply AV; [now apply NB|exact Vf].
      * intros NV. destruct LS as (b0 & a0 & E & Vf & _).
        rewrite (NV f If) in Vf. discriminate.
  - destruct (@last_filter _ audio_only formats) as (f & L & LS);
      [rewrite FB; discriminate|].
    rewrite FB in L. exists f. split; [exact L|]. split; [now apply S|].
    pose proof (last_such_in _ _ _ LS) as If.
    split; [exact If|]. split; [|split].
    + intros _. split; [exact LS|].
      destruct LS as (b0 & a0 & E & Vf & _). now apply AO.
    + intros NB. destruct LS as (b0 & a0 & E & Vf & _).
      rewrite (NB f If) in Vf. discriminate.
    + intros NV. destruct LS as (b0 & a0 & E & Vf & _).
      apply AO in Vf. rewrite (NV f If) in Vf. destruct Vf. discriminate.
Qed.

End AudioMode.

Section RecordThumbnail.

Lemma youtube_thumbnail_truthy id q :
  val_truthy id = true -> truthy (get_youtube_thumbnail id q) = true.
Proof.
  intros H. unfold get_youtube_thumbnail. rewrite H. cbn [negb].
  destruct (existsb (pystr_eqb q) QUALITIES); reflexivity.
Qed.

(** X17. [ensure_thumbnail_availability] only ever touches the
    [thumbnail] entry, leaves a record alone that has a thumbnail or has
    no identifier, and applying it twice is the same as applying it
    once. *)
Theorem ensure_thumbnail_idempotent (vd : VideoData) :
  ensure_thumbnail_availability (ensure_thumbnail_availability vd)
  = ensure_thumbnail_availability vd
  /\ set_thumbnail (ensure_thumbnail_availability vd) (vd_thumbnail vd) = vd
  /\ (val_truthy (vd_thumbnail vd) = true -> ensure_thumbnail_availability vd = vd)
  /\ (val_truthy (vd_id vd) = false -> ensure_thumbnail_availability vd = vd)
  /\ (val_truthy (vd_thumbnail vd) = false -> val_truthy (vd_id vd) = true ->
        vd_thumbnail (ensure_thumbnail_availability vd)
        = PStr (`"https://i.ytimg.com/vi/" ++ py_str (vd_id vd) ++ `"/maxresdefault.jpg")).
Proof.
  unfold ensure_thumbnail_availability.
  destruct (val_truthy (vd_thumbnail vd)) eqn:T, (val_truthy (vd_id vd)) eqn:I;
    cbn [negb andb]; rewrite ?T, ?I; cbn [negb andb];
    repeat split; try discriminate; try (destruct vd; reflexivity).
  - cbn [set_thumbnail vd_thumbnail vd_id val_truthy].
    rewrite (youtube_thumbnail_truthy _ _ I). reflexivity.
  - intros _ _. cbn [set_thumbnail vd_thumbnail].
    unfold get_youtube_thumbnail. rewrite I. reflexivity.
Qed.

End RecordThumbnail.

Section SearchResults.

Variable W : World.

Lemma filter_map_length {A B} (f : A -> option B) l :
  (length (filter_map f l) <= length l)%nat.
Proof.
  induction l as [|x l IH]; simpl; [lia|]. destruct (f x); simpl; lia.
Qed.

Lemma filter_map_in {A B} (f : A -> option B) l y :
  In y (filter_map f l) -> exists x, In x l /\ f x = Some y.
Proof.
  induction l as [|x l IH]; simpl; [tauto|].
  destruct (f x) as [z|] eqn:E.
  - intros [<-|I]; [eauto|]. destruct (IH I) as (x' & I' & E'). eauto.
  - intros I. destruct (IH I) as (x' & I' & E'). eauto.
Qed.

(** X18. [search_videos]. The query [295], in any letter case, is
    answered with the one built-in record without asking the platform,
    also for [limit = 0]. Every other query costs exactly one platform
    search for [ytsearch<limit>:<query>] and yields at most [limit]
    records ([] when the platform fails). In every record the link is
    the watch URL of the record's identifier, and when that identifier
    has the 11-character shape the link leads back to it through
    [extract_video_id]. Cache, keys and request log are not touched. *)
Theorem search_videos_results (query : pystr) (limit : nat) (st : State) :
  let videos := fst (search_videos W query limit st) in
  let st' := snd (search_videos W query limit st) in
  (pystr_eqb (lower query) `"295" = true -> videos = [HARDCODED_295] /\ st' = st)
  /\ (pystr_eqb (lower query) `"295" = false ->
        (length videos <= limit)%nat
        /\ upstream st'
           = CallYtSearch (`"ytsearch" ++ str_of_int (Z.of_nat limit) ++ `":" ++ query)
               :: upstream st
        /\ (ydl_search W (length (upstream st))
              (`"ytsearch" ++ str_of_int (Z.of_nat limit) ++ `":" ++ query) = None ->
            videos = []))
  /\ cache st' = cache st /\ api_keys st' = api_keys st /\ api_logs st' = api_logs st
  /\ Forall (fun vd =>
               vd_link vd = WATCH_PREFIX ++ py_str (vd_id vd)
               /\ (forall id, vd_id vd = PStr id -> is_id11 id ->
                     extract_video_id (vd_link vd) = Some id
                     /\ is_youtube_url (vd_link vd) = true
                     /\ vd_thumbnail vd <> PStr [])) videos.
Proof.
  cbv zeta. rewrite search_videos_run.
  destruct (pystr_eqb (lower query) `"295").
  - cbn [fst snd]. repeat split; try discriminate.
    constructor; [|constructor]. split; [reflexivity|].
    intros id E H. injection E as <-. split; [|split].
    + apply (extract_watch `"n_FCrCQ6-bA"). exact H.
    + reflexivity.
    + discriminate.
  - cbv zeta. cbn [fst snd add_calls].
    split; [discriminate|]. split; [|split; [|split; [|split]]]; try reflexivity.
    + intros _. split; [|split; [reflexivity|]].
      * destruct (ydl_search W _ _) as [entries|]; [|simpl; lia].
        etransitivity; [apply filter_map_length|]. apply firstn_le_length.
      * intros ->. reflexivity.
    + destruct (ydl_search W _ _) as [entries|]; [|constructor].
      apply Forall_forall. intros vd I.
      apply filter_map_in in I. destruct I as ([e|] & _ & E); [|discriminate].
      cbn [option_map] in E. injection E as <-.
      split; [reflexivity|]. cbn [entry_video_data vd_id vd_link vd_thumbnail].
      intros id -> H. cbn [py_str]. split; [now apply extract_watch|].
      split; [apply watch_is_url|].
      intros T. injection T as T. apply (f_equal truthy) in T.
      rewrite youtube_thumbnail_truthy in T; [discriminate|].
      cbn [val_truthy]. now apply id11_truthy.
Qed.

(** X19. [get_details] sends exactly one platform call and touches
    nothing else. A text that is neither a URL nor an identifier goes to
    the video search as it is; a URL or an identifier goes to the
    extractor as [normalize_url] leaves it (a bare identifier unchanged),
    and then the record's link is the watch URL of the identifier the
    platform reports, with a thumbnail whenever that identifier is
    non-empty; no answer from the platform is no record. *)
Theorem get_details_contract (url : pystr) (st : State) :
  let details := fst (get_details W url st) in
  let st' := snd (get_details W url st) in
  let searched := negb (is_youtube_url url) && negb (is_video_id url) in
  st' = add_calls [if searched then CallVideosSearch url
                   else CallExtract (normalize_url url None) (default_format W)] st
  /\ (is_id11 url -> normalize_url url None = url)
  /\ (searched = false ->
      ydl_extract_info W (length (upstream st)) (normalize_url url None)
                       (default_format W) = None ->
      details = None)
  /\ (searched = false -> forall vd, details = Some vd ->
        vd_link vd = WATCH_PREFIX ++ py_str (vd_id vd)
        /\ (val_truthy (vd_id vd) = true -> val_truthy (vd_thumbnail vd) = true))
  /\ (searched = true ->
      videos_search W (length (upstream st)) url = None
      \/ videos_search W (length (upstream st)) url = Some [] ->
      details = None).
Proof.
  cbv zeta. unfold get_details.
  destruct (negb (is_youtube_url url) && negb (is_video_id url)) eqn:Sd.
  - unfold bind, record_call, ret, add_calls. cbn [fst snd app].
    split; [destruct (videos_search W _ _) as [[|v vs]|]; reflexivity|].
    split.
    { intros H. unfold normalize_url. cbn [nonempty].
      now rewrite (idchars_not_url url (proj2 H)). }
    split; [discriminate|]. split; [discriminate|]. intros _ [E|E]; now rewrite E.
  - unfold extract_info, bind, record_call, ret, add_calls. cbn [fst snd app].
    split; [destruct (ydl_extract_info W _ _ _); reflexivity|].
    split.
    { intros H. unfold normalize_url. cbn [nonempty].
      now rewrite (idchars_not_url url (proj2 H)). }
    split; [intros _ ->; reflexivity|]. split; [|discriminate].
    intros _ vd. destruct (ydl_extract_info W _ _ _) as [info|]; [|discriminate].
    cbn [fst]. unfold details_of_info.
    destruct (if val_truthy (dget (info_duration info) (PInt 0))
              then timedelta_str W (dget (info_duration info) (PInt 0))
              else Some `"0:00") as [text|]; [|discriminate].
    destruct (extract_best_thumbnail info) as [thumbnail|]; [|discriminate].
    intros [= <-]. unfold ensure_thumbnail_availability.
    cbn [vd_thumbnail vd_id].
    destruct (negb (val_truthy thumbnail)
              && val_truthy (dget (info_id info) (PStr []))) eqn:C;
      cbn [set_thumbnail vd_link vd_id vd_thumbnail]; (split; [reflexivity|]); intros I.
    + cbn [val_truthy]. now apply youtube_thumbnail_truthy.
    + rewrite I, andb_true_r in C. now apply negb_false_iff in C.
Qed.

End SearchResults.

(* ===================================================================== *)
(** * The handler and the cache *)
(* ===================================================================== *)

Section CacheBlind.

Variable W : World.

Lemma cache_blind_ret {A} (a : A) : cache_blind (ret a).
Proof. intros st c. split; [reflexivity|]. now exists c. Qed.

Lemma cache_blind_bind {A B} (m : M A) (k : A -> M B) :
  cache_blind m -> (forall a, cache_blind (k a)) -> cache_blind (bind m k).
Proof.
  intros Hm Hk st c. unfold bind.
  destruct (Hm st c) as [E1 [c1 E2]].
  destruct (m (with_cache c st)) as [a s1], (m st) as [a' s1'].
  cbn [fst snd] in *. subst a' s1. apply Hk.
Qed.

Lemma with_cache_same st : with_cache (cache st) st = st.
Proof. now destruct st. Qed.

Lemma get_details_blind url : cache_blind (get_details W url).
Proof.
  intros st c. unfold get_details.
  destruct (negb (is_youtube_url url) && negb (is_video_id url)).
  - unfold bind, record_call, ret, with_cache. cbn.
    destruct (videos_search W _ _) as [[|v vs]|]; (split; [reflexivity|now exists c]).
  - unfold extract_info, bind, record_call, ret, with_cache. cbn.
    destruct (ydl_extract_info W _ _ _); (split; [reflexivity|now exists c]).
Qed.

Lemma search_videos_blind q limit : cache_blind (search_videos W q limit).
Proof.
  intros st c. rewrite !search_videos_run.
  destruct (pystr_eqb (lower q) `"295"); cbv zeta; cbn [fst snd];
    (split; [reflexivity|now exists c]).
Qed.

Lemma get_stream_url_blind url is_video vid :
  cache_blind (get_stream_url W url is_video vid).
Proof.
  intros st c. rewrite !get_stream_url_run. cbv zeta. cbn [with_cache upstream].
  destruct (ydl_extract_info W _ _ _) as [info|];
    [|split; [reflexivity|now exists c]].
  destruct (select_stream_url info is_video) as [u|];
    [|split; [reflexivity|now exists c]].
  split; [reflexivity|]. eexists. unfold registered, with_cache. cbn. reflexivity.
Qed.

Lemma youtube_blind req : cache_blind (youtube W req).
Proof.
  unfold youtube.
  destruct (nonempty (arg_query req)) as [query|]; [|apply cache_blind_ret].
  assert (D : forall url,
    cache_blind
      (video_details <- get_details W url ;;
       match video_details with
       | Some vd =>
           if negb (val_truthy (vd_id vd))
           then ret (RespError 404 `"No video found")
           else
             stream_url <- get_stream_url W url
               (pystr_eqb (lower (match arg_video req with
                                  | Some v => v
                                  | None => `"false"
                                  end)) `"true") None ;;
             (if negb (truthy stream_url)
              then ret (RespError 500 `"Failed to get stream URL")
              else ret (format_response req vd stream_url
                          (pystr_eqb (lower (match arg_video req with
                                             | Some v => v
                                             | None => `"false"
                                             end)) `"true")))
       | None => ret (RespError 404 `"No video found")
       end)).
  { intros url. apply cache_blind_bind; [apply get_details_blind|].
    intros [vd|]; [|apply cache_blind_ret].
    destruct (negb (val_truthy (vd_id vd))); [apply cache_blind_ret|].
    apply cache_blind_bind; [apply get_stream_url_blind|].
    intros path. destruct (negb (truthy path)); apply cache_blind_ret. }
  destruct (classify query) as [id|url|q]; try apply D.
  apply cache_blind_bind; [apply search_videos_blind|].
  intros [|vd rest]; [apply cache_blind_ret|].
  apply cache_blind_bind; [apply get_stream_url_blind|].
  intros path. destruct (negb (truthy path)); apply cache_blind_ret.
Qed.

(** X20. Nothing is ever answered from the cache by [youtube]: whatever
    the cache holds, the answer is the same and so is everything the
    handler leaves outside the cache (platform calls, clock readings,
    identifiers drawn). Every 200 has been paid for with an extraction
    call for the mode asked, the last call sent. *)
Theorem youtube_never_answers_from_cache (req : Request) (st : State)
        (c : dict CacheVal) :
  fst (youtube W req (with_cache c st)) = fst (youtube W req st)
  /\ (exists c',
        snd (youtube W req (with_cache c st)) = with_cache c' (snd (youtube W req st)))
  /\ (forall body, fst (youtube W req st) = RespOk body ->
        exists url earlier,
          upstream (snd (youtube W req st))
          = CallExtract url (stream_format (wants_video req)) :: earlier).
Proof.
  destruct (youtube_blind req st c) as [A B]. split; [exact A|]. split; [exact B|].
  clear A B. intros body E.
  destruct (youtube W req st) as [r st'] eqn:Y. cbn [fst snd] in *. subst r.
  apply youtube_ok_run in Y. destruct Y as (vd & url & calls & path & G & _).
  destruct (get_stream_url_frame W url (wants_video req) None (add_calls calls st))
    as (_ & _ & U).
  rewrite G in U. cbn [snd] in U. eauto.
Qed.

End CacheBlind.

(* ===================================================================== *)
(** * The further statements at concrete inputs *)
(* ===================================================================== *)

Lemma extract_video_id_in_url_witness :
  length RICK_ID = 11%nat /\ forallb idchar RICK_ID = true /\ infix RICK_ID SHORT_LINK.
Proof.
  apply (extract_video_id_in_url SHORT_LINK RICK_ID). vm_compute. reflexivity.
Defined.

Lemma url_shapes_normalize_witness :
  is_youtube_url SHORT_LINK = true
  /\ extract_video_id SHORT_LINK = Some RICK_ID
  /\ normalize_url SHORT_LINK None = RICK_URL
  /\ classify SHORT_LINK = CanonicalUrl SHORT_LINK.
Proof.
  apply (url_shapes_normalize `"https://youtu.be/" RICK_ID `"?t=1").
  - unfold URL_HEADS. cbn. repeat (first [left; reflexivity | right]).
  - reflexivity.
  - reflexivity.
Defined.

Lemma youtube_stream_url_resolves_witness :
  exists body st',
    serve_youtube demo_world false (demo_request "jaydip") demo_state = (RespOk body, st')
    /\ exists stream_id upstream_url expires host slashes,
         req_host_url (demo_request "jaydip") = host ++ slashes
         /\ forallb (fun c => chr_eqb c "/") slashes = true
         /\ last host "a"%char <> "/"%char
         /\ r_stream_url body = host ++ `"/stream/" ++ stream_id
         /\ r_stream_type body
            = (if wants_video (demo_request "jaydip") then `"Video" else `"Audio")
         /\ dict_get (STREAM_PREFIX ++ stream_id) (cache st')
            = Some (CStream upstream_url (wants_video (demo_request "jaydip")) expires)
         /\ forall req',
              stream_media req' stream_id st'
              = (if truthy upstream_url
                 then RespStream upstream_url
                        (if wants_video (demo_request "jaydip")
                         then `"video/mp4" else `"audio/mp4")
                        (match req_range req' with Some r => r | None => `"bytes=0-" end)
                 else RespError 500 `"Invalid stream URL", st').
Proof.
  eexists. eexists. split; [vm_compute; reflexivity|].
  apply (youtube_stream_url_resolves demo_world false (demo_request "jaydip") demo_state).
  vm_compute. reflexivity.
Defined.

Lemma admitted_request_is_charged_witness :
  exists st0 row' entry,
    required_api_key demo_world (youtube demo_world) (demo_request "jaydip") demo_state
    = youtube demo_world (demo_request "jaydip") st0
    /\ find_key `"jaydip" (api_keys st0) = Some row'
    /\ ak_count row' = ak_count ADMIN_KEY + 1
    /\ ak_reset_at row' = ak_reset_at ADMIN_KEY
    /\ (forall now, now <= ak_reset_at ADMIN_KEY ->
          remaining_requests now row' = remaining_requests now ADMIN_KEY - 1)
    /\ api_logs st0 = api_logs demo_state ++ [entry]
    /\ al_api_key_id entry = ak_id ADMIN_KEY
    /\ al_query entry = arg_query (demo_request "jaydip")
    /\ al_response_status entry = 200
    /\ cache st0 = cache demo_state /\ upstream st0 = upstream demo_state.
Proof.
  apply (admitted_request_is_charged demo_world (youtube demo_world)
           (demo_request "jaydip") demo_state `"jaydip" ADMIN_KEY).
  - reflexivity.
  - reflexivity.
  - apply Z.leb_le. reflexivity.
  - apply Z.ltb_lt. reflexivity.
  - apply Z.leb_le. reflexivity.
Defined.

Lemma daily_limit_is_exact_witness :
  let reqs := [demo_request "trial"; demo_request "trial"; demo_request "trial"] in
  let answers := fst (serve_all demo_world reqs quota_state) in
  length answers = 3%nat
  /\ Forall (fun r => r <> LIMIT_EXCEEDED) (firstn 2 answers)
  /\ Forall (fun r => r = LIMIT_EXCEEDED) (skipn 2 answers).
Proof.
  apply (daily_limit_is_exact demo_world `"trial"
           [demo_request "trial"; demo_request "trial"; demo_request "trial"]
           quota_state NEARLY_SPENT_KEY).
  - intros req [<-|[<-|[<-|[]]]]; reflexivity.
  - reflexivity.
  - intros [|n]; apply Z.leb_le; reflexivity.
  - intros [|n]; apply Z.leb_le; reflexivity.
Defined.

Lemma window_reset_restarts_counter_witness :
  exists st0 row',
    required_api_key demo_world (youtube demo_world) (demo_request "yesterday") quota_state
    = youtube demo_world (demo_request "yesterday") st0
    /\ find_key `"yesterday" (api_keys st0) = Some row'
    /\ ak_count row' = 1
    /\ ak_reset_at row' = HOUR + 1 + DAY
    /\ ak_daily_limit row' = 100
    /\ ak_valid_until row' = 3650 * DAY.
Proof.
  apply (window_reset_restarts_counter demo_world (youtube demo_world)
           (demo_request "yesterday") quota_state `"yesterday" STALE_KEY).
  - reflexivity.
  - reflexivity.
  - apply Z.leb_le. reflexivity.
  - apply Z.ltb_lt. reflexivity.
  - apply Z.ltb_lt. reflexivity.
  - apply Z.ltb_lt. reflexivity.
Defined.

Lemma sweep_removes_exactly_the_stale_witness :
  stream_route demo_world true plain_request `"old" sweep_state
  = (RespError 404 `"Stream not found or expired",
     snd (cleanup_old_files demo_world sweep_state))
  /\ (dict_get (STREAM_PREFIX ++ `"new")
                (cache (snd (cleanup_old_files demo_world sweep_state)))
      = Some (CStream DEMO_UPSTREAM true (2 * HOUR))
      <-> dict_get (STREAM_PREFIX ++ `"new") (cache sweep_state)
          = Some (CStream DEMO_UPSTREAM true (2 * HOUR))
          /\ clock demo_world 1 <= 2 * HOUR).
Proof.
  assert (N : NoDup (map fst (cache sweep_state))).
  { constructor; [intros [E|[]]; discriminate E|].
    constructor; [intros []|constructor]. }
  destruct (sweep_removes_exactly_the_stale demo_world sweep_state N)
    as (_ & S & _ & _ & _ & _ & _ & R).
  split.
  - apply (R plain_request `"old" DEMO_UPSTREAM false HOUR); [reflexivity|].
    apply Z.ltb_lt. reflexivity.
  - exact (S (STREAM_PREFIX ++ `"new") DEMO_UPSTREAM true (2 * HOUR)).
Defined.

Lemma cached_value_is_fresh_witness :
  (exists ts,
      dict_get (generate_cache_key `"get_details" [PStr RICK_ID] []) (cache warm_state)
      = Some (CResult (PStr `"stored") ts)
      /\ clock demo_world (clock_reads warm_state) - ts < CACHE_TIMEOUT
      /\ tick warm_state = tick warm_state)
  \/ (exists s0 sf,
        (s0 = warm_state \/ s0 = tick warm_state)
        /\ failing_func [PStr RICK_ID] [] s0 = (inr (PStr `"stored"), sf)
        /\ clock_reads (tick warm_state) = S (S (clock_reads sf))
        /\ upstream (tick warm_state) = upstream sf).
Proof.
  apply (cached_value_is_fresh demo_world CACHE_TIMEOUT `"get_details" failing_func
           [PStr RICK_ID] [] warm_state (tick warm_state) (PStr `"stored")).
  vm_compute. reflexivity.
Defined.

Lemma cached_raises_beside_stream_handle_witness :
  exists st1,
    cached demo_world CACHE_TIMEOUT `"get_details" answering_func [PStr RICK_ID] []
           sweep_state = (inl KeyError, st1)
    /\ dict_get (STREAM_PREFIX ++ `"new") (cache st1)
       = Some (CStream DEMO_UPSTREAM true (2 * HOUR))
    /\ upstream st1 = upstream sweep_state.
Proof.
  apply (cached_raises_beside_stream_handle demo_world CACHE_TIMEOUT `"get_details"
           answering_func [PStr RICK_ID] [] sweep_state sweep_state (PStr `"fresh")
           `"new" DEMO_UPSTREAM true (2 * HOUR)).
  - vm_compute. reflexivity.
  - reflexivity.
  - reflexivity.
Defined.

Lemma time_to_seconds_clock_text_witness :
  Duration.time_to_seconds (fun _ => None) (PStr `"02:03") = 123
  /\ Duration.time_to_seconds (fun _ => None) (PStr `"1:02:03") = 3723
  /\ 0 <= dec_value `"1" /\ 0 <= dec_value `"02" /\ 0 <= dec_value `"03".
Proof.
  apply (time_to_seconds_clock_text (fun _ => None) `"1" `"02" `"03");
    (split; [discriminate|split; [reflexivity|apply Z.leb_le; reflexivity]]).
Defined.

Lemma audio_format_selection_witness :
  exists chosen,
    pick_format [AUDIO_ONLY; COMBINED; VIDEO_ONLY_1] false = Some chosen
    /\ select_stream_url INFO_AUDIO false = f_url chosen
    /\ last_such audio_only [AUDIO_ONLY; COMBINED; VIDEO_ONLY_1] chosen
    /\ has_video chosen = false.
Proof.
  assert (NE : [AUDIO_ONLY; COMBINED; VIDEO_ONLY_1] <> []) by discriminate.
  destruct (audio_format_selection INFO_AUDIO [AUDIO_ONLY; COMBINED; VIDEO_ONLY_1]
              eq_refl eq_refl NE) as (chosen & P & S & _ & B & _).
  exists chosen. split; [exact P|]. split; [exact S|].
  apply B. exists AUDIO_ONLY. split; [now left|reflexivity].
Defined.
